(** * Heatmap decoding and keypoint metrics of mmpose, embedded in Rocq

    The development follows [mmpose/core/evaluation/top_down_eval.py] and
    [mmpose/core/keypoint/codecs/megvii_heatmap.py].

    Numbers.  The arrays of the program hold IEEE floats; the embedding holds
    rationals ([Q]) and takes the arithmetic at its exact value.  Rounding is
    kept in two places.  [_get_max_preds] stores the flattened argmax in a
    float32 array before it divides it: the index is rounded to float32
    ([np_float32]).  [_taylor] decides by a test on floats whether it inverts
    the Hessian: the value tested is rounded ([fl]) and the inversion is the
    machine's ([np_linalg_inv]), both taken from [External].  Where numpy
    would go on with [nan] or [inf] (a division by zero), the embedding
    either keeps an explicit non-finite value ([npfloat], used for the
    distance arrays) or stops with the outcome [NonFinite].

    Arrays.  A batch of heatmaps of shape (N, K, H, W) is a list of N lists
    of K channels, a channel being a list of H rows of W cells.  A function
    that writes into an array it was handed returns the new contents of that
    array next to its result. *)

From Stdlib Require Import String.
From Stdlib Require Import QArith Qabs Qround ZArith List Bool Lia Lqa.
Import ListNotations.

Local Open Scope Z_scope.
Local Open Scope Q_scope.

(* ================================================================== *)
(** ** Python and numpy primitives *)
(* ================================================================== *)

Module Py.

(** The exceptions the modelled code can raise. *)
Inductive exn : Type :=
| ValueError
| IndexError
| AssertionError
| LinAlgError
| TypeError
| Cv2Error.

(** What a call does: return a value, raise, or leave the rationals
    (numpy goes on with [nan] or [inf] there). *)
Inductive outcome (A : Type) : Type :=
| Ok (a : A)
| Raises (e : exn)
| NonFinite.

Arguments Ok {A} a.
Arguments Raises {A} e.
Arguments NonFinite {A}.

Definition bind {A B : Type} (m : outcome A) (f : A -> outcome B) : outcome B :=
  match m with
  | Ok a => f a
  | Raises e => Raises e
  | NonFinite => NonFinite
  end.

Notation "x <- m ;; k" := (bind m (fun x => k))
  (at level 61, m at next level, right associativity).
Notation "' p <- m ;; k" := (bind m (fun p => k))
  (at level 61, p pattern, m at next level, right associativity).

Definition fmap {A B : Type} (f : A -> B) (m : outcome A) : outcome B :=
  match m with
  | Ok a => Ok (f a)
  | Raises e => Raises e
  | NonFinite => NonFinite
  end.

Definition py_assert (b : bool) : outcome unit :=
  if b then Ok tt else Raises AssertionError.

Fixpoint mapM {A B : Type} (f : A -> outcome B) (l : list A) : outcome (list B) :=
  match l with
  | [] => Ok []
  | a :: t => b <- f a ;; bs <- mapM f t ;; Ok (b :: bs)
  end.

(** [a < b] on floats. *)
Definition Qltb (a b : Q) : bool := negb (Qle_bool b a).

(** [int(x)]: truncation towards zero. *)
Definition py_int (q : Q) : Z := Z.quot (Qnum q) (Zpos (Qden q)).

(** [np.sign]. *)
Definition np_sign (q : Q) : Q :=
  if Qltb 0 q then 1 else if Qltb q 0 then -1 else 0.

(** [l[i]] with Python's negative indices. *)
Definition py_index {A : Type} (l : list A) (i : Z) : outcome A :=
  let n := Z.of_nat (length l) in
  let j := (if i <? 0 then i + n else i)%Z in
  if ((0 <=? j) && (j <? n))%Z
  then match nth_error l (Z.to_nat j) with
       | Some a => Ok a
       | None => Raises IndexError
       end
  else Raises IndexError.

(** [a[y][x]] on a 2-D array. *)
Definition py_index2 (a : list (list Q)) (y x : Z) : outcome Q :=
  row <- py_index a y ;; py_index row x.

(** [np.argmax] of a flat array: the first position of the largest value. *)
Fixpoint argmax_scan (bi : nat) (bv : Q) (i : nat) (l : list Q) : nat :=
  match l with
  | [] => bi
  | v :: t => if Qltb bv v then argmax_scan i v (S i) t
              else argmax_scan bi bv (S i) t
  end.

Definition np_argmax (l : list Q) : outcome nat :=
  match l with
  | [] => Raises ValueError
  | v :: t => Ok (argmax_scan 0 v 1 t)
  end.

(** [np.amax] / [np.max] of a flat array. *)
Definition max_scan (bv : Q) (l : list Q) : Q :=
  fold_left (fun m v => if Qltb m v then v else m) l bv.

Definition np_amax (l : list Q) : outcome Q :=
  match l with
  | [] => Raises ValueError
  | v :: t => Ok (max_scan v t)
  end.

(** [astype(np.float32)] of an integer: the nearest number with a
    significand of 24 bits, a tie going to the even significand.  Integers
    up to 2^24 are kept; no index comes near the largest float32. *)
Definition np_float32 (z : Z) : Z :=
  let n := Z.abs z in
  let e := Z.log2 n in
  if (e <? 24)%Z then z
  else
    let s := (e - 23)%Z in
    let m := Z.shiftr n s in
    let r := (n - Z.shiftl m s)%Z in
    let half := Z.shiftl 1 (s - 1) in
    let m' := if (r <? half)%Z then m
              else if (half <? r)%Z then (m + 1)%Z
              else if Z.even m then m else (m + 1)%Z in
    (Z.sgn z * Z.shiftl m' s)%Z.


(** [l[start:stop]]: the bounds of a slice, negative ones counted from the
    end and both clipped to the length. *)
Definition slice_bound (len : nat) (i : Z) : nat :=
  let n := Z.of_nat len in
  Z.to_nat (Z.min n (Z.max 0 (if i <? 0 then i + n else i)))%Z.

Definition py_slice {A : Type} (l : list A) (start stop : Z) : list A :=
  let s := slice_bound (length l) start in
  let e := slice_bound (length l) stop in
  firstn (e - s) (skipn s l).

(** [l[start:stop] = src] on one axis of an array: the slice keeps its
    length, so [src] must have it. *)
Definition py_slice_assign {A : Type} (l : list A) (start stop : Z)
    (src : list A) : outcome (list A) :=
  let s := slice_bound (length l) start in
  let e := slice_bound (length l) stop in
  if Nat.eqb (length src) (e - s)
  then Ok (firstn s l ++ src ++ skipn (s + (e - s)) l)
  else Raises ValueError.

(** [a[s:e, s:e]] on a 2-D array. *)
Definition py_slice2 (a : list (list Q)) (start stop : Z) : list (list Q) :=
  map (fun row => py_slice row start stop) (py_slice a start stop).

(** [a[s:e, s:e] = src] on a 2-D array. *)
Definition py_slice2_assign (a : list (list Q)) (start stop : Z)
    (src : list (list Q)) : outcome (list (list Q)) :=
  let rows := py_slice a start stop in
  if Nat.eqb (length src) (length rows)
  then new_rows <- mapM (fun '(row, srow) => py_slice_assign row start stop srow)
                        (combine rows src) ;;
       py_slice_assign a start stop new_rows
  else Raises ValueError.

(** [l[first::3]]. *)
Fixpoint every_third {A : Type} (skip : nat) (l : list A) : list A :=
  match l with
  | [] => []
  | a :: t => match skip with
              | O => a :: every_third 2 t
              | S s => every_third s t
              end
  end.

(** [np.zeros((h, w))]. *)
Definition np_zeros2 (h w : nat) : list (list Q) := repeat (repeat 0 w) h.

(** [np.sum] of a flat array. *)
Definition sumQ (l : list Q) : Q := fold_right Qplus 0 l.

(** [np.linalg.inv] of the 2x2 matrix [[a, b], [c, d]] in exact
    arithmetic. *)
Definition np_linalg_inv2 (a b c d : Q) : outcome (Q * Q * Q * Q) :=
  let det := a * d - b * c in
  if Qeq_bool det 0 then Raises LinAlgError
  else Ok (d / det, - b / det, - c / det, a / det).

(** A float that may have left the rationals. *)
Inductive npfloat : Type :=
| Fin (q : Q)
| PosInf
| NegInf
| NaN.

(** [x / y] on floats. *)
Definition np_true_divide (x y : Q) : npfloat :=
  if Qeq_bool y 0
  then (if Qeq_bool x 0 then NaN else if Qltb 0 x then PosInf else NegInf)
  else Fin (x / y).

Definition npfloat_add (a b : npfloat) : npfloat :=
  match a, b with
  | NaN, _ | _, NaN => NaN
  | PosInf, NegInf | NegInf, PosInf => NaN
  | PosInf, _ | _, PosInf => PosInf
  | NegInf, _ | _, NegInf => NegInf
  | Fin x, Fin y => Fin (x + y)
  end.

(** [s / n] for a float [s] and an integer count [n]. *)
Definition npfloat_div_count (s : npfloat) (n : nat) : npfloat :=
  match s with
  | Fin x => np_true_divide x (inject_Z (Z.of_nat n))
  | PosInf => PosInf
  | NegInf => NegInf
  | NaN => NaN
  end.

(** [d != -1] and [d < thr]. *)
Definition npfloat_ne_m1 (d : npfloat) : bool :=
  match d with
  | Fin q => negb (Qeq_bool q (-1))
  | _ => true
  end.

Definition npfloat_ltb (d : npfloat) (thr : Q) : bool :=
  match d with
  | Fin q => Qltb q thr
  | NegInf => true
  | PosInf | NaN => false
  end.

(** Arrays whose shape matters, as numpy keeps them: a shape and the cells
    in row-major order.  [a[None]] adds a leading axis of length one. *)
Record ndarray : Type := { shape : list nat; data : list Q }.

Definition add_axis (a : ndarray) : ndarray :=
  {| shape := 1%nat :: shape a; data := data a |}.

Definition of_points (l : list (Q * Q)) : ndarray :=
  {| shape := [length l; 2%nat];
     data := concat (map (fun p => [fst p; snd p]) l) |}.

Definition of_values (l : list Q) : ndarray :=
  {| shape := [length l]; data := l |}.

End Py.

Import Py.

(* ================================================================== *)
(** ** Machine arithmetic *)
(* ================================================================== *)

(** IEEE 754 rounding and LAPACK's elimination, to run [_taylor] as a
    machine with binary64 arrays does.  The embedding of the program does
    not depend on them: it takes the rounding and the inversion from
    [External] below. *)
Module Machine.

(** The exponent of a positive number: the [e] with 2^e <= q < 2^(e+1). *)
Definition floor_log2 (q : Q) : Z :=
  let e := (Z.log2 (Qnum q) - Z.log2 (Z.pos (Qden q)))%Z in
  if Qle_bool (Qpower 2 e) q then e else (e - 1)%Z.

(** The nearest integer to a number that is not negative, a tie going to
    the even one. *)
Definition nearest_even (q : Q) : Z :=
  let f := Qfloor q in
  match Qcompare (q - inject_Z f) (1#2) with
  | Lt => f
  | Gt => (f + 1)%Z
  | Eq => if Z.even f then f else (f + 1)%Z
  end.

(** Rounding to the nearest number with a significand of [p] bits, ties to
    even (exponent range not limited). *)
Definition round_to (p : Z) (q : Q) : Q :=
  if Qeq_bool q 0 then 0
  else
    let a := Qabs q in
    let ulp := Qpower 2 (floor_log2 a - (p - 1)) in
    let m := inject_Z (nearest_even (a / ulp)) * ulp in
    if Qltb q 0 then - m else m.

(** One column of the inverse: [L y = e], then [U x = y], for the factors
    [[1, 0], [l, 1]] and [[p, q], [0, u]]. *)
Definition lu_solve (fl : Q -> Q) (p q l u : Q) (e : Q * Q) : Q * Q :=
  let y0 := fst e in
  let y1 := fl (snd e - fl (l * y0)) in
  let x1 := fl (y1 / u) in
  let x0 := fl (fl (y0 - fl (q * x1)) / p) in
  (x0, x1).

(** [np.linalg.inv] of [[a, b], [c, d]] through LAPACK's [gesv]: elimination
    with partial pivoting on the first column, the multiplier formed with
    the reciprocal of the pivot, every result rounded; a pivot that is 0
    makes the matrix singular for LAPACK and numpy raises LinAlgError. *)
Definition lu_inv2 (fl : Q -> Q) (a b c d : Q) : outcome (Q * Q * Q * Q) :=
  let swap := Qltb (Qabs a) (Qabs c) in
  let '(p, q, r, s) := if swap then (c, d, a, b) else (a, b, c, d) in
  if Qeq_bool p 0 then Raises LinAlgError
  else
    let l := fl (r * fl (1 / p)) in
    let u := fl (s - fl (l * q)) in
    if Qeq_bool u 0 then Raises LinAlgError
    else
      let e0 := if swap then (0, 1) else (1, 0) in
      let e1 := if swap then (1, 0) else (0, 1) in
      let '(i00, i10) := lu_solve fl p q l u e0 in
      let '(i01, i11) := lu_solve fl p q l u e1 in
      Ok (i00, i01, i10, i11).

End Machine.

(* ================================================================== *)
(** ** External numerics *)
(* ================================================================== *)

(** Functions the program calls that are floating-point library code or live
    outside these source files. *)
Class External : Type := {
  (** [np.log]. *)
  np_log : Q -> Q;
  (** The square root inside [np.linalg.norm]. *)
  np_sqrt : Q -> Q;
  (** The coefficients [cv2.getGaussianKernel(n, 0)] computes from
      [exp] when [n] is beyond OpenCV's fixed table. *)
  computed_gaussian_kernel : Z -> list Q;
  (** [mmpose.core.post_processing.transform_preds(coords, center, scale,
      output_size, use_udp)]. *)
  transform_preds :
    list (Q * Q) -> Q * Q -> Q * Q -> Z * Z -> bool -> list (Q * Q);
  (** The rounding of one arithmetic result to the float type of the array,
      where a test of the program depends on it. *)
  fl : Q -> Q;
  (** [np.linalg.inv] of the 2 x 2 matrix [[a, b], [c, d]] as LAPACK computes
      it in [_taylor]: the inverse as the machine finds it, or LinAlgError
      when the elimination meets a zero pivot. *)
  np_linalg_inv : Q -> Q -> Q -> Q -> outcome (Q * Q * Q * Q)
}.

(* ================================================================== *)
(** ** OpenCV's Gaussian blur *)
(* ================================================================== *)

Module Cv2.

(** [borderInterpolate(p, len, BORDER_REFLECT_101)]. *)
Fixpoint reflect101 (fuel : nat) (p len : Z) : Z :=
  if ((0 <=? p) && (p <? len))%Z then p
  else match fuel with
       | O => 0%Z
       | S f => if (p <? 0)%Z then reflect101 f (- p)%Z len
                else reflect101 f (2 * len - 2 - p)%Z len
       end.

Definition borderInterpolate (p len : Z) : Z :=
  if ((0 <=? p) && (p <? len))%Z then p
  else if (len =? 1)%Z then 0%Z
  else reflect101 (S (Z.to_nat (Z.abs p))) p len.

(** OpenCV's table for [getGaussianKernel(n, sigma <= 0)], n = 1, 3, 5, 7. *)
Definition small_gaussian_tab (n : Z) : option (list Q) :=
  match n with
  | 1%Z => Some [1]
  | 3%Z => Some [1#4; 1#2; 1#4]
  | 5%Z => Some [1#16; 1#4; 3#8; 1#4; 1#16]
  | 7%Z => Some [1#32; 7#64; 7#32; 9#32; 7#32; 7#64; 1#32]
  | _ => None
  end.

Definition getGaussianKernel {Ext : External} (n : Z) : list Q :=
  match small_gaussian_tab n with
  | Some k => k
  | None => computed_gaussian_kernel n
  end.

(** The coefficients of a kernel with the offset of each tap. *)
Definition taps (k : list Q) : list (Z * Q) :=
  combine (map Z.of_nat (seq 0 (length k))) k.

Definition pixel (img : list (list Q)) (y x : Z) : Q :=
  nth (Z.to_nat x) (nth (Z.to_nat y) img []) 0.

(** One output pixel of the separable filter. *)
Definition filter_at (kx ky : list Q) (img : list (list Q)) (y x : Z) : Q :=
  let h := Z.of_nat (length img) in
  let w := Z.of_nat (length (hd [] img)) in
  let rx := (Z.of_nat (length kx) / 2)%Z in
  let ry := (Z.of_nat (length ky) / 2)%Z in
  sumQ (map (fun '(j, cy) =>
    sumQ (map (fun '(i, cx) =>
      cy * cx * pixel img (borderInterpolate (y + j - ry) h)
                          (borderInterpolate (x + i - rx) w))
      (taps kx)))
    (taps ky)).

Definition sepFilter2D (kx ky : list Q) (img : list (list Q)) : list (list Q) :=
  map (fun y => map (fun x => filter_at kx ky img (Z.of_nat y) (Z.of_nat x))
                    (seq 0 (length (hd [] img))))
      (seq 0 (length img)).

(** [cv2.GaussianBlur(src, (kw, kh), 0)]: the image must not be empty and
    the sizes must be odd and positive. *)
Definition GaussianBlur {Ext : External} (src : list (list Q)) (kw kh : Z)
  : outcome (list (list Q)) :=
  if (Nat.eqb (length src) 0 || Nat.eqb (length (hd [] src)) 0)%bool
  then Raises Cv2Error
  else if ((0 <? kw) && Z.odd kw && (0 <? kh) && Z.odd kh)%Z
  then Ok (sepFilter2D (getGaussianKernel kw) (getGaussianKernel kh) src)
  else Raises Cv2Error.

End Cv2.

(* ================================================================== *)
(** ** Shapes *)
(* ================================================================== *)

Definition heatmap : Type := list (list Q).
Definition batch : Type := list (list heatmap).
Definition points : Type := list (list (Q * Q)).

(** A channel of H rows and W columns. *)
Definition rect (H W : nat) (hm : heatmap) : Prop :=
  length hm = H /\ Forall (fun row => length row = W) hm.

(** A batch of shape (N, K, H, W). *)
Definition has_shape (N K H W : nat) (b : batch) : Prop :=
  length b = N /\
  Forall (fun inst => length inst = K /\ Forall (rect H W) inst) b.

(** [heatmaps.shape], read off the first instance and its first channel. *)
Definition num_joints (b : batch) : nat := length (hd [] b).
Definition height (b : batch) : nat := length (hd [] (hd [] b)).
Definition width (b : batch) : nat := length (hd [] (hd [] (hd [] b))).

(** [a[n][k]]. *)
Definition cell {A : Type} (a : list (list A)) (n k : nat) : option A :=
  match nth_error a n with
  | Some row => nth_error row k
  | None => None
  end.

(** [a[n, k]] and [a[n, k] = v] as the program does them. *)
Definition channel_get (b : batch) (n k : Z) : outcome heatmap :=
  inst <- py_index b n ;; py_index inst k.

Definition list_set {A : Type} (l : list A) (i : nat) (v : A) : list A :=
  firstn i l ++ v :: skipn (S i) l.

Definition channel_set (b : batch) (n k : nat) (v : heatmap) : outcome batch :=
  match nth_error b n with
  | Some inst => if Nat.ltb k (length inst)
                 then Ok (list_set b n (list_set inst k v))
                 else Raises IndexError
  | None => Raises IndexError
  end.

Fixpoint foldM {A S : Type} (f : S -> A -> outcome S) (l : list A) (s : S)
  : outcome S :=
  match l with
  | [] => Ok s
  | a :: t => s' <- f s a ;; foldM f t s'
  end.

Definition indexed {A : Type} (l : list A) : list (Z * A) :=
  combine (map Z.of_nat (seq 0 (length l))) l.

(* ================================================================== *)
(** ** top_down_eval.py *)
(* ================================================================== *)

Module TopDownEval.

Section WithExternal.
Context {Ext : External}.

(** *** _calc_distances, _distance_acc *)

(** The values [np.linalg.norm(((preds - targets) / normalize[:, None, :])[mask],
    axis=-1)] selects: one per True of [mask], instance by instance. *)
Definition norm2 (a b : npfloat) : npfloat :=
  match a, b with
  | NaN, _ | _, NaN => NaN
  | Fin x, Fin y => Fin (np_sqrt (x * x + y * y))
  | _, _ => PosInf
  end.

Definition normalized_distance (p t nrm : Q * Q) : npfloat :=
  norm2 (np_true_divide (fst p - fst t) (fst nrm))
        (np_true_divide (snd p - snd t) (snd nrm)).

Definition masked_distances (preds targets : points) (mask : list (list bool))
    (normalize : list (Q * Q)) : list npfloat :=
  concat (map (fun '(p_row, t_row, m_row, nrm) =>
      concat (map (fun '(p, t, m) =>
                if (m : bool) then [normalized_distance p t nrm] else [])
              (combine (combine p_row t_row) m_row)))
    (combine (combine (combine preds targets) mask) normalize)).

(** [distances[mask.T] = values]: the True cells of the (K, N) array take the
    values one after the other, row by row.  There are as many values as
    True cells, both being counted in the one mask, so [hd] never meets an
    empty list. *)
Fixpoint put_row (ms : list bool) (values : list npfloat)
  : list npfloat * list npfloat :=
  match ms with
  | [] => ([], values)
  | m :: t =>
      if m
      then let '(row, rest) := put_row t (tl values) in
           (hd (Fin (-1)) values :: row, rest)
      else let '(row, rest) := put_row t values in
           (Fin (-1) :: row, rest)
  end.

Fixpoint put_rows (mask_T : list (list bool)) (values : list npfloat)
  : list (list npfloat) :=
  match mask_T with
  | [] => []
  | ms :: t => let '(row, rest) := put_row ms values in row :: put_rows t rest
  end.

(** [mask.T] for a mask of shape (N, K). *)
Definition transpose_mask (K : nat) (mask : list (list bool)) : list (list bool) :=
  map (fun k => map (fun m_row => nth k m_row false) mask) (seq 0 K).

Definition _calc_distances (preds targets : points) (mask : list (list bool))
    (normalize : list (Q * Q)) : list (list npfloat) :=
  let K := length (hd [] preds) in
  put_rows (transpose_mask K mask)
           (masked_distances preds targets mask normalize).

Definition _distance_acc (distances : list npfloat) (thr : Q) : Q :=
  let distance_valid := filter npfloat_ne_m1 distances in
  let num_distance_valid := length distance_valid in
  if Nat.ltb 0 num_distance_valid
  then inject_Z (Z.of_nat (length (filter (fun d => npfloat_ltb d thr)
                                          distance_valid)))
       / inject_Z (Z.of_nat num_distance_valid)
  else -1.

(** *** _get_max_preds *)

(** [preds = np.tile(idx, (1, 1, 2)).astype(np.float32)], then [% W] and
    [// W] on the float32 array: the index is rounded to float32 before it
    is divided, and [W] is a float32 in both operations.  The remainder of
    two floats is exact; the quotient is stored as a float32.  With indices
    and [W] up to 2^24 nothing is rounded. *)
Definition index_to_xy (W : Z) (idx : nat) : Q * Q :=
  let f := np_float32 (Z.of_nat idx) in
  let w := np_float32 W in
  (inject_Z (f mod w), inject_Z (np_float32 (f / w))).

(** One (instance, channel): the flattened argmax turned into (x, y), the
    maximum, and the [np.where] that writes -1 where the maximum is not
    positive. *)
Definition max_pred (W : Z) (hm : heatmap) : outcome ((Q * Q) * Q) :=
  let heatmaps_reshaped := concat hm in
  idx <- np_argmax heatmaps_reshaped ;;
  maxval <- np_amax heatmaps_reshaped ;;
  Ok (if Qltb 0 maxval then index_to_xy W idx else (-1, -1), maxval).

(** [heatmaps.reshape((N, K, -1))] cannot place the -1 when N * K = 0. *)
Definition reshape_rows (heatmaps : batch) : outcome unit :=
  if Nat.eqb (length heatmaps * num_joints heatmaps) 0
  then Raises ValueError
  else Ok tt.

Definition _get_max_preds (heatmaps : batch) : outcome (points * list (list Q)) :=
  let W := Z.of_nat (width heatmaps) in
  _ <- reshape_rows heatmaps ;;
  r <- mapM (mapM (max_pred W)) heatmaps ;;
  Ok (map (map fst) r, map (map snd) r).

(** *** keypoint_pck_accuracy, keypoint_epe *)

Definition np_mean (l : list Q) : Q :=
  sumQ l / inject_Z (Z.of_nat (length l)).

Definition keypoint_pck_accuracy (pred gt : points) (mask : list (list bool))
    (thr : Q) (normalize : list (Q * Q)) : list Q * Q * nat :=
  let distances := _calc_distances pred gt mask normalize in
  let acc := map (fun d => _distance_acc d thr) distances in
  let valid_acc := filter (fun a => Qle_bool 0 a) acc in
  let cnt := length valid_acc in
  let avg_acc := if Nat.ltb 0 cnt then np_mean valid_acc else 0 in
  (acc, avg_acc, cnt).

Definition keypoint_epe (pred gt : points) (mask : list (list bool)) : npfloat :=
  let distances :=
    _calc_distances pred gt mask (repeat (1, 1) (length pred)) in
  let distance_valid := filter npfloat_ne_m1 (concat distances) in
  let valid_num := length distance_valid in
  npfloat_div_count (fold_left npfloat_add distance_valid (Fin 0)) valid_num.

(** *** pose_pck_accuracy, keypoint_auc *)

(** [N, K, H, W = output.shape] is read off the first instance, so the batch
    is taken to hold one.  The first component of the result is [None] when
    K is 0; [normalize=None] selects the default [[H, W]] / 10 for every
    instance. *)
Definition pose_pck_accuracy (output target : batch) (mask : list (list bool))
    (thr : Q) (normalize : option (list (Q * Q)))
  : outcome (option (list Q) * Q * nat) :=
  let N := length output in
  let K := num_joints output in
  let H := height output in
  let W := width output in
  if Nat.eqb K 0 then Ok (None, 0, 0%nat)
  else
    let normalize :=
      match normalize with
      | Some nrm => nrm
      | None =>
          repeat (inject_Z (Z.of_nat H) / 10, inject_Z (Z.of_nat W) / 10) N
      end in
    '(pred, _) <- _get_max_preds output ;;
    '(gt, _) <- _get_max_preds target ;;
    let '(acc, avg_acc, cnt) :=
      keypoint_pck_accuracy pred gt mask thr normalize in
    Ok (Some acc, avg_acc, cnt).

(** [x] holds the thresholds i / num_step, [y] the averaged accuracy at each
    of them; [y[i]] is read with a default, [y] having num_step entries. *)
Definition keypoint_auc (pred gt : points) (mask : list (list bool))
    (normalize : Q) (num_step : Z) : Q :=
  let nor := repeat (normalize, normalize) (length pred) in
  let range_num_step := seq 0 (Z.to_nat num_step) in
  let x := map (fun i => 1 * inject_Z (Z.of_nat i) / inject_Z num_step)
               range_num_step in
  let y := map (fun thr =>
                  snd (fst (keypoint_pck_accuracy pred gt mask thr nor))) x in
  fold_left (fun auc i => auc + 1 / inject_Z num_step * nth i y 0)
            range_num_step 0.

(** *** _taylor *)

(** The differences are taken at their exact values.  The test
    [dxx * dyy - dxy**2 != 0] is a test on floats: the product, the square
    and the difference are each rounded ([fl]), so the value tested can be 0
    where the exact determinant is not.  The inverse is LAPACK's
    ([np_linalg_inv]), which has a test of its own. *)
Definition _taylor (heatmap : heatmap) (coord : Q * Q) : outcome (Q * Q) :=
  let H := Z.of_nat (length heatmap) in
  let W := Z.of_nat (length (hd [] heatmap)) in
  let px := py_int (fst coord) in
  let py := py_int (snd coord) in
  if ((1 <? px) && (px <? W - 2) && (1 <? py) && (py <? H - 2))%Z
  then
    x1 <- py_index2 heatmap py (px + 1) ;;
    x1_ <- py_index2 heatmap py (px - 1) ;;
    let dx := (1#2) * (x1 - x1_) in
    y1 <- py_index2 heatmap (py + 1) px ;;
    y1_ <- py_index2 heatmap (py - 1) px ;;
    let dy := (1#2) * (y1 - y1_) in
    x2 <- py_index2 heatmap py (px + 2) ;;
    c <- py_index2 heatmap py px ;;
    x2_ <- py_index2 heatmap py (px - 2) ;;
    let dxx := (1#4) * (x2 - 2 * c + x2_) in
    x1y1 <- py_index2 heatmap (py + 1) (px + 1) ;;
    x1y1_ <- py_index2 heatmap (py - 1) (px + 1) ;;
    x1_y1 <- py_index2 heatmap (py + 1) (px - 1) ;;
    x1_y1_ <- py_index2 heatmap (py - 1) (px - 1) ;;
    let dxy := (1#4) * (x1y1 - x1y1_ - x1_y1 + x1_y1_) in
    y2 <- py_index2 heatmap (py + 2 * 1) px ;;
    c' <- py_index2 heatmap py px ;;
    y2_ <- py_index2 heatmap (py - 2 * 1) px ;;
    let dyy := (1#4) * (y2 - 2 * c' + y2_) in
    if negb (Qeq_bool (fl (fl (dxx * dyy) - fl (dxy ^ 2))) 0)
    then
      '(i00, i01, i10, i11) <- np_linalg_inv dxx dxy dxy dyy ;;
      let offset := (- i00 * dx + - i01 * dy, - i10 * dx + - i11 * dy) in
      Ok (fst coord + fst offset, snd coord + snd offset)
    else Ok coord
  else Ok coord.

(** *** post_dark *)

(** The first loop nest: for every i and j it blurs channel j of instance 0
    and writes it back into the array it was given. *)
Definition blur_loop (N K : nat) (batch_heatmaps : batch) : outcome batch :=
  foldM (fun b (_ : nat) =>
    foldM (fun b j =>
      mapij <- channel_get b 0 (Z.of_nat j) ;;
      mapij' <- Cv2.GaussianBlur mapij 3 3 ;;
      channel_set b 0 j mapij')
      (seq 0 K) b)
    (seq 0 N) batch_heatmaps.

Definition np_clip (lo hi v : Q) : Q :=
  if Qltb v lo then lo else if Qltb hi v then hi else v.

(** [batch_heatmaps_pad] for one channel: the channel framed by a copy of
    its border. *)
Definition pad_edge (hm : heatmap) : heatmap :=
  let rows := map (fun r => hd 0 r :: r ++ [last r 0]) hm in
  hd [] rows :: rows ++ [last rows []].

(** The seven samples of the second loop nest, all taken in instance 0. *)
Definition dark_samples (pad : batch) (j : Z) (c : Z * Z)
  : outcome (Q * Q * Q * Q * Q * Q * Q) :=
  let '(cx, cy) := c in
  ch <- channel_get pad 0 j ;;
  i_ <- py_index2 ch (cy + 1) (cx + 1) ;;
  ix1 <- py_index2 ch (cy + 1) (cx + 2) ;;
  ix1_ <- py_index2 ch (cy + 1) cx ;;
  iy1 <- py_index2 ch (cy + 2) (cx + 1) ;;
  iy1_ <- py_index2 ch cy (cx + 1) ;;
  ix1y1 <- py_index2 ch (cy + 2) (cx + 2) ;;
  ix1_y1_ <- py_index2 ch cy cx ;;
  Ok (i_, ix1, ix1_, iy1, iy1_, ix1y1, ix1_y1_).

Definition dark_derivative (s : Q * Q * Q * Q * Q * Q * Q) : Q * Q :=
  let '(i_, ix1, ix1_, iy1, iy1_, ix1y1, ix1_y1_) := s in
  ((1#2) * (ix1 - ix1_), (1#2) * (iy1 - iy1_)).

Definition dark_hessian (s : Q * Q * Q * Q * Q * Q * Q) : Q * Q * Q :=
  let '(i_, ix1, ix1_, iy1, iy1_, ix1y1, ix1_y1_) := s in
  (ix1 - 2 * i_ + ix1_,
   (1#2) * (ix1y1 - ix1 - iy1 + i_ + i_ - ix1_ - iy1_ + ix1_y1_),
   iy1 - 2 * i_ + iy1_).

Definition dark_inv_hessian (h : Q * Q * Q) : outcome (Q * Q * Q * Q) :=
  let '(dxx, dxy, dyy) := h in
  np_linalg_inv2 (dxx + (1#100000000)) dxy dxy (dyy + (1#100000000)).

Definition dark_shift (c : Z * Z) (inv : Q * Q * Q * Q) (d : Q * Q) : Q * Q :=
  let '(i00, i01, i10, i11) := inv in
  (inject_Z (fst c) - (i00 * fst d + i01 * snd d),
   inject_Z (snd c) - (i10 * fst d + i11 * snd d)).

Definition post_dark (coords : points) (batch_heatmaps : batch)
  : outcome (points * batch) :=
  let N := length batch_heatmaps in
  let K := num_joints batch_heatmaps in
  blurred <- blur_loop N K batch_heatmaps ;;
  let logged :=
    map (map (map (map (fun v => np_log (np_clip (1#1000) 50 v))))) blurred in
  let batch_heatmaps_pad := map (map pad_edge) logged in
  let icoords := map (map (fun c => (py_int (fst c), py_int (snd c)))) coords in
  samples <- mapM (fun row => mapM (fun '(j, c) =>
                     dark_samples batch_heatmaps_pad j c) (indexed row))
                  icoords ;;
  inv_hessian <- mapM (mapM (fun s => dark_inv_hessian (dark_hessian s)))
                      samples ;;
  let refined :=
    map (fun '(c_row, i_row, s_row) =>
           map (fun '(c, inv, s) => dark_shift c inv (dark_derivative s))
               (combine (combine c_row i_row) s_row))
        (combine (combine icoords inv_hessian) samples) in
  Ok (refined, blurred).

(** *** _gaussian_blur *)

(** [heatmaps[i, j] = src]: the source must have the shape of the slot. *)
Definition assign_channel (height width : nat) (src : heatmap) : outcome heatmap :=
  if (Nat.eqb (length src) height
      && forallb (fun row => Nat.eqb (length row) width) src)%bool
  then Ok src
  else Raises ValueError.

(** The body of the loop nest for one (i, j). *)
Definition blur_channel (kernel border : Z) (height width : nat) (hm : heatmap)
  : outcome heatmap :=
  origin_max <- np_amax (concat hm) ;;
  let dr_h := (Z.of_nat height + 2 * border)%Z in
  let dr_w := (Z.of_nat width + 2 * border)%Z in
  _ <- (if ((dr_h <? 0) || (dr_w <? 0))%Z then Raises ValueError else Ok tt) ;;
  let dr := np_zeros2 (Z.to_nat dr_h) (Z.to_nat dr_w) in
  dr <- py_slice2_assign dr border (- border) hm ;;
  dr <- Cv2.GaussianBlur dr kernel kernel ;;
  blurred <- assign_channel height width (py_slice2 dr border (- border)) ;;
  new_max <- np_amax (concat blurred) ;;
  if Qeq_bool new_max 0 then NonFinite
  else Ok (map (map (fun v => v * (origin_max / new_max))) blurred).

(** The returned array is the one it was given, now holding the modulated
    channels. *)
Definition _gaussian_blur (heatmaps : batch) (kernel : Z) : outcome batch :=
  _ <- py_assert (kernel mod 2 =? 1)%Z ;;
  let border := ((kernel - 1) / 2)%Z in
  let height := height heatmaps in
  let width := width heatmaps in
  mapM (mapM (blur_channel kernel border height width)) heatmaps.

(** *** keypoints_from_heatmaps *)

(** What a call leaves behind: the two returned arrays and the contents of
    the [heatmaps] array of the caller. *)
Record decoded : Type := {
  preds : points;
  maxvals : list (list Q);
  heatmaps_after : batch
}.

(** The +/-0.25 shift of one keypoint. *)
Definition shift_pred (W H : Z) (heatmap : heatmap) (p : Q * Q) : outcome (Q * Q) :=
  let px := py_int (fst p) in
  let py := py_int (snd p) in
  if ((1 <? px) && (px <? W - 1) && (1 <? py) && (py <? H - 1))%Z
  then
    a <- py_index2 heatmap py (px + 1) ;;
    b <- py_index2 heatmap py (px - 1) ;;
    c <- py_index2 heatmap (py + 1) px ;;
    d <- py_index2 heatmap (py - 1) px ;;
    Ok (fst p + np_sign (a - b) * (1#4), snd p + np_sign (c - d) * (1#4))
  else Ok p.

(** [for n in range(N): for k in range(K): preds[n][k] = f(heatmaps[n][k],
    preds[n][k])]. *)
Definition refine_each (f : heatmap -> Q * Q -> outcome (Q * Q))
    (heatmaps : batch) (preds : points) : outcome points :=
  mapM (fun '(h_row, p_row) => mapM (fun '(h, p) => f h p) (combine h_row p_row))
       (combine heatmaps preds).

(** The last loop: back to the image, instance by instance. *)
Definition transform_back (W H : Z) (use_udp : bool) (preds : points)
    (center scale : list (Q * Q)) : outcome points :=
  mapM (fun '(i, p) =>
          c <- py_index center i ;;
          s <- py_index scale i ;;
          Ok (transform_preds p c s (W, H) use_udp))
       (indexed preds).

(** The three arrays of the CombinedTarget branch for one instance, each
    channel blurred in the order of the loop. *)
Definition combined_instance (kernel : Z) (hm ox oy : list heatmap)
  : outcome (list (heatmap * heatmap * heatmap)) :=
  mapM (fun j =>
          h <- py_index hm j ;;
          h' <- Cv2.GaussianBlur h (2 * kernel + 1) (2 * kernel + 1) ;;
          x <- py_index ox j ;;
          x' <- Cv2.GaussianBlur x kernel kernel ;;
          y <- py_index oy j ;;
          y' <- Cv2.GaussianBlur y kernel kernel ;;
          Ok (h', x', y'))
       (map Z.of_nat (seq 0 (length hm))).

Definition add_offset (t : heatmap * heatmap * heatmap) (c : Q * Q)
  : outcome (Q * Q) :=
  let '(_, offset_x, offset_y) := t in
  let px := py_int (fst c) in
  let py := py_int (snd c) in
  dx <- py_index2 offset_x py px ;;
  dy <- py_index2 offset_y py px ;;
  Ok (fst c + dx, snd c + dy).

Definition keypoints_from_heatmaps (heatmaps : batch) (center scale : list (Q * Q))
    (post_process unbiased : bool) (kernel : Z) (kpd : Q) (use_udp : bool)
    (target_type : String.string) : outcome decoded :=
  let N := length heatmaps in
  let K := num_joints heatmaps in
  let H := Z.of_nat (height heatmaps) in
  let W := Z.of_nat (width heatmaps) in
  let finish (p : points) (m : list (list Q)) (after : batch) :=
    p' <- transform_back W H use_udp p center scale ;;
    Ok {| preds := p'; maxvals := m; heatmaps_after := after |} in
  if use_udp then
    if String.eqb target_type "GaussianHeatMap"%string then
      '(coords, maxvals) <- _get_max_preds heatmaps ;;
      if post_process
      then '(coords, after) <- post_dark coords heatmaps ;;
           finish coords maxvals after
      else finish coords maxvals heatmaps
    else if String.eqb target_type "CombinedTarget"%string then
      let net_output := heatmaps in
      let kps_pos_distance_x := kpd / 64 * inject_Z H in
      let kps_pos_distance_y := kpd / 64 * inject_Z H in
      let hm := map (every_third 0) net_output in
      let offset_x :=
        map (fun inst => map (map (map (fun v => v * kps_pos_distance_x)))
                             (every_third 1 inst)) net_output in
      let offset_y :=
        map (fun inst => map (map (map (fun v => v * kps_pos_distance_y)))
                             (every_third 2 inst)) net_output in
      blurred <- mapM (fun '(h, x, y) => combined_instance kernel h x y)
                      (combine (combine hm offset_x) offset_y) ;;
      '(coords, maxvals) <-
         _get_max_preds (map (map (fun t => fst (fst t))) blurred) ;;
      coords <- mapM (fun '(t_row, c_row) =>
                        mapM (fun '(t, c) => add_offset t c)
                             (combine t_row c_row))
                     (combine blurred coords) ;;
      finish coords maxvals heatmaps
    else Raises AssertionError
  else
    '(preds, maxvals) <- _get_max_preds heatmaps ;;
    if post_process then
      if unbiased then
        _ <- py_assert (0 <? kernel)%Z ;;
        modulated <- _gaussian_blur heatmaps kernel ;;
        let logged :=
          map (map (map (map (fun v =>
            np_log (if Qltb v (1#10000000000) then 1#10000000000 else v)))))
              modulated in
        preds <- refine_each _taylor logged preds ;;
        finish preds maxvals modulated
      else
        preds <- refine_each (shift_pred W H) heatmaps preds ;;
        finish preds maxvals heatmaps
    else finish preds maxvals heatmaps.

End WithExternal.

End TopDownEval.

(* ================================================================== *)
(** ** codecs/megvii_heatmap.py *)
(* ================================================================== *)

Module Megvii.

Section WithExternal.
Context {Ext : External}.

(** What [self.kernel_size] may hold: the annotation of [__init__] says an
    [int], its docstring a pair [ks_x, ks_y]. *)
Inductive ksize : Type :=
| KInt (k : Z)
| KPair (ks_x ks_y : Z).

Record MegviiHeatmap : Type := {
  input_size : Z * Z;
  heatmap_size : Z * Z;
  kernel_size : ksize
}.

(** [cv2.GaussianBlur(src, ksize, 0)] as Python calls it: [ksize] has to be
    a pair. *)
Definition cv2_GaussianBlur (src : heatmap) (k : ksize) : outcome heatmap :=
  match k with
  | KPair ks_x ks_y => Cv2.GaussianBlur src ks_x ks_y
  | KInt _ => Raises Cv2Error
  end.

(** Modelled from the spec: [gaussian_blur] of [codecs/utils] is not among
    the source files.  Section 4.3: every 2-D heatmap is padded by
    (kernel-1)/2, blurred with the odd kernel size and rescaled to its former
    peak; an even kernel fails the precondition.  The kernel is a number
    there, so a pair is a type error at [kernel % 2]. *)
Definition gaussian_blur (heatmaps : list heatmap) (kernel : ksize)
  : outcome (list heatmap) :=
  match kernel with
  | KInt k =>
      _ <- py_assert (k mod 2 =? 1)%Z ;;
      let border := ((k - 1) / 2)%Z in
      let H := length (hd [] heatmaps) in
      let W := length (hd [] (hd [] heatmaps)) in
      mapM (TopDownEval.blur_channel k border H W) heatmaps
  | KPair _ _ => Raises TypeError
  end.

(** Modelled from the spec: [get_heatmap_maximum] of [codecs/utils] is not
    among the source files.  Section 4.1: for each channel the flattened
    argmax as (x, y) = (idx mod W, idx div W) and the maximum; (-1, -1) where
    the maximum is not positive.  [channel_maximum] is one channel of it. *)
Definition channel_maximum (W : Z) (hm : heatmap) : outcome ((Q * Q) * Q) :=
  let flat := concat hm in
  idx <- np_argmax flat ;;
  maxval <- np_amax flat ;;
  let x := inject_Z (Z.of_nat idx mod W) in
  let y := inject_Z (Z.of_nat idx / W) in
  Ok (if Qltb 0 maxval then (x, y) else (-1, -1), maxval).

Definition get_heatmap_maximum (heatmaps : list heatmap)
  : outcome (list (Q * Q) * list Q) :=
  let W := Z.of_nat (length (hd [] (hd [] heatmaps))) in
  r <- mapM (channel_maximum W) heatmaps ;;
  Ok (map fst r, map snd r).

(** [feat_stride = input_size / [W, H]] and [keypoints[0, k] / feat_stride]. *)
Definition div_or_nonfinite (x y : Q) : outcome Q :=
  if Qeq_bool y 0 then NonFinite else Ok (x / y).

(** One turn of the loop of [encode]: channel k and its weight. *)
Definition encode_channel (self : MegviiHeatmap) (feat_stride : Q * Q)
    (visible : Q) (keypoint : Q * Q) : outcome (heatmap * Q) :=
  let '(W, H) := heatmap_size self in
  let zeros := np_zeros2 (Z.to_nat H) (Z.to_nat W) in
  if Qltb visible (1#2) then Ok (zeros, 0)
  else
    fx <- div_or_nonfinite (fst keypoint) (fst feat_stride) ;;
    fy <- div_or_nonfinite (snd keypoint) (snd feat_stride) ;;
    let kx := py_int fx in
    let ky := py_int fy in
    if ((kx <? 0) || (W <=? kx) || (ky <? 0) || (H <=? ky))%Z
    then Ok (zeros, 0)
    else
      let row := nth (Z.to_nat ky) zeros [] in
      let one_hot :=
        list_set zeros (Z.to_nat ky) (list_set row (Z.to_nat kx) 1) in
      blurred <- cv2_GaussianBlur one_hot (kernel_size self) ;;
      peak <- py_index2 blurred ky kx ;;
      if Qeq_bool peak 0 then NonFinite
      else Ok (map (map (fun v => v / peak * 255)) blurred, 1).

Definition encode (self : MegviiHeatmap) (keypoints : points)
    (keypoints_visible : list (list Q)) : outcome (list heatmap * list Q) :=
  let N := length keypoints in
  let K := length (hd [] keypoints) in
  let '(W, H) := heatmap_size self in
  _ <- py_assert (Nat.eqb N 1) ;;
  sx <- div_or_nonfinite (inject_Z (fst (input_size self))) (inject_Z W) ;;
  sy <- div_or_nonfinite (inject_Z (snd (input_size self))) (inject_Z H) ;;
  _ <- (if ((H <? 0) || (W <? 0))%Z then Raises ValueError else Ok tt) ;;
  r <- mapM (fun k =>
               visible <- (row <- py_index keypoints_visible 0 ;; py_index row k) ;;
               keypoint <- (row <- py_index keypoints 0 ;; py_index row k) ;;
               encode_channel self (sx, sy) visible keypoint)
            (map Z.of_nat (seq 0 K)) ;;
  Ok (map fst r, map snd r).

(** One turn of the loop of [decode]. *)
Definition decode_shift (W H : Z) (heatmap : heatmap) (p : Q * Q) : outcome (Q * Q) :=
  let px := py_int (fst p) in
  let py := py_int (snd p) in
  if ((1 <? px) && (px <? W - 1) && (1 <? py) && (py <? H - 1))%Z
  then
    a <- py_index2 heatmap py (px + 1) ;;
    b <- py_index2 heatmap py (px - 1) ;;
    c <- py_index2 heatmap (py + 1) px ;;
    d <- py_index2 heatmap (py - 1) px ;;
    Ok (fst p + (np_sign (a - b) * (1#4) + (1#2)),
        snd p + (np_sign (c - d) * (1#4) + (1#2)))
  else Ok p.

Definition decode (self : MegviiHeatmap) (encoded : list heatmap)
  : outcome (ndarray * ndarray) :=
  heatmaps <- gaussian_blur encoded (kernel_size self) ;;
  let H := Z.of_nat (length (hd [] heatmaps)) in
  let W := Z.of_nat (length (hd [] (hd [] heatmaps))) in
  '(keypoints, scores) <- get_heatmap_maximum heatmaps ;;
  keypoints <- mapM (fun '(heatmap, p) => decode_shift W H heatmap p)
                    (combine heatmaps keypoints) ;;
  let scores := map (fun s => s / 255 + (1#2)) scores in
  let keypoints := add_axis (of_points keypoints) in
  let scores := add_axis keypoints in
  Ok (keypoints, scores).

(** The round trip of the codec: [decode(encode(keypoints)[0])]. *)
Definition encode_then_decode (self : MegviiHeatmap) (keypoints : points)
    (keypoints_visible : list (list Q)) : outcome (ndarray * ndarray) :=
  '(heatmaps, _) <- encode self keypoints keypoints_visible ;;
  decode self heatmaps.

End WithExternal.

End Megvii.

(* ================================================================== *)
(** ** Sample data *)
(* ================================================================== *)

Module Samples.

(** An environment to run examples in: OpenCV's fixed kernels only, the
    identity as window transform, no rounding and the exact inverse.  Its
    logarithm and square root are stand-ins: the theorems hold for every
    choice of these functions, and the concrete runs below either do not
    reach them or are stated on what does not depend on them. *)
Definition sample_external : External := {|
  np_log := fun q => q - 1;
  np_sqrt := fun q => q;
  computed_gaussian_kernel := fun _ => [];
  transform_preds := fun coords _ _ _ _ => coords;
  fl := fun q => q;
  np_linalg_inv := np_linalg_inv2
|}.

(** A machine with binary64 arrays: every rounded result is the nearest
    binary64 number, and the inverse is what the elimination finds. *)
Definition binary64_external : External := {|
  np_log := fun q => q - 1;
  np_sqrt := fun q => q;
  computed_gaussian_kernel := fun _ => [];
  transform_preds := fun coords _ _ _ _ => coords;
  fl := Machine.round_to 53;
  np_linalg_inv := Machine.lu_inv2 (Machine.round_to 53)
|}.

(** Two 5 x 5 channels of binary64 numbers, to be refined at (2, 2).  In the
    first, dxx = 49, dxy = 1 and dyy is the binary64 number next to 1/49,
    5882252574524729 / 2^58.  In the second, dxx = 1 + 2^-30, dxy = 1 and
    dyy = 1 - 2^-30.  The determinant dxx * dyy - dxy^2 is -23 / 2^58 in the
    first and -1 / 2^60 in the second. *)
Definition ill_conditioned : heatmap :=
  [[0; 0; 0; 0; 0]; [0; 0; 0; 0; 0]; [0; 0; 0; 0; 196];
   [0; 0; 0; 4; 0]; [0; 0; 5882252574524729 # 72057594037927936; 0; 0]].

Definition cancelling : heatmap :=
  [[0; 0; 0; 0; 0]; [0; 0; 0; 0; 0];
   [0; 0; 0; 0; 1073741825 # 268435456];
   [0; 0; 0; 4; 0]; [0; 0; 1073741823 # 268435456; 0; 0]].

(** A 5 x 5 channel with a single 1 in the middle, and a channel of zeros. *)
Definition one_hot : heatmap :=
  [[0; 0; 0; 0; 0]; [0; 0; 0; 0; 0]; [0; 0; 1; 0; 0];
   [0; 0; 0; 0; 0]; [0; 0; 0; 0; 0]].

Definition all_zero : heatmap := [[0; 0; 0]; [0; 0; 0]; [0; 0; 0]].

(** A peak one pixel from the left border and its mirror image, a peak one
    pixel from the right border. *)
Definition near_left : heatmap :=
  [[0; 0; 0; 0; 0]; [0; 0; 0; 0; 0]; [2; 5; 1; 0; 0];
   [0; 0; 0; 0; 0]; [0; 0; 0; 0; 0]].

Definition near_right : heatmap :=
  [[0; 0; 0; 0; 0]; [0; 0; 0; 0; 0]; [0; 0; 1; 5; 2];
   [0; 0; 0; 0; 0]; [0; 0; 0; 0; 0]].

(** A log-space channel with cell (x, y) = x - (x-2)^2 - (y-2)^2. *)
Definition bowl : heatmap :=
  [[-8; -4; -2; -2; -4]; [-5; -1; 1; 1; -1]; [-4; 0; 2; 2; 0];
   [-5; -1; 1; 1; -1]; [-8; -4; -2; -2; -4]].

(** Predictions, ground truth, mask and normalisation of two instances with
    two keypoints each. *)
Definition pck_pred : points := [[(0, 0); (1, 1)]; [(2, 2); (5, 5)]].
Definition pck_gt : points := [[(0, 0); (3, 1)]; [(2, 3); (5, 5)]].
Definition pck_mask : list (list bool) := [[true; true]; [true; false]].
Definition pck_normalize : list (Q * Q) := [(1, 1); (2, 2)].
Definition no_mask : list (list bool) := [[false; false]; [false; false]].

(** A codec with a 20 x 20 input and a 5 x 5 heatmap, with the kernel size
    as a number and as a pair. *)
Definition codec_int : Megvii.MegviiHeatmap :=
  {| Megvii.input_size := (20%Z, 20%Z);
     Megvii.heatmap_size := (5%Z, 5%Z);
     Megvii.kernel_size := Megvii.KInt 3 |}.

Definition codec_pair : Megvii.MegviiHeatmap :=
  {| Megvii.input_size := (20%Z, 20%Z);
     Megvii.heatmap_size := (5%Z, 5%Z);
     Megvii.kernel_size := Megvii.KPair 3 3 |}.

(** Two batches of two instances that differ in instance 0 only: flat in
    [dark_A], a step from 0 to 1600 in [dark_B].  Instance 1 has its peak
    at (1, 1) in both. *)
Definition peak_1_1 : heatmap :=
  [[0; 0; 0; 0; 0; 0; 0]; [0; 1; 0; 0; 0; 0; 0]; [0; 0; 0; 0; 0; 0; 0]].

Definition flat_1600 : heatmap := repeat (repeat 1600 7) 3.

Definition step_1600 : heatmap := repeat [0; 0; 0; 1600; 1600; 1600; 1600] 3.

Definition dark_A : batch := [[flat_1600]; [peak_1_1]].
Definition dark_B : batch := [[step_1600]; [peak_1_1]].

(** A mask with every keypoint visible, for two instances of two
    keypoints. *)
Definition full_mask : list (list bool) := [[true; true]; [true; true]].

(** One instance of two keypoints: predictions, ground truth, visibility. *)
Definition one_pred : list (Q * Q) := [(0, 0); (1, 1)].
Definition one_gt : list (Q * Q) := [(0, 0); (3, 1)].
Definition one_mask : list bool := [true; false].

(** A batch of shape (1, 1, 1, 0), and one instance of three 5 x 5
    channels. *)
Definition no_columns : batch := [[[[]]]].
Definition three_channels : batch := [[one_hot; one_hot; one_hot]].

End Samples.

(* ================================================================== *)
(** ** Vocabulary of the specification *)
(* ================================================================== *)

Module Spec.

(** [idx] is the position numpy's argmax reports: the first one that holds
    the largest value. *)
Definition first_argmax (l : list Q) (idx : nat) : Prop :=
  (idx < length l)%nat /\
  (forall j, (j < length l)%nat -> nth j l 0 <= nth idx l 0) /\
  (forall j, (j < idx)%nat -> nth j l 0 < nth idx l 0).

(** The cell in row [y], column [x]. *)
Definition at_ (hm : heatmap) (y x : Z) : Q :=
  nth (Z.to_nat x) (nth (Z.to_nat y) hm []) 0.

(** How far a pixel is from each border of an H x W map. *)
Definition left_gap (px : Z) : Z := px.
Definition top_gap (py : Z) : Z := py.
Definition right_gap (W px : Z) : Z := (W - 1 - px)%Z.
Definition bottom_gap (H py : Z) : Z := (H - 1 - py)%Z.

(** The finite differences of the Taylor refinement. *)
Definition taylor_dx (hm : heatmap) (px py : Z) : Q :=
  (1#2) * (at_ hm py (px + 1) - at_ hm py (px - 1)).
Definition taylor_dy (hm : heatmap) (px py : Z) : Q :=
  (1#2) * (at_ hm (py + 1) px - at_ hm (py - 1) px).
Definition taylor_dxx (hm : heatmap) (px py : Z) : Q :=
  (1#4) * (at_ hm py (px + 2) - 2 * at_ hm py px + at_ hm py (px - 2)).
Definition taylor_dyy (hm : heatmap) (px py : Z) : Q :=
  (1#4) * (at_ hm (py + 2) px - 2 * at_ hm py px + at_ hm (py - 2) px).
Definition taylor_dxy (hm : heatmap) (px py : Z) : Q :=
  (1#4) * (at_ hm (py + 1) (px + 1) - at_ hm (py - 1) (px + 1)
           - at_ hm (py + 1) (px - 1) + at_ hm (py - 1) (px - 1)).

(** The finite-difference gradient of the shift refinement. *)
Definition shift_gx (hm : heatmap) (px py : Z) : Q :=
  at_ hm py (px + 1) - at_ hm py (px - 1).
Definition shift_gy (hm : heatmap) (px py : Z) : Q :=
  at_ hm (py + 1) px - at_ hm (py - 1) px.

(** Every cell of a channel is non-negative, and one is positive. *)
Definition nonneg_channel (hm : heatmap) : Prop :=
  Forall (Forall (fun v => 0 <= v)) hm.
Definition has_positive (hm : heatmap) : Prop :=
  Exists (Exists (fun v => 0 < v)) hm.

(** The cell [keypoint / feat_stride] of a keypoint lies inside the grid of
    the codec. *)
Definition in_grid (self : Megvii.MegviiHeatmap) (keypoint : Q * Q) : Prop :=
  let W := fst (Megvii.heatmap_size self) in
  let H := snd (Megvii.heatmap_size self) in
  let w := fst (Megvii.input_size self) in
  let h := snd (Megvii.input_size self) in
  (0 <= py_int (fst keypoint / (inject_Z w / inject_Z W)) < W)%Z /\
  (0 <= py_int (snd keypoint / (inject_Z h / inject_Z H)) < H)%Z.

(** A channel of width W framed by [b] rows and columns of zeros. *)
Definition zero_pad (b W : nat) (hm : heatmap) : heatmap :=
  repeat (repeat 0 (W + 2 * b)) b
  ++ map (fun row => repeat 0 b ++ row ++ repeat 0 b) hm
  ++ repeat (repeat 0 (W + 2 * b)) b.

(** What the blur needs of the kernel coefficients: none negative, the
    middle one positive. *)
Definition gaussian_like (k : list Q) : Prop :=
  Forall (fun c => 0 <= c) k /\ 0 < nth (length k / 2) k 0.

(** What the first loop nest of [post_dark] does, seen from instance 0
    alone: one turn for channel j, and all N * K turns. *)
Definition blur_first_step {Ext : External} (inst : list heatmap) (j : nat)
  : outcome (list heatmap) :=
  mapij <- py_index inst (Z.of_nat j) ;;
  mapij' <- Cv2.GaussianBlur mapij 3 3 ;;
  if Nat.ltb j (length inst) then Ok (list_set inst j mapij')
  else Raises IndexError.

Definition blur_first {Ext : External} (N K : nat) (inst : list heatmap)
  : outcome (list heatmap) :=
  foldM (fun i (_ : nat) => foldM blur_first_step (seq 0 K) i) (seq 0 N) inst.

(** The entries of a flat array at the True positions of a flat mask, in
    the order of the array, and the number of True positions. *)
Fixpoint select {A : Type} (ms : list bool) (l : list A) : list A :=
  match ms, l with
  | m :: ms', a :: l' => if m then a :: select ms' l' else select ms' l'
  | _, _ => []
  end.

Definition count_true (ms : list bool) : nat := length (filter (fun m => m) ms).

(** A mask or an array of points with N rows of K entries. *)
Definition table {A : Type} (N K : nat) (t : list (list A)) : Prop :=
  length t = N /\ Forall (fun row => length row = K) t.

(** Every channel of an instance blurred with the 3 x 3 kernel, [n] times
    over. *)
Fixpoint blur_times {Ext : External} (n : nat) (inst : list heatmap)
  : outcome (list heatmap) :=
  match n with
  | O => Ok inst
  | S n' => i <- mapM (fun ch => Cv2.GaussianBlur ch 3 3) inst ;;
            blur_times n' i
  end.

(** A coordinate pair that names a pixel of an H x W map. *)
Definition in_map (H W : nat) (p : Q * Q) : Prop :=
  exists x y : Z,
    p = (inject_Z x, inject_Z y) /\
    (0 <= x < Z.of_nat W)%Z /\ (0 <= y < Z.of_nat H)%Z.

(** One turn of the blur loop of the CombinedTarget branch, on channel j of
    the three arrays. *)
Definition combined_turn {Ext : External} (kernel : Z)
    (hm ox oy : list heatmap) (j : Z)
  : outcome (heatmap * heatmap * heatmap) :=
  h <- py_index hm j ;;
  h' <- Cv2.GaussianBlur h (2 * kernel + 1) (2 * kernel + 1) ;;
  x <- py_index ox j ;;
  x' <- Cv2.GaussianBlur x kernel kernel ;;
  y <- py_index oy j ;;
  y' <- Cv2.GaussianBlur y kernel kernel ;;
  Ok (h', x', y').

(** A blurred heatmap with its two blurred offset maps, all H x W. *)
Definition triple_rect (H W : nat) (t : heatmap * heatmap * heatmap) : Prop :=
  rect H W (fst (fst t)) /\ rect H W (snd (fst t)) /\ rect H W (snd t).

(** [feat_stride = input_size / [W, H]] of a codec, and the cell
    [(kx, ky) = (keypoint / feat_stride).astype(np.int64)] of a keypoint. *)
Definition feat_stride (self : Megvii.MegviiHeatmap) : Q * Q :=
  (inject_Z (fst (Megvii.input_size self))
   / inject_Z (fst (Megvii.heatmap_size self)),
   inject_Z (snd (Megvii.input_size self))
   / inject_Z (snd (Megvii.heatmap_size self))).

Definition grid_x (self : Megvii.MegviiHeatmap) (keypoint : Q * Q) : Z :=
  py_int (fst keypoint / fst (feat_stride self)).

Definition grid_y (self : Megvii.MegviiHeatmap) (keypoint : Q * Q) : Z :=
  py_int (snd keypoint / snd (feat_stride self)).

End Spec.

(* ================================================================== *)
(** * Proofs *)
(* ================================================================== *)

(** ** Generic facts *)

Lemma Qltb_true (a b : Q) : Qltb a b = true <-> a < b.
Proof.
  unfold Qltb. rewrite negb_true_iff.
  split; intro Hx.
  - apply Qnot_le_lt. intro Hle. apply Qle_bool_iff in Hle. congruence.
  - destruct (Qle_bool b a) eqn:E; [|reflexivity].
    apply Qle_bool_iff in E. exfalso. exact (Qlt_not_le _ _ Hx E).
Qed.

Lemma Qltb_false (a b : Q) : Qltb a b = false <-> b <= a.
Proof.
  unfold Qltb. rewrite negb_false_iff. apply Qle_bool_iff.
Qed.

Lemma bind_Ok {A B : Type} (m : outcome A) (f : A -> outcome B) (b : B) :
  bind m f = Ok b -> exists a, m = Ok a /\ f a = Ok b.
Proof.
  destruct m as [a| |]; simpl; intro Hb; try discriminate.
  exists a. split; [reflexivity | exact Hb].
Qed.

Lemma mapM_Ok {A B : Type} (f : A -> outcome B) (l : list A) :
  (forall a, In a l -> exists b, f a = Ok b) ->
  exists bs, mapM f l = Ok bs.
Proof.
  induction l as [|a t IH]; intro Hall.
  - exists []. reflexivity.
  - destruct (Hall a (or_introl eq_refl)) as [b Hb].
    destruct IH as [bs Hbs].
    + intros x Hx. apply Hall. right. exact Hx.
    + exists (b :: bs). simpl. rewrite Hb. simpl. rewrite Hbs. reflexivity.
Qed.

Lemma mapM_nth {A B : Type} (f : A -> outcome B) (l : list A) (bs : list B) :
  mapM f l = Ok bs ->
  length bs = length l /\
  forall i a, nth_error l i = Some a ->
    exists b, nth_error bs i = Some b /\ f a = Ok b.
Proof.
  revert bs. induction l as [|a t IH]; intros bs Hm; simpl in Hm.
  - inversion Hm; subst. split; [reflexivity|].
    intros [|i] x Hx; discriminate.
  - apply bind_Ok in Hm. destruct Hm as [b [Hb Hm]].
    apply bind_Ok in Hm. destruct Hm as [bs' [Hbs' Hm]].
    inversion Hm; subst. destruct (IH _ Hbs') as [Hlen Hnth].
    split; [simpl; congruence|].
    intros [|i] x Hx; simpl in Hx.
    + inversion Hx; subst. exists b. split; [reflexivity | exact Hb].
    + simpl. apply Hnth. exact Hx.
Qed.

(** ** np.argmax and np.amax *)

Lemma argmax_scan_first (l pre : list Q) (bi : nat) (bv : Q) :
  (bi < length pre)%nat ->
  nth bi pre 0 = bv ->
  (forall j, (j < length pre)%nat -> nth j pre 0 <= bv) ->
  (forall j, (j < bi)%nat -> nth j pre 0 < bv) ->
  Spec.first_argmax (pre ++ l) (argmax_scan bi bv (length pre) l) /\
  nth (argmax_scan bi bv (length pre) l) (pre ++ l) 0 = max_scan bv l.
Proof.
  revert pre bi bv.
  induction l as [|v t IH]; intros pre bi bv Hbi Hval Hmax Hfirst; simpl.
  - rewrite app_nil_r. unfold max_scan. simpl.
    split; [|exact Hval].
    split; [exact Hbi|]. rewrite Hval. split; assumption.
  - assert (Hshift : pre ++ v :: t = (pre ++ [v]) ++ t)
      by (rewrite <- app_assoc; reflexivity).
    assert (Hlen : S (length pre) = length (pre ++ [v]))
      by (rewrite length_app; simpl; lia).
    unfold max_scan. simpl. fold (max_scan (if Qltb bv v then v else bv) t).
    rewrite Hshift, Hlen.
    destruct (Qltb bv v) eqn:E.
    + apply Qltb_true in E.
      apply IH.
      * rewrite <- Hlen. lia.
      * rewrite app_nth2 by lia. rewrite Nat.sub_diag. reflexivity.
      * intros j Hj. rewrite <- Hlen in Hj.
        destruct (Nat.eq_dec j (length pre)) as [->|Hne].
        -- rewrite app_nth2 by lia. rewrite Nat.sub_diag. simpl. apply Qle_refl.
        -- rewrite app_nth1 by lia.
           apply Qle_trans with bv; [apply Hmax; lia | apply Qlt_le_weak; exact E].
      * intros j Hj. rewrite app_nth1 by lia.
        apply Qle_lt_trans with bv; [apply Hmax; lia | exact E].
    + apply Qltb_false in E.
      apply IH.
      * rewrite <- Hlen. lia.
      * rewrite app_nth1 by lia. exact Hval.
      * intros j Hj. rewrite <- Hlen in Hj.
        destruct (Nat.eq_dec j (length pre)) as [->|Hne].
        -- rewrite app_nth2 by lia. rewrite Nat.sub_diag. simpl. exact E.
        -- rewrite app_nth1 by lia. apply Hmax. lia.
      * intros j Hj. rewrite app_nth1 by lia. apply Hfirst. exact Hj.
Qed.

Lemma np_argmax_amax (l : list Q) :
  l <> [] ->
  exists idx, np_argmax l = Ok idx /\ np_amax l = Ok (nth idx l 0) /\
              Spec.first_argmax l idx.
Proof.
  destruct l as [|v t]; [congruence|]. intros _.
  destruct (argmax_scan_first t [v] 0 v) as [Hfirst Hval].
  - simpl. lia.
  - reflexivity.
  - intros [|j] Hj; simpl in *; [apply Qle_refl | lia].
  - intros j Hj. lia.
  - simpl in *. exists (argmax_scan 0 v 1 t).
    split; [reflexivity|]. split; [|exact Hfirst].
    rewrite Hval. reflexivity.
Qed.

(** ** _get_max_preds *)

Lemma rect_concat_nonempty (H W : nat) (hm : heatmap) :
  rect H W hm -> (0 < H)%nat -> (0 < W)%nat -> concat hm <> [].
Proof.
  intros [Hlen Hrows] HH HW.
  destruct hm as [|r rest]; [simpl in Hlen; lia|].
  inversion Hrows as [|? ? Hr _].
  destruct r as [|a r']; [simpl in Hr; lia|].
  simpl. discriminate.
Qed.

Lemma has_shape_cell (N K H W : nat) (b : batch) (n k : nat) (hm : heatmap) :
  has_shape N K H W b -> cell b n k = Some hm -> rect H W hm.
Proof.
  intros [_ Hall] Hcell. unfold cell in Hcell.
  destruct (nth_error b n) as [inst|] eqn:En; [|discriminate].
  apply nth_error_In in En. apply nth_error_In in Hcell.
  rewrite Forall_forall in Hall. destruct (Hall _ En) as [_ Hch].
  rewrite Forall_forall in Hch. apply Hch. exact Hcell.
Qed.

Lemma has_shape_width (N K H W : nat) (b : batch) (n k : nat) (hm : heatmap) :
  has_shape N K H W b -> (0 < H)%nat -> cell b n k = Some hm ->
  width b = W /\ height b = H /\ num_joints b = K.
Proof.
  intros [_ Hall] HH Hcell. unfold cell in Hcell.
  destruct (nth_error b n) as [inst|] eqn:En; [|discriminate].
  assert (HK : (k < K)%nat).
  { apply nth_error_In in En. rewrite Forall_forall in Hall.
    destruct (Hall _ En) as [HlenK _]. rewrite <- HlenK.
    apply nth_error_Some. congruence. }
  destruct b as [|i0 b']; [destruct n; discriminate|].
  inversion Hall as [|? ? [Hlen0 Hch0] _].
  destruct i0 as [|c0 i0']; [simpl in Hlen0; lia|].
  inversion Hch0 as [|? ? [HlenH Hrows] _].
  destruct c0 as [|r0 c0']; [simpl in HlenH; lia|].
  inversion Hrows as [|? ? Hr0 _].
  unfold width, height, num_joints. simpl. auto.
Qed.

Lemma reshape_rows_Ok (N K H W : nat) (b : batch) :
  has_shape N K H W b -> (0 < N)%nat -> (0 < K)%nat ->
  TopDownEval.reshape_rows b = Ok tt.
Proof.
  intros [Hlen Hall] HN HK. unfold TopDownEval.reshape_rows, num_joints.
  destruct b as [|i0 rest]; [simpl in Hlen; lia|].
  inversion Hall as [|? ? [Hlen0 _] _].
  cbn [hd]. rewrite Hlen0, Hlen.
  replace (Nat.eqb (N * K) 0) with false; [reflexivity|].
  symmetry. apply Nat.eqb_neq. nia.
Qed.

(** The float32 cast keeps the integers up to 2^24. *)
Lemma np_float32_small (z : Z) :
  (0 <= z <= 16777216)%Z -> np_float32 z = z.
Proof.
  intros [Hlo Hhi]. unfold np_float32.
  destruct (Z.eq_dec z 16777216) as [-> | Hne]; [reflexivity|].
  rewrite Z.abs_eq by lia.
  replace (Z.log2 z <? 24)%Z with true; [reflexivity|].
  symmetry. apply Z.ltb_lt.
  destruct (Z.eq_dec z 0) as [-> | Hz]; [reflexivity|].
  apply Z.log2_lt_pow2; [lia|].
  change (2 ^ 24)%Z with 16777216%Z. lia.
Qed.

(** With a width and an index that a float32 holds, lines 78 to 80 compute
    the exact remainder and quotient. *)
Lemma index_to_xy_exact (W : Z) (idx : nat) :
  (0 < W <= 16777216)%Z -> (Z.of_nat idx < 16777216)%Z ->
  TopDownEval.index_to_xy W idx
  = (inject_Z (Z.of_nat idx mod W), inject_Z (Z.of_nat idx / W)).
Proof.
  intros HW Hidx. unfold TopDownEval.index_to_xy.
  rewrite (np_float32_small (Z.of_nat idx)), (np_float32_small W) by lia.
  rewrite np_float32_small; [reflexivity|].
  split; [apply Z.div_pos; lia|].
  assert (Z.of_nat idx / W <= Z.of_nat idx)%Z
    by (apply Z.div_le_upper_bound; nia).
  lia.
Qed.

Lemma rect_concat_length (H W : nat) (hm : heatmap) :
  rect H W hm -> length (concat hm) = (H * W)%nat.
Proof.
  intros [Hl Hr]. subst H. induction Hr as [|r t Hrow _ IH]; [reflexivity|].
  cbn [concat length]. rewrite length_app, IH, Hrow. lia.
Qed.

Lemma max_pred_channel (Wz : Z) (hm : heatmap) :
  concat hm <> [] ->
  exists idx,
    Spec.first_argmax (concat hm) idx /\
    TopDownEval.max_pred Wz hm =
      Ok (if Qltb 0 (nth idx (concat hm) 0)
          then TopDownEval.index_to_xy Wz idx
          else (-1, -1),
          nth idx (concat hm) 0).
Proof.
  intro Hne.
  destruct (np_argmax_amax _ Hne) as [idx [Harg [Hmax Hfirst]]].
  exists idx. split; [exact Hfirst|].
  unfold TopDownEval.max_pred. rewrite Harg, Hmax. reflexivity.
Qed.

Lemma cell_map {A B : Type} (f : A -> B) (a : list (list A)) (n k : nat) :
  cell (map (map f) a) n k = option_map f (cell a n k).
Proof.
  unfold cell. rewrite nth_error_map.
  destruct (nth_error a n) as [row|]; simpl; [|reflexivity].
  apply nth_error_map.
Qed.

Lemma mapM2_cell {A B : Type} (f : A -> outcome B) (a : list (list A))
    (r : list (list B)) (n k : nat) (x : A) :
  mapM (mapM f) a = Ok r -> cell a n k = Some x ->
  exists y, cell r n k = Some y /\ f x = Ok y.
Proof.
  intros Hm Hcell. unfold cell in *.
  destruct (nth_error a n) as [row|] eqn:En; [|discriminate].
  destruct (mapM_nth _ _ _ Hm) as [_ Hrows].
  destruct (Hrows _ _ En) as [row' [En' Hrow']]. rewrite En'.
  destruct (mapM_nth _ _ _ Hrow') as [_ Hcells].
  exact (Hcells _ _ Hcell).
Qed.

(** What [_get_max_preds] returns, cell by cell. *)
Lemma get_max_preds_cells :
  forall (heatmaps : batch) (N K H W : nat),
    has_shape N K H W heatmaps ->
    (0 < N)%nat -> (0 < K)%nat -> (0 < H)%nat -> (0 < W)%nat ->
    exists preds maxvals,
      TopDownEval._get_max_preds heatmaps = Ok (preds, maxvals) /\
      forall n k hm, cell heatmaps n k = Some hm ->
        exists idx,
          Spec.first_argmax (concat hm) idx /\
          cell maxvals n k = Some (nth idx (concat hm) 0) /\
          (0 < nth idx (concat hm) 0 ->
             cell preds n k
             = Some (TopDownEval.index_to_xy (Z.of_nat W) idx)) /\
          (nth idx (concat hm) 0 <= 0 -> cell preds n k = Some (-1, -1)).
Proof.
  intros heatmaps N K H W Hshape HN HK HH HW.
  unfold TopDownEval._get_max_preds.
  rewrite (reshape_rows_Ok _ _ _ _ _ Hshape HN HK). cbv beta iota delta [bind].
  destruct (mapM_Ok (mapM (TopDownEval.max_pred (Z.of_nat (width heatmaps))))
                    heatmaps) as [r Hr].
  { intros inst Hinst. apply mapM_Ok. intros hm Hhm.
    destruct Hshape as [_ Hall]. rewrite Forall_forall in Hall.
    destruct (Hall _ Hinst) as [_ Hch]. rewrite Forall_forall in Hch.
    destruct (max_pred_channel (Z.of_nat (width heatmaps)) hm) as [idx [_ Hp]].
    - apply (rect_concat_nonempty H W); [apply Hch; exact Hhm | exact HH | exact HW].
    - eexists. exact Hp. }
  exists (map (map fst) r), (map (map snd) r).
  rewrite Hr. simpl. split; [reflexivity|].
  intros n k hm Hcell.
  destruct (has_shape_width _ _ _ _ _ _ _ _ Hshape HH Hcell) as [Hw _].
  destruct (mapM2_cell _ _ _ _ _ _ Hr Hcell) as [y [Hy Hfy]].
  destruct (max_pred_channel (Z.of_nat (width heatmaps)) hm) as [idx [Hfirst Hp]].
  { apply (rect_concat_nonempty H W);
      [eapply has_shape_cell; eauto | exact HH | exact HW]. }
  rewrite Hp in Hfy. inversion Hfy; subst y. clear Hfy.
  exists idx. split; [exact Hfirst|].
  rewrite !cell_map, Hy. simpl. rewrite Hw.
  split; [reflexivity|]. split; intro Hsign.
  - apply Qltb_true in Hsign. rewrite Hsign. reflexivity.
  - apply Qltb_false in Hsign. rewrite Hsign. reflexivity.
Qed.

(** The same with at most 2^24 cells in a channel: the coordinates are the
    exact remainder and quotient. *)
Lemma get_max_preds_cells_exact :
  forall (heatmaps : batch) (N K H W : nat),
    has_shape N K H W heatmaps ->
    (0 < N)%nat -> (0 < K)%nat -> (0 < H)%nat -> (0 < W)%nat ->
    (Z.of_nat H * Z.of_nat W <= 16777216)%Z ->
    exists preds maxvals,
      TopDownEval._get_max_preds heatmaps = Ok (preds, maxvals) /\
      forall n k hm, cell heatmaps n k = Some hm ->
        exists idx,
          Spec.first_argmax (concat hm) idx /\
          cell maxvals n k = Some (nth idx (concat hm) 0) /\
          (0 < nth idx (concat hm) 0 ->
             cell preds n k =
               Some (inject_Z (Z.of_nat idx mod Z.of_nat W),
                     inject_Z (Z.of_nat idx / Z.of_nat W))) /\
          (nth idx (concat hm) 0 <= 0 -> cell preds n k = Some (-1, -1)).
Proof.
  intros heatmaps N K H W Hshape HN HK HH HW Hsize.
  destruct (get_max_preds_cells heatmaps N K H W Hshape HN HK HH HW)
    as [preds [maxvals [Hmax Hcells]]].
  exists preds, maxvals. split; [exact Hmax|].
  intros n k hm Hcell.
  destruct (Hcells n k hm Hcell) as [idx [Hfirst [Hv [Hpos Hneg]]]].
  exists idx. split; [exact Hfirst|]. split; [exact Hv|].
  split; [|exact Hneg].
  intro Hsign. rewrite (Hpos Hsign). f_equal.
  pose proof (rect_concat_length H W hm (has_shape_cell _ _ _ _ _ _ _ _
                                           Hshape Hcell)) as Hlen.
  destruct Hfirst as [Hidx _]. rewrite Hlen in Hidx.
  apply index_to_xy_exact; nia.
Qed.

(** C4, amended.  On a batch of shape (N, K, H, W), none of them 0 and
    H * W at most 2^24 = 16777216, [_get_max_preds] returns; for every
    (instance, channel) the reported maximum is the value at the first
    position [idx] of the largest cell of the flattened channel; the reported
    coordinate is (idx mod W, idx div W) when that maximum is positive and
    the sentinel (-1, -1) when it is <= 0. *)
Theorem get_max_preds_contract :
  forall (heatmaps : batch) (N K H W : nat),
    has_shape N K H W heatmaps ->
    (0 < N)%nat -> (0 < K)%nat -> (0 < H)%nat -> (0 < W)%nat ->
    (Z.of_nat H * Z.of_nat W <= 16777216)%Z ->
    exists preds maxvals,
      TopDownEval._get_max_preds heatmaps = Ok (preds, maxvals) /\
      forall n k hm, cell heatmaps n k = Some hm ->
        exists idx,
          Spec.first_argmax (concat hm) idx /\
          cell maxvals n k = Some (nth idx (concat hm) 0) /\
          (0 < nth idx (concat hm) 0 ->
             cell preds n k =
               Some (inject_Z (Z.of_nat idx mod Z.of_nat W),
                     inject_Z (Z.of_nat idx / Z.of_nat W))) /\
          (nth idx (concat hm) 0 <= 0 -> cell preds n k = Some (-1, -1)).
Proof. exact get_max_preds_cells_exact. Qed.

Lemma first_argmax_unique (l : list Q) (i j : nat) :
  Spec.first_argmax l i -> Spec.first_argmax l j -> i = j.
Proof.
  intros [Hi [Hmax_i Hfirst_i]] [Hj [Hmax_j Hfirst_j]].
  destruct (Nat.lt_trichotomy i j) as [Hlt | [Heq | Hgt]]; [|exact Heq|].
  - exfalso. exact (Qlt_not_le _ _ (Hfirst_j i Hlt) (Hmax_i j Hj)).
  - exfalso. exact (Qlt_not_le _ _ (Hfirst_i j Hgt) (Hmax_j i Hi)).
Qed.

(** The argmax of a row of zeros that ends in a 1 is its last position. *)
Lemma last_cell_argmax (n : nat) :
  Spec.first_argmax (repeat 0 n ++ [1]) n /\ nth n (repeat 0 n ++ [1]) 0 = 1.
Proof.
  assert (Hlast : nth n (repeat 0 n ++ [1]) 0 = 1).
  { rewrite app_nth2 by (rewrite repeat_length; lia).
    rewrite repeat_length, Nat.sub_diag. reflexivity. }
  assert (Hzero : forall j, (j < n)%nat -> nth j (repeat 0 n ++ [1]) 0 = 0).
  { intros j Hj. rewrite app_nth1 by (rewrite repeat_length; exact Hj).
    apply nth_repeat. }
  split; [|exact Hlast].
  split; [rewrite length_app, repeat_length; simpl; lia|]. split.
  - intros j Hj. rewrite length_app, repeat_length in Hj. simpl in Hj.
    rewrite Hlast. destruct (Nat.eq_dec j n) as [-> | Hne].
    + rewrite Hlast. apply Qle_refl.
    + rewrite Hzero by lia. unfold Qle; simpl; lia.
  - intros j Hj. rewrite Hlast, (Hzero j Hj). reflexivity.
Qed.

(** C4 as stated fails on a channel of more than 2^24 cells.  In a batch of
    shape (1, 1, 1, 16777218) whose only positive cell is the last one, the
    argmax is the flattened index 16777217; float32 stores it as 16777216,
    and the reported x is 16777216, not idx mod W = 16777217. *)
Lemma get_max_preds_rounds_index :
  let n := Z.to_nat 16777217 in
  let hm : heatmap := [repeat 0 n ++ [1]] in
  has_shape 1 1 1 (n + 1) [[hm]] /\
  Spec.first_argmax (concat hm) n /\
  (Z.of_nat n mod Z.of_nat (n + 1) = 16777217)%Z /\
  exists preds maxvals,
    TopDownEval._get_max_preds [[hm]] = Ok (preds, maxvals) /\
    cell preds 0 0 = Some (16777216, 0) /\
    cell maxvals 0 0 = Some 1.
Proof.
  intros n hm.
  assert (Hn : Z.of_nat n = 16777217%Z) by (unfold n; apply Z2Nat.id; lia).
  clearbody n. unfold hm. clear hm.
  destruct (last_cell_argmax n) as [Hfirst Hlast].
  assert (Hshape : has_shape 1 1 1 (n + 1) [[[repeat 0 n ++ [1]]]]).
  { split; [reflexivity|]. constructor; [|constructor].
    split; [reflexivity|]. constructor; [|constructor].
    split; [reflexivity|]. constructor; [|constructor].
    rewrite length_app, repeat_length. reflexivity. }
  assert (Hflat : concat [repeat 0 n ++ [1]] = repeat 0 n ++ [1])
    by (cbn [concat]; apply app_nil_r).
  split; [exact Hshape|]. rewrite Hflat. split; [exact Hfirst|].
  split.
  { rewrite Nat2Z.inj_add, Hn. reflexivity. }
  destruct (get_max_preds_cells _ 1 1 1 (n + 1) Hshape
              ltac:(lia) ltac:(lia) ltac:(lia) ltac:(lia))
    as [preds [maxvals [Hmax Hcells]]].
  exists preds, maxvals. split; [exact Hmax|].
  destruct (Hcells 0%nat 0%nat [repeat 0 n ++ [1]] eq_refl)
    as [idx [Hidx [Hv [Hpos _]]]].
  rewrite Hflat in Hidx, Hv, Hpos.
  rewrite (first_argmax_unique _ _ _ Hidx Hfirst) in Hv, Hpos.
  rewrite Hlast in Hv, Hpos.
  split; [|exact Hv].
  rewrite (Hpos ltac:(reflexivity)).
  unfold TopDownEval.index_to_xy. rewrite Nat2Z.inj_add, Hn.
  reflexivity.
Qed.


(** ** PCK and EPE *)

Section Metrics.
Context {Ext : External}.

Lemma filter_length_mono {A : Type} (f g : A -> bool) (l : list A) :
  (forall x, f x = true -> g x = true) ->
  (length (filter f l) <= length (filter g l))%nat.
Proof.
  intro Himp. induction l as [|a t IH]; simpl; [lia|].
  destruct (f a) eqn:Ef.
  - rewrite (Himp _ Ef). simpl. lia.
  - destruct (g a); simpl; lia.
Qed.

Lemma npfloat_ltb_mono (d : npfloat) (t1 t2 : Q) :
  t1 <= t2 -> npfloat_ltb d t1 = true -> npfloat_ltb d t2 = true.
Proof.
  intros Hle. destruct d as [q| | |]; simpl; auto.
  intro Hlt. apply Qltb_true in Hlt. apply Qltb_true.
  apply Qlt_le_trans with t1; assumption.
Qed.

Lemma Qdiv_le_compat (a b c : Q) : a <= b -> 0 < c -> a / c <= b / c.
Proof.
  intros Hab Hc. unfold Qdiv. apply Qmult_le_compat_r; [exact Hab|].
  apply Qinv_le_0_compat. apply Qlt_le_weak. exact Hc.
Qed.

Lemma inject_nat_pos (n : nat) : (0 < n)%nat -> 0 < inject_Z (Z.of_nat n).
Proof.
  intro Hn. replace 0 with (inject_Z 0) by reflexivity.
  rewrite <- Zlt_Qlt. lia.
Qed.

Lemma inject_nat_le (n m : nat) :
  (n <= m)%nat -> inject_Z (Z.of_nat n) <= inject_Z (Z.of_nat m).
Proof.
  intro Hn. rewrite <- Zle_Qle. lia.
Qed.

(** Whether a channel counts is decided by its distances alone. *)
Lemma distance_acc_valid (d : list npfloat) (thr : Q) :
  Qle_bool 0 (TopDownEval._distance_acc d thr)
  = Nat.ltb 0 (length (filter npfloat_ne_m1 d)).
Proof.
  unfold TopDownEval._distance_acc.
  destruct (Nat.ltb 0 (length (filter npfloat_ne_m1 d))) eqn:E.
  - apply Nat.ltb_lt in E. apply Qle_bool_iff.
    apply Qle_shift_div_l; [apply inject_nat_pos; exact E|].
    rewrite Qmult_0_l. apply (inject_nat_le 0). lia.
  - reflexivity.
Qed.

Lemma distance_acc_mono (d : list npfloat) (t1 t2 : Q) :
  t1 <= t2 ->
  TopDownEval._distance_acc d t1 <= TopDownEval._distance_acc d t2.
Proof.
  intro Hle. unfold TopDownEval._distance_acc.
  destruct (Nat.ltb 0 (length (filter npfloat_ne_m1 d))) eqn:E.
  - apply Nat.ltb_lt in E.
    apply Qdiv_le_compat; [|apply inject_nat_pos; exact E].
    apply inject_nat_le. apply filter_length_mono.
    intro x. apply npfloat_ltb_mono. exact Hle.
  - apply Qle_refl.
Qed.

(** The valid accuracies at two thresholds: as many, and no larger in sum. *)
Lemma valid_acc_mono (ds : list (list npfloat)) (t1 t2 : Q) :
  t1 <= t2 ->
  let acc1 := map (fun d => TopDownEval._distance_acc d t1) ds in
  let acc2 := map (fun d => TopDownEval._distance_acc d t2) ds in
  Forall2 Qle acc1 acc2 /\
  Forall2 (fun a b => Qle_bool 0 a = Qle_bool 0 b) acc1 acc2 /\
  length (filter (fun a => Qle_bool 0 a) acc1)
  = length (filter (fun a => Qle_bool 0 a) acc2) /\
  sumQ (filter (fun a => Qle_bool 0 a) acc1)
  <= sumQ (filter (fun a => Qle_bool 0 a) acc2).
Proof.
  intro Hle. induction ds as [|d t IH]; simpl.
  - repeat split; try constructor. apply Qle_refl.
  - simpl in IH. destruct IH as [Hall [Hsame [Hlen Hsum]]].
    assert (Hv : Qle_bool 0 (TopDownEval._distance_acc d t1)
                 = Qle_bool 0 (TopDownEval._distance_acc d t2))
      by (rewrite !distance_acc_valid; reflexivity).
    split; [constructor; [apply distance_acc_mono; exact Hle | exact Hall]|].
    split; [constructor; [exact Hv | exact Hsame]|].
    rewrite <- Hv.
    destruct (Qle_bool 0 (TopDownEval._distance_acc d t1)); simpl.
    + split; [congruence|].
      apply Qplus_le_compat; [apply distance_acc_mono; exact Hle | exact Hsum].
    + split; assumption.
Qed.

(** C10.  For fixed predictions, ground truth, mask and normalisation and
    thresholds t1 <= t2, every per-channel accuracy and the averaged
    accuracy of [keypoint_pck_accuracy] at t1 are at most those at t2; the
    channels left out of the average (accuracy -1) are the same at both
    thresholds, and so is the count of valid channels. *)
Theorem pck_threshold_monotone :
  forall (pred gt : points) (mask : list (list bool)) (normalize : list (Q * Q))
         (t1 t2 : Q),
    t1 <= t2 ->
    let r1 := TopDownEval.keypoint_pck_accuracy pred gt mask t1 normalize in
    let r2 := TopDownEval.keypoint_pck_accuracy pred gt mask t2 normalize in
    Forall2 Qle (fst (fst r1)) (fst (fst r2)) /\
    snd (fst r1) <= snd (fst r2) /\
    snd r1 = snd r2 /\
    Forall2 (fun a b => Qle_bool 0 a = Qle_bool 0 b) (fst (fst r1)) (fst (fst r2)).
Proof.
  intros pred gt mask normalize t1 t2 Hle.
  unfold TopDownEval.keypoint_pck_accuracy. simpl.
  destruct (valid_acc_mono
              (TopDownEval._calc_distances pred gt mask normalize) t1 t2 Hle)
    as [Hall [Hsame [Hlen Hsum]]].
  split; [exact Hall|]. split; [|split; [exact Hlen | exact Hsame]].
  rewrite <- Hlen.
  destruct (Nat.ltb 0 _) eqn:E; [|apply Qle_refl].
  apply Nat.ltb_lt in E. unfold TopDownEval.np_mean. rewrite <- Hlen.
  apply Qdiv_le_compat; [exact Hsum | apply inject_nat_pos; exact E].
Qed.

(** *** The all-invalid mask *)

Lemma concat_map_nil {A B : Type} (f : A -> list B) (l : list A) :
  (forall a, In a l -> f a = []) -> concat (map f l) = [].
Proof.
  intro Hall. induction l as [|a t IH]; simpl; [reflexivity|].
  rewrite (Hall a (or_introl eq_refl)). simpl.
  apply IH. intros x Hx. apply Hall. right. exact Hx.
Qed.

Lemma masked_distances_all_false (preds targets : points)
    (mask : list (list bool)) (normalize : list (Q * Q)) :
  Forall (Forall (fun m => m = false)) mask ->
  TopDownEval.masked_distances preds targets mask normalize = [].
Proof.
  intro Hmask. unfold TopDownEval.masked_distances.
  apply concat_map_nil.
  intros [[[p_row t_row] m_row] nrm] Hin.
  apply in_combine_l in Hin. apply in_combine_r in Hin.
  rewrite Forall_forall in Hmask. specialize (Hmask _ Hin).
  apply concat_map_nil.
  intros [[p t] m] Hin'. apply in_combine_r in Hin'.
  rewrite Forall_forall in Hmask. rewrite (Hmask _ Hin'). reflexivity.
Qed.

Lemma put_row_all_false (ms : list bool) (values : list npfloat) :
  Forall (fun m => m = false) ms ->
  TopDownEval.put_row ms values = (repeat (Fin (-1)) (length ms), values).
Proof.
  intro Hms. induction Hms as [|m t Hm _ IH]; simpl; [reflexivity|].
  subst m. rewrite IH. reflexivity.
Qed.

Lemma put_rows_all_false (mask_T : list (list bool)) (n : nat)
    (values : list npfloat) :
  Forall (fun ms => length ms = n /\ Forall (fun m => m = false) ms) mask_T ->
  TopDownEval.put_rows mask_T values
  = repeat (repeat (Fin (-1)) n) (length mask_T).
Proof.
  intro Hall. induction Hall as [|ms t [Hlen Hms] _ IH]; simpl; [reflexivity|].
  rewrite (put_row_all_false _ _ Hms), IH, Hlen. reflexivity.
Qed.

Lemma transpose_all_false (K : nat) (mask : list (list bool)) :
  Forall (Forall (fun m => m = false)) mask ->
  Forall (fun ms => length ms = length mask /\ Forall (fun m => m = false) ms)
         (TopDownEval.transpose_mask K mask) /\
  length (TopDownEval.transpose_mask K mask) = K.
Proof.
  intro Hmask. unfold TopDownEval.transpose_mask.
  split; [|rewrite length_map, length_seq; reflexivity].
  apply Forall_forall. intros ms Hin. apply in_map_iff in Hin.
  destruct Hin as [k [<- _]]. split; [apply length_map|].
  apply Forall_forall. intros m Hm. apply in_map_iff in Hm.
  destruct Hm as [m_row [<- Hrow]].
  rewrite Forall_forall in Hmask. specialize (Hmask _ Hrow).
  destruct (nth_in_or_default k m_row false) as [Hin'|Hd]; [|exact Hd].
  rewrite Forall_forall in Hmask. apply Hmask. exact Hin'.
Qed.

Lemma calc_distances_all_false (preds targets : points)
    (mask : list (list bool)) (normalize : list (Q * Q)) :
  Forall (Forall (fun m => m = false)) mask ->
  TopDownEval._calc_distances preds targets mask normalize
  = repeat (repeat (Fin (-1)) (length mask)) (length (hd [] preds)).
Proof.
  intro Hmask. unfold TopDownEval._calc_distances.
  rewrite (masked_distances_all_false _ _ _ _ Hmask).
  destruct (transpose_all_false (length (hd [] preds)) mask Hmask) as [Hall Hlen].
  rewrite (put_rows_all_false _ _ _ Hall), Hlen. reflexivity.
Qed.

Lemma filter_ne_m1_sentinels (n : nat) :
  filter npfloat_ne_m1 (repeat (Fin (-1)) n) = [].
Proof. induction n as [|n IH]; simpl; [reflexivity | exact IH]. Qed.

Lemma filter_ne_m1_concat_sentinels (n k : nat) :
  filter npfloat_ne_m1 (concat (repeat (repeat (Fin (-1)) n) k)) = [].
Proof.
  induction k as [|k IH]; simpl; [reflexivity|].
  rewrite filter_app, filter_ne_m1_sentinels, IH. reflexivity.
Qed.

Lemma distance_acc_sentinels (n k : nat) (thr : Q) :
  map (fun d => TopDownEval._distance_acc d thr)
      (repeat (repeat (Fin (-1)) n) k)
  = repeat (-1) k.
Proof.
  induction k as [|k IH]; simpl; [reflexivity|]. rewrite IH.
  unfold TopDownEval._distance_acc at 1.
  rewrite filter_ne_m1_sentinels. reflexivity.
Qed.

Lemma valid_acc_sentinels (k : nat) :
  filter (fun a => Qle_bool 0 a) (repeat (-1) k) = [].
Proof. induction k as [|k IH]; simpl; [reflexivity | exact IH]. Qed.

(** C7.  When no entry of the mask is True: every distance is the sentinel
    -1; [keypoint_pck_accuracy] returns -1 for every channel, average 0 over
    0 valid channels; [keypoint_epe] divides the empty sum 0.0 by the count
    0, which in numpy is [nan], not an exception. *)
Theorem all_invalid_mask_sentinels :
  forall (pred gt : points) (mask : list (list bool)) (thr : Q)
         (normalize : list (Q * Q)),
    Forall (Forall (fun m => m = false)) mask ->
    let K := length (hd [] pred) in
    TopDownEval._calc_distances pred gt mask normalize
      = repeat (repeat (Fin (-1)) (length mask)) K /\
    TopDownEval.keypoint_pck_accuracy pred gt mask thr normalize
      = (repeat (-1) K, 0, 0%nat) /\
    TopDownEval.keypoint_epe pred gt mask = NaN.
Proof.
  intros pred gt mask thr normalize Hmask K.
  split; [apply calc_distances_all_false; exact Hmask|].
  split.
  - unfold TopDownEval.keypoint_pck_accuracy.
    rewrite (calc_distances_all_false _ _ _ _ Hmask). fold K.
    rewrite distance_acc_sentinels, valid_acc_sentinels. reflexivity.
  - unfold TopDownEval.keypoint_epe.
    rewrite (calc_distances_all_false _ _ _ _ Hmask).
    rewrite filter_ne_m1_concat_sentinels. reflexivity.
Qed.

End Metrics.

(** ** Indexing inside a rectangular channel *)

Lemma py_index_in_range {A : Type} (l : list A) (i : Z) (d : A) :
  (0 <= i < Z.of_nat (length l))%Z ->
  py_index l i = Ok (nth (Z.to_nat i) l d).
Proof.
  intros [Hlo Hhi]. unfold py_index.
  replace (i <? 0)%Z with false by (symmetry; apply Z.ltb_ge; exact Hlo).
  replace (0 <=? i)%Z with true by (symmetry; apply Z.leb_le; exact Hlo).
  replace (i <? Z.of_nat (length l))%Z with true
    by (symmetry; apply Z.ltb_lt; exact Hhi).
  simpl.
  assert (Hn : (Z.to_nat i < length l)%nat) by lia.
  rewrite (nth_error_nth' l d Hn). reflexivity.
Qed.

Lemma py_index2_rect (H W : nat) (hm : heatmap) (y x : Z) :
  rect H W hm ->
  (0 <= y < Z.of_nat H)%Z -> (0 <= x < Z.of_nat W)%Z ->
  py_index2 hm y x = Ok (Spec.at_ hm y x).
Proof.
  intros [Hlen Hrows] Hy Hx. unfold py_index2, Spec.at_.
  rewrite (py_index_in_range hm y []) by (rewrite Hlen; exact Hy).
  simpl. apply py_index_in_range.
  rewrite Forall_forall in Hrows.
  rewrite (Hrows (nth (Z.to_nat y) hm [])); [exact Hx|].
  apply nth_In. lia.
Qed.

Lemma rect_hd_width (H W : nat) (hm : heatmap) :
  rect H W hm -> (0 < H)%nat -> length (hd [] hm) = W.
Proof.
  intros [Hlen Hrows] HH.
  destruct hm as [|r rest]; [simpl in Hlen; lia|].
  inversion Hrows as [|? ? Hr _]. exact Hr.
Qed.

(** ** _taylor *)

Section Taylor.
Context {Ext : External}.

(** The two branches of [_taylor] on an H x W channel: no read leaves the
    channel, and past both tests the outcome is that of the inversion. *)
Lemma taylor_cases :
  forall (hm : heatmap) (H W : nat) (coord : Q * Q),
    rect H W hm ->
    let px := py_int (fst coord) in
    let py := py_int (snd coord) in
    let inside :=
      (2 <= Spec.left_gap px /\ 2 <= Spec.right_gap (Z.of_nat W) px /\
       2 <= Spec.top_gap py /\ 2 <= Spec.bottom_gap (Z.of_nat H) py)%Z in
    let dx := Spec.taylor_dx hm px py in
    let dy := Spec.taylor_dy hm px py in
    let dxx := Spec.taylor_dxx hm px py in
    let dxy := Spec.taylor_dxy hm px py in
    let dyy := Spec.taylor_dyy hm px py in
    let tested := fl (fl (dxx * dyy) - fl (dxy ^ 2)) in
    (~ inside \/ tested == 0 -> TopDownEval._taylor hm coord = Ok coord) /\
    (inside /\ ~ tested == 0 ->
       TopDownEval._taylor hm coord
       = ('(i00, i01, i10, i11) <- np_linalg_inv dxx dxy dxy dyy ;;
          Ok (fst coord + (- i00 * dx + - i01 * dy),
              snd coord + (- i10 * dx + - i11 * dy)))).
Proof.
  intros hm H W coord Hrect px py inside dx dy dxx dxy dyy tested.
  unfold Spec.left_gap, Spec.right_gap, Spec.top_gap, Spec.bottom_gap in inside.
  unfold TopDownEval._taylor. fold px. fold py.
  destruct ((1 <? px) && (px <? Z.of_nat (length (hd [] hm)) - 2)
            && (1 <? py) && (py <? Z.of_nat (length hm) - 2))%Z eqn:Eguard.
  - (* the guard holds: all nine cells are inside the map *)
    repeat rewrite andb_true_iff in Eguard.
    destruct Eguard as [[[Hx1 Hx2] Hy1] Hy2].
    apply Z.ltb_lt in Hx1, Hx2, Hy1, Hy2.
    assert (HH : (0 < H)%nat) by (destruct Hrect as [Hl _]; lia).
    rewrite (rect_hd_width _ _ _ Hrect HH) in Hx2.
    replace (length hm) with H in Hy2 by (symmetry; apply Hrect).
    assert (Hin : inside) by (unfold inside; lia).
    change (py + 2 * 1)%Z with (py + 2)%Z.
    change (py - 2 * 1)%Z with (py - 2)%Z.
    repeat (rewrite (py_index2_rect H W) by (try exact Hrect; lia);
            cbv beta iota delta [bind]).
    fold (Spec.taylor_dx hm px py). fold (Spec.taylor_dy hm px py).
    fold (Spec.taylor_dxx hm px py). fold (Spec.taylor_dxy hm px py).
    fold (Spec.taylor_dyy hm px py).
    fold dx. fold dy. fold dxx. fold dxy. fold dyy. fold tested.
    destruct (Qeq_bool tested 0) eqn:Edet; simpl negb; cbv iota.
    + apply Qeq_bool_iff in Edet. split.
      * intros _. reflexivity.
      * intros [_ Hne]. contradiction.
    + apply Qeq_bool_neq in Edet. split.
      * intros [Hout | Hz]; contradiction.
      * intros _.
        destruct (np_linalg_inv dxx dxy dxy dyy) as [[[[i00 i01] i10] i11]| |];
          reflexivity.
  - (* the guard fails: the peak is within 2px of a border *)
    split.
    + intros _. reflexivity.
    + intros [Hin _]. exfalso.
      assert (HH : (0 < H)%nat) by (unfold inside in Hin; lia).
      repeat rewrite andb_false_iff in Eguard.
      rewrite (rect_hd_width _ _ _ Hrect HH) in Eguard.
      replace (length hm) with H in Eguard by (symmetry; apply Hrect).
      unfold inside in Hin.
      destruct Eguard as [[[E|E]|E]|E]; apply Z.ltb_ge in E; lia.
Qed.

(** C2.  On an H x W channel, with (px, py) the integer peak and the first
    and second differences of the source: [_taylor] returns the coordinate
    it was given when the peak is within 2px of a border, and when the value
    [dxx * dyy - dxy**2] is 0 as the machine computes it.  Past both tests it
    calls [np.linalg.inv], and the test does not keep the inversion from
    failing: when the inversion raises LinAlgError, so does [_taylor].  When
    the inversion returns, the result is coord + offset with
    offset = - inverse * gradient, which solves Hessian * offset = - gradient
    (the Newton step) where the matrix returned is the inverse. *)
Theorem taylor_guard_outcomes :
  forall (hm : heatmap) (H W : nat) (coord : Q * Q),
    rect H W hm ->
    let px := py_int (fst coord) in
    let py := py_int (snd coord) in
    let inside :=
      (2 <= Spec.left_gap px /\ 2 <= Spec.right_gap (Z.of_nat W) px /\
       2 <= Spec.top_gap py /\ 2 <= Spec.bottom_gap (Z.of_nat H) py)%Z in
    let dx := Spec.taylor_dx hm px py in
    let dy := Spec.taylor_dy hm px py in
    let dxx := Spec.taylor_dxx hm px py in
    let dxy := Spec.taylor_dxy hm px py in
    let dyy := Spec.taylor_dyy hm px py in
    let tested := fl (fl (dxx * dyy) - fl (dxy ^ 2)) in
    (~ inside \/ tested == 0 -> TopDownEval._taylor hm coord = Ok coord) /\
    (inside /\ ~ tested == 0 ->
       (np_linalg_inv dxx dxy dxy dyy = Raises LinAlgError ->
          TopDownEval._taylor hm coord = Raises LinAlgError) /\
       (forall i00 i01 i10 i11,
          np_linalg_inv dxx dxy dxy dyy = Ok (i00, i01, i10, i11) ->
          exists ox oy,
            TopDownEval._taylor hm coord
            = Ok (fst coord + ox, snd coord + oy) /\
            ox = - i00 * dx + - i01 * dy /\
            oy = - i10 * dx + - i11 * dy /\
            (dxx * i00 + dxy * i10 == 1 /\ dxx * i01 + dxy * i11 == 0 /\
             dxy * i00 + dyy * i10 == 0 /\ dxy * i01 + dyy * i11 == 1 ->
             dxx * ox + dxy * oy == - dx /\
             dxy * ox + dyy * oy == - dy))).
Proof.
  intros hm H W coord Hrect px py inside dx dy dxx dxy dyy tested.
  destruct (taylor_cases hm H W coord Hrect) as [Hskip Hstep].
  split; [exact Hskip|].
  intro Hpast. pose proof (Hstep Hpast) as Heq. clear Hskip Hstep.
  fold px py dx dy dxx dxy dyy in Heq.
  split.
  - intro Hinv. rewrite Heq, Hinv. reflexivity.
  - intros i00 i01 i10 i11 Hinv. rewrite Heq, Hinv.
    cbv beta iota delta [bind].
    eexists _, _. split; [reflexivity|].
    split; [reflexivity|]. split; [reflexivity|].
    intros [H1 [H2 [H3 H4]]]. split.
    + transitivity (- ((dxx * i00 + dxy * i10) * dx
                       + (dxx * i01 + dxy * i11) * dy)); [ring|].
      rewrite H1, H2. ring.
    + transitivity (- ((dxy * i00 + dyy * i10) * dx
                       + (dxy * i01 + dyy * i11) * dy)); [ring|].
      rewrite H3, H4. ring.
Qed.

End Taylor.

(** ** The shift refinement *)

(** One turn of the shift loop on an H x W channel: it never raises; it adds
    sign(gradient) * 0.25 to each axis exactly when the integer peak is at
    least 2px from the left and top borders and at least 1px from the right
    and bottom borders, and leaves the coordinate as it is otherwise. *)
Lemma shift_pred_condition :
  forall (hm : heatmap) (H W : nat) (p : Q * Q),
    rect H W hm ->
    let px := py_int (fst p) in
    let py := py_int (snd p) in
    let applies :=
      (2 <= Spec.left_gap px /\ 1 <= Spec.right_gap (Z.of_nat W) px /\
       2 <= Spec.top_gap py /\ 1 <= Spec.bottom_gap (Z.of_nat H) py)%Z in
    (applies ->
       TopDownEval.shift_pred (Z.of_nat W) (Z.of_nat H) hm p
       = Ok (fst p + np_sign (Spec.shift_gx hm px py) * (1#4),
             snd p + np_sign (Spec.shift_gy hm px py) * (1#4))) /\
    (~ applies ->
       TopDownEval.shift_pred (Z.of_nat W) (Z.of_nat H) hm p = Ok p).
Proof.
  intros hm H W p Hrect px py applies.
  unfold Spec.left_gap, Spec.right_gap, Spec.top_gap, Spec.bottom_gap in applies.
  unfold TopDownEval.shift_pred. fold px. fold py.
  destruct ((1 <? px) && (px <? Z.of_nat W - 1)
            && (1 <? py) && (py <? Z.of_nat H - 1))%Z eqn:Eguard.
  - repeat rewrite andb_true_iff in Eguard.
    destruct Eguard as [[[Hx1 Hx2] Hy1] Hy2].
    apply Z.ltb_lt in Hx1, Hx2, Hy1, Hy2.
    split.
    + intros _.
      repeat (rewrite (py_index2_rect H W) by (try exact Hrect; lia);
              cbv beta iota delta [bind]).
      reflexivity.
    + intro Hout. exfalso. apply Hout. unfold applies. lia.
  - split.
    + intro Hin. exfalso. unfold applies in Hin.
      repeat rewrite andb_false_iff in Eguard.
      destruct Eguard as [[[E|E]|E]|E]; apply Z.ltb_ge in E; lia.
    + intros _. reflexivity.
Qed.

Lemma nth_error_combine {A B : Type} (l1 : list A) (l2 : list B) (n : nat)
    (a : A) (b : B) :
  nth_error l1 n = Some a -> nth_error l2 n = Some b ->
  nth_error (combine l1 l2) n = Some (a, b).
Proof.
  revert l2 n. induction l1 as [|x t IH]; intros l2 n Ha Hb.
  - destruct n; discriminate.
  - destruct l2 as [|y u]; [destruct n; discriminate|].
    destruct n as [|n]; simpl in *.
    + inversion Ha; inversion Hb; reflexivity.
    + apply IH; assumption.
Qed.

Lemma in_combine_nth {A B : Type} (l1 : list A) (l2 : list B) (a : A) (b : B) :
  In (a, b) (combine l1 l2) ->
  exists n, nth_error l1 n = Some a /\ nth_error l2 n = Some b.
Proof.
  revert l2. induction l1 as [|x t IH]; intros l2 Hin; [contradiction|].
  destruct l2 as [|y u]; [contradiction|].
  destruct Hin as [Heq | Hin].
  - inversion Heq; subst. exists 0%nat. split; reflexivity.
  - destruct (IH _ Hin) as [n [Ha Hb]]. exists (S n). split; assumption.
Qed.

(** The loop over n and k: it returns when every turn does, and cell (n, k)
    of the result is the turn on cell (n, k) of its two arguments. *)
Lemma refine_each_cells (f : heatmap -> Q * Q -> outcome (Q * Q))
    (hms : batch) (ps : points) :
  (forall n k h p, cell hms n k = Some h -> cell ps n k = Some p ->
     exists q, f h p = Ok q) ->
  exists out,
    TopDownEval.refine_each f hms ps = Ok out /\
    forall n k h p, cell hms n k = Some h -> cell ps n k = Some p ->
      exists q, cell out n k = Some q /\ f h p = Ok q.
Proof.
  intro Hall. unfold TopDownEval.refine_each.
  destruct (mapM_Ok (fun '(h_row, p_row) =>
              mapM (fun '(h, p) => f h p) (combine h_row p_row))
            (combine hms ps)) as [out Hout].
  { intros [h_row p_row] Hin.
    destruct (in_combine_nth _ _ _ _ Hin) as [n [Hh Hp]].
    apply mapM_Ok. intros [h p] Hin'.
    destruct (in_combine_nth _ _ _ _ Hin') as [k [Hh' Hp']].
    apply (Hall n k); unfold cell; [rewrite Hh | rewrite Hp]; assumption. }
  exists out. split; [exact Hout|].
  intros n k h p Hh Hp. unfold cell in Hh, Hp.
  destruct (nth_error hms n) as [h_row|] eqn:Ehn; [|discriminate].
  destruct (nth_error ps n) as [p_row|] eqn:Epn; [|discriminate].
  destruct (mapM_nth _ _ _ Hout) as [_ Hrows].
  destruct (Hrows n _ (nth_error_combine _ _ _ _ _ Ehn Epn))
    as [row [Hrow Hinner]].
  destruct (mapM_nth _ _ _ Hinner) as [_ Hcells].
  destruct (Hcells k _ (nth_error_combine _ _ _ _ _ Hh Hp)) as [q [Hq Hfq]].
  exists q. unfold cell. rewrite Hrow. split; assumption.
Qed.

Lemma has_shape_first_cell (N K H W : nat) (b : batch) :
  has_shape N K H W b -> (0 < N)%nat -> (0 < K)%nat ->
  exists hm, cell b 0 0 = Some hm.
Proof.
  intros [Hlen Hall] HN HK.
  destruct b as [|i0 rest]; [simpl in Hlen; lia|].
  inversion Hall as [|? ? [Hlen0 _] _].
  destruct i0 as [|c0 i0']; [simpl in Hlen0; lia|].
  exists c0. reflexivity.
Qed.




(** ** Slices [a[b:-b]] *)

Lemma slice_bound_start (n b : nat) :
  slice_bound (n + 2 * b) (Z.of_nat b) = b.
Proof.
  unfold slice_bound.
  replace (Z.of_nat b <? 0)%Z with false by (symmetry; apply Z.ltb_ge; lia).
  lia.
Qed.

Lemma slice_bound_stop (n b : nat) :
  (1 <= b)%nat -> slice_bound (n + 2 * b) (- Z.of_nat b) = (n + b)%nat.
Proof.
  intro Hb. unfold slice_bound.
  replace (- Z.of_nat b <? 0)%Z with true by (symmetry; apply Z.ltb_lt; lia).
  lia.
Qed.

Lemma py_slice_frame {A : Type} (l : list A) (n b : nat) :
  (1 <= b)%nat -> length l = (n + 2 * b)%nat ->
  py_slice l (Z.of_nat b) (- Z.of_nat b) = firstn n (skipn b l).
Proof.
  intros Hb Hlen. unfold py_slice.
  rewrite Hlen, slice_bound_start, (slice_bound_stop _ _ Hb).
  replace (n + b - b)%nat with n by lia. reflexivity.
Qed.

Lemma py_slice_assign_frame {A : Type} (l src : list A) (n b : nat) :
  (1 <= b)%nat -> length l = (n + 2 * b)%nat -> length src = n ->
  py_slice_assign l (Z.of_nat b) (- Z.of_nat b) src
  = Ok (firstn b l ++ src ++ skipn (b + n) l).
Proof.
  intros Hb Hlen Hsrc. unfold py_slice_assign.
  rewrite Hlen, slice_bound_start, (slice_bound_stop _ _ Hb).
  replace (n + b - b)%nat with n by lia.
  rewrite Hsrc, Nat.eqb_refl. reflexivity.
Qed.

Lemma firstn_repeat {A : Type} (a : A) (n m : nat) :
  (n <= m)%nat -> firstn n (repeat a m) = repeat a n.
Proof.
  revert m. induction n as [|n IH]; intros m Hle; [reflexivity|].
  destruct m as [|m]; [lia|]. simpl. rewrite IH by lia. reflexivity.
Qed.

Lemma skipn_repeat {A : Type} (a : A) (n m : nat) :
  skipn n (repeat a m) = repeat a (m - n).
Proof.
  revert m. induction n as [|n IH]; intros m.
  - rewrite Nat.sub_0_r. reflexivity.
  - destruct m as [|m]; [reflexivity|]. simpl. apply IH.
Qed.

Lemma assign_rows_frame (src : heatmap) (W b : nat) :
  (1 <= b)%nat -> Forall (fun row => length row = W) src ->
  mapM (fun '(row, srow) =>
          py_slice_assign row (Z.of_nat b) (- Z.of_nat b) srow)
       (combine (repeat (repeat 0 (W + 2 * b)) (length src)) src)
  = Ok (map (fun row => repeat 0 b ++ row ++ repeat 0 b) src).
Proof.
  intros Hb Hrows. induction Hrows as [|r t Hr _ IH]; [reflexivity|].
  cbn [length repeat combine mapM map].
  rewrite (py_slice_assign_frame _ r W b Hb)
    by (try rewrite repeat_length; auto).
  cbv beta iota delta [bind]. rewrite IH.
  rewrite firstn_repeat by lia. rewrite skipn_repeat.
  replace (W + 2 * b - (b + W))%nat with b by lia. reflexivity.
Qed.

Lemma zero_pad_assign (hm : heatmap) (H W b : nat) :
  (1 <= b)%nat -> rect H W hm ->
  py_slice2_assign (np_zeros2 (H + 2 * b) (W + 2 * b))
                   (Z.of_nat b) (- Z.of_nat b) hm
  = Ok (Spec.zero_pad b W hm).
Proof.
  intros Hb [Hlen Hrows]. unfold py_slice2_assign, np_zeros2.
  rewrite (py_slice_frame _ H b Hb) by apply repeat_length.
  rewrite skipn_repeat, firstn_repeat by lia.
  rewrite repeat_length, Hlen, Nat.eqb_refl.
  rewrite <- Hlen at 1. rewrite (assign_rows_frame hm W b Hb Hrows).
  cbv beta iota delta [bind].
  rewrite (py_slice_assign_frame _ _ H b Hb)
    by (try rewrite repeat_length; try rewrite length_map; auto).
  rewrite firstn_repeat by lia. rewrite skipn_repeat.
  replace (H + 2 * b - (b + H))%nat with b by lia. reflexivity.
Qed.

(** ** The separable filter on a zero-padded channel *)

Lemma sumQ_nonneg (l : list Q) : Forall (fun v => 0 <= v) l -> 0 <= sumQ l.
Proof.
  induction 1 as [|v t Hv _ IH]; simpl; [apply Qle_refl|].
  replace 0 with (0 + 0) by reflexivity. apply Qplus_le_compat; assumption.
Qed.

Lemma sumQ_pos (l : list Q) (v : Q) :
  Forall (fun v => 0 <= v) l -> In v l -> 0 < v -> 0 < sumQ l.
Proof.
  induction 1 as [|a t Ha Ht IH]; intros Hin Hv; [contradiction|].
  simpl. destruct Hin as [->|Hin].
  - apply Qlt_le_trans with (v + 0); [rewrite Qplus_0_r; exact Hv|].
    apply Qplus_le_compat; [apply Qle_refl | apply sumQ_nonneg; exact Ht].
  - apply Qlt_le_trans with (0 + sumQ t); [rewrite Qplus_0_l; auto|].
    apply Qplus_le_compat; [exact Ha | apply Qle_refl].
Qed.

Lemma taps_coefficient (k : list Q) (j : Z) (c : Q) :
  In (j, c) (Cv2.taps k) -> In c k.
Proof. unfold Cv2.taps. apply in_combine_r. Qed.

Lemma taps_middle (k : list Q) (i : nat) :
  (i < length k)%nat -> In (Z.of_nat i, nth i k 0) (Cv2.taps k).
Proof.
  intro Hi. unfold Cv2.taps.
  assert (Hlen : length (map Z.of_nat (seq 0 (length k))) = length k)
    by (rewrite length_map, length_seq; reflexivity).
  assert (Hn : nth i (combine (map Z.of_nat (seq 0 (length k))) k) (0%Z, 0)
               = (Z.of_nat i, nth i k 0)).
  { rewrite (combine_nth _ _ _ _ _ Hlen).
    change 0%Z with (Z.of_nat 0). rewrite map_nth, seq_nth by exact Hi.
    reflexivity. }
  rewrite <- Hn. apply nth_In. rewrite length_combine, Hlen. lia.
Qed.

Lemma gaussian_like_middle (k : list Q) :
  Spec.gaussian_like k -> (length k / 2 < length k)%nat.
Proof.
  intros [_ Hmid].
  destruct (Nat.lt_ge_cases (length k / 2) (length k)) as [Hlt|Hge];
    [exact Hlt|].
  rewrite nth_overflow in Hmid by exact Hge.
  exfalso. exact (Qlt_irrefl 0 Hmid).
Qed.

Lemma pixel_nonneg (img : list (list Q)) (y x : Z) :
  Forall (Forall (fun v => 0 <= v)) img -> 0 <= Cv2.pixel img y x.
Proof.
  intro Himg. unfold Cv2.pixel.
  destruct (nth_in_or_default (Z.to_nat y) img []) as [Hrow|Hrow].
  - rewrite Forall_forall in Himg. specialize (Himg _ Hrow).
    destruct (nth_in_or_default (Z.to_nat x) (nth (Z.to_nat y) img []) 0)
      as [Hc|Hc].
    + rewrite Forall_forall in Himg. apply Himg. exact Hc.
    + rewrite Hc. apply Qle_refl.
  - rewrite Hrow. destruct (Z.to_nat x); apply Qle_refl.
Qed.

Lemma borderInterpolate_inside (p len : Z) :
  (0 <= p < len)%Z -> Cv2.borderInterpolate p len = p.
Proof.
  intros [Hlo Hhi]. unfold Cv2.borderInterpolate.
  replace (0 <=? p)%Z with true by (symmetry; apply Z.leb_le; exact Hlo).
  replace (p <? len)%Z with true by (symmetry; apply Z.ltb_lt; exact Hhi).
  reflexivity.
Qed.

Lemma filter_at_nonneg (kx ky : list Q) (img : list (list Q)) (y x : Z) :
  Forall (fun c => 0 <= c) kx -> Forall (fun c => 0 <= c) ky ->
  Forall (Forall (fun v => 0 <= v)) img ->
  0 <= Cv2.filter_at kx ky img y x.
Proof.
  intros Hkx Hky Himg. unfold Cv2.filter_at.
  apply sumQ_nonneg. apply Forall_forall. intros v Hv.
  apply in_map_iff in Hv. destruct Hv as [[j cy] [<- Hj]].
  apply sumQ_nonneg. apply Forall_forall. intros u Hu.
  apply in_map_iff in Hu. destruct Hu as [[i cx] [<- Hi]].
  apply taps_coefficient in Hj, Hi.
  rewrite Forall_forall in Hkx, Hky.
  apply Qmult_le_0_compat; [apply Qmult_le_0_compat; auto|].
  apply pixel_nonneg. exact Himg.
Qed.

Lemma filter_at_pos (kx ky : list Q) (img : list (list Q)) (y x : Z) :
  Spec.gaussian_like kx -> Spec.gaussian_like ky ->
  Forall (Forall (fun v => 0 <= v)) img ->
  (0 <= y < Z.of_nat (length img))%Z ->
  (0 <= x < Z.of_nat (length (hd [] img)))%Z ->
  0 < Cv2.pixel img y x ->
  0 < Cv2.filter_at kx ky img y x.
Proof.
  intros Hkx Hky Himg Hy Hx Hpix.
  pose proof (gaussian_like_middle _ Hkx) as Hmx.
  pose proof (gaussian_like_middle _ Hky) as Hmy.
  destruct Hkx as [Hkx Hcx]. destruct Hky as [Hky Hcy].
  unfold Cv2.filter_at.
  set (rx := (Z.of_nat (length kx) / 2)%Z).
  set (ry := (Z.of_nat (length ky) / 2)%Z).
  assert (Hrx : rx = Z.of_nat (length kx / 2))
    by (unfold rx; rewrite Nat2Z.inj_div; reflexivity).
  assert (Hry : ry = Z.of_nat (length ky / 2))
    by (unfold ry; rewrite Nat2Z.inj_div; reflexivity).
  set (inner := fun '(j, cy) => sumQ (map (fun '(i, cx) =>
      cy * cx * Cv2.pixel img
        (Cv2.borderInterpolate (y + j - ry) (Z.of_nat (length img)))
        (Cv2.borderInterpolate (x + i - rx) (Z.of_nat (length (hd [] img)))))
      (Cv2.taps kx))).
  apply (sumQ_pos _ (inner (Z.of_nat (length ky / 2), nth (length ky / 2) ky 0))).
  - apply Forall_forall. intros v Hv.
    apply in_map_iff in Hv. destruct Hv as [[j cy] [<- Hj]].
    unfold inner. apply sumQ_nonneg. apply Forall_forall. intros u Hu.
    apply in_map_iff in Hu. destruct Hu as [[i cx] [<- Hi]].
    apply taps_coefficient in Hj, Hi.
    rewrite Forall_forall in Hkx, Hky.
    apply Qmult_le_0_compat; [apply Qmult_le_0_compat; auto|].
    apply pixel_nonneg. exact Himg.
  - apply in_map. apply taps_middle. exact Hmy.
  - unfold inner.
    set (term := fun '(i, cx) =>
      nth (length ky / 2) ky 0 * cx * Cv2.pixel img
        (Cv2.borderInterpolate (y + Z.of_nat (length ky / 2) - ry)
                               (Z.of_nat (length img)))
        (Cv2.borderInterpolate (x + i - rx) (Z.of_nat (length (hd [] img))))).
    apply (sumQ_pos _ (term (Z.of_nat (length kx / 2), nth (length kx / 2) kx 0))).
    + apply Forall_forall. intros u Hu.
      apply in_map_iff in Hu. destruct Hu as [[i cx] [<- Hi]].
      apply taps_coefficient in Hi. rewrite Forall_forall in Hkx.
      unfold term.
      apply Qmult_le_0_compat;
        [apply Qmult_le_0_compat; [apply Qlt_le_weak; exact Hcy | auto]|].
      apply pixel_nonneg. exact Himg.
    + apply in_map. apply taps_middle. exact Hmx.
    + unfold term. rewrite <- Hrx, <- Hry.
      replace (y + ry - ry)%Z with y by lia.
      replace (x + rx - rx)%Z with x by lia.
      rewrite !borderInterpolate_inside by assumption.
      apply Qmult_lt_0_compat; [apply Qmult_lt_0_compat; assumption|].
      exact Hpix.
Qed.

Lemma zero_pad_nonneg (b W : nat) (hm : heatmap) :
  Spec.nonneg_channel hm ->
  Forall (Forall (fun v => 0 <= v)) (Spec.zero_pad b W hm).
Proof.
  intro Hhm. unfold Spec.zero_pad.
  assert (Hz : forall n, Forall (fun v : Q => 0 <= v) (repeat 0 n)).
  { intro n. apply Forall_forall. intros v Hv.
    apply repeat_spec in Hv. subst v. apply Qle_refl. }
  assert (Hzr : forall n m,
             Forall (Forall (fun v : Q => 0 <= v)) (repeat (repeat 0 m) n)).
  { intros n m. apply Forall_forall. intros r Hr.
    apply repeat_spec in Hr. subst r. apply Hz. }
  apply Forall_app. split; [apply Hzr|].
  apply Forall_app. split; [|apply Hzr].
  apply Forall_forall. intros r Hr. apply in_map_iff in Hr.
  destruct Hr as [row [<- Hrow]].
  unfold Spec.nonneg_channel in Hhm. rewrite Forall_forall in Hhm.
  apply Forall_app. split; [apply Hz|].
  apply Forall_app. split; [apply Hhm; exact Hrow | apply Hz].
Qed.

Lemma zero_pad_shape (b H W : nat) (hm : heatmap) :
  (1 <= b)%nat -> rect H W hm ->
  length (Spec.zero_pad b W hm) = (H + 2 * b)%nat /\
  length (hd [] (Spec.zero_pad b W hm)) = (W + 2 * b)%nat.
Proof.
  intros Hb [Hlen _]. unfold Spec.zero_pad. split.
  - rewrite !length_app, !repeat_length, length_map. lia.
  - destruct b as [|b]; [lia|]. cbn [repeat app hd].
    apply (repeat_length 0 (W + 2 * S b)).
Qed.

Lemma zero_pad_pixel (b H W : nat) (hm : heatmap) (y x : nat) :
  rect H W hm -> (y < H)%nat -> (x < W)%nat ->
  Cv2.pixel (Spec.zero_pad b W hm) (Z.of_nat (y + b)) (Z.of_nat (x + b))
  = nth x (nth y hm []) 0.
Proof.
  intros [Hlen Hrows] Hy Hx. unfold Cv2.pixel, Spec.zero_pad.
  rewrite !Nat2Z.id.
  rewrite app_nth2 by (rewrite repeat_length; lia).
  rewrite repeat_length. replace (y + b - b)%nat with y by lia.
  rewrite app_nth1 by (rewrite length_map; lia).
  rewrite (nth_indep _ [] (repeat 0 b ++ [] ++ repeat 0 b))
    by (rewrite length_map; lia).
  rewrite (map_nth (fun row => repeat 0 b ++ row ++ repeat 0 b) hm [] y).
  rewrite app_nth2 by (rewrite repeat_length; lia).
  rewrite repeat_length. replace (x + b - b)%nat with x by lia.
  apply app_nth1.
  rewrite Forall_forall in Hrows. rewrite (Hrows (nth y hm [])); [exact Hx|].
  apply nth_In. lia.
Qed.

(** ** _gaussian_blur *)

Lemma firstn_seq_prefix (n s m : nat) : firstn n (seq s (n + m)) = seq s n.
Proof.
  revert s. induction n as [|n IH]; intro s; [reflexivity|].
  simpl. rewrite IH. reflexivity.
Qed.

Lemma crop_map_seq {A : Type} (f : nat -> A) (n b : nat) :
  (1 <= b)%nat ->
  py_slice (map f (seq 0 (n + 2 * b))) (Z.of_nat b) (- Z.of_nat b)
  = map f (seq b n).
Proof.
  intro Hb.
  rewrite (py_slice_frame _ n b Hb) by (rewrite length_map, length_seq; lia).
  rewrite skipn_map, firstn_map, skipn_seq.
  replace (n + 2 * b - b)%nat with (n + b)%nat by lia.
  rewrite firstn_seq_prefix. reflexivity.
Qed.

Lemma sepFilter2D_crop (kx ky : list Q) (img : list (list Q)) (H W b : nat) :
  (1 <= b)%nat ->
  length img = (H + 2 * b)%nat -> length (hd [] img) = (W + 2 * b)%nat ->
  py_slice2 (Cv2.sepFilter2D kx ky img) (Z.of_nat b) (- Z.of_nat b)
  = map (fun y => map (fun x =>
           Cv2.filter_at kx ky img (Z.of_nat y) (Z.of_nat x)) (seq b W))
        (seq b H).
Proof.
  intros Hb Hh Hw. unfold py_slice2, Cv2.sepFilter2D.
  rewrite Hh, Hw, (crop_map_seq _ H b Hb), map_map.
  apply map_ext. intro y. apply crop_map_seq. exact Hb.
Qed.

Lemma assign_channel_crop {A : Type} (f : nat -> nat -> Q) (H W b : nat) :
  TopDownEval.assign_channel H W
    (map (fun y => map (fun x => f y x) (seq b W)) (seq b H))
  = Ok (map (fun y => map (fun x => f y x) (seq b W)) (seq b H)).
Proof.
  unfold TopDownEval.assign_channel.
  rewrite length_map, length_seq, Nat.eqb_refl.
  replace (forallb _ _) with true; [reflexivity|].
  symmetry. apply forallb_forall. intros r Hr.
  apply in_map_iff in Hr. destruct Hr as [y [<- _]].
  rewrite length_map, length_seq. apply Nat.eqb_refl.
Qed.

Lemma np_amax_bounds (l : list Q) (m : Q) :
  np_amax l = Ok m -> In m l /\ forall v, In v l -> v <= m.
Proof.
  intro Hm.
  assert (Hne : l <> []) by (intro Hn; subst l; discriminate).
  destruct (np_argmax_amax l Hne) as [idx [_ [Hmax [Hidx [Hall _]]]]].
  rewrite Hmax in Hm. inversion Hm; subst m.
  split; [apply nth_In; exact Hidx|].
  intros v Hv. destruct (In_nth _ _ 0 Hv) as [j [Hj <-]].
  apply Hall. exact Hj.
Qed.

Lemma Qltb_scale (a b c : Q) : 0 < c -> Qltb (a * c) (b * c) = Qltb a b.
Proof.
  intro Hc. unfold Qltb. f_equal.
  destruct (Qle_bool b a) eqn:E.
  - apply Qle_bool_iff. apply Qle_bool_iff in E.
    apply Qmult_le_r; assumption.
  - destruct (Qle_bool (b * c) (a * c)) eqn:E'; [|reflexivity].
    apply Qle_bool_iff in E'. apply Qmult_le_r in E'; [|exact Hc].
    apply Qle_bool_iff in E'. congruence.
Qed.

Lemma max_scan_scale (c v : Q) (t : list Q) :
  0 < c ->
  max_scan (v * c) (map (fun x => x * c) t) = max_scan v t * c.
Proof.
  intro Hc. revert v. induction t as [|a t IH]; intro v; [reflexivity|].
  unfold max_scan. simpl.
  fold (max_scan (if Qltb (v * c) (a * c) then a * c else v * c)
                 (map (fun x => x * c) t)).
  fold (max_scan (if Qltb v a then a else v) t).
  rewrite (Qltb_scale _ _ _ Hc).
  destruct (Qltb v a); apply IH.
Qed.

Lemma np_amax_scale (c m : Q) (hm : heatmap) :
  0 < c -> np_amax (concat hm) = Ok m ->
  np_amax (concat (map (map (fun v => v * c)) hm)) = Ok (m * c).
Proof.
  intros Hc Hm. rewrite <- concat_map.
  destruct (concat hm) as [|v t]; [discriminate|].
  simpl in *. inversion Hm; subst m.
  rewrite (max_scan_scale _ _ _ Hc). reflexivity.
Qed.

Lemma has_positive_cell (H W : nat) (hm : heatmap) :
  rect H W hm -> Spec.has_positive hm ->
  exists y x, (y < H)%nat /\ (x < W)%nat /\ 0 < nth x (nth y hm []) 0.
Proof.
  intros [Hlen Hrows] Hpos. unfold Spec.has_positive in Hpos.
  apply Exists_exists in Hpos. destruct Hpos as [row [Hrow Hex]].
  apply Exists_exists in Hex. destruct Hex as [v [Hv Hvpos]].
  destruct (In_nth _ _ [] Hrow) as [y [Hy Hnth]].
  rewrite Forall_forall in Hrows. pose proof (Hrows _ Hrow) as Hw.
  destruct (In_nth _ _ 0 Hv) as [x [Hx Hnx]].
  exists y, x. rewrite Hnth, Hnx. repeat split; [lia | lia | exact Hvpos].
Qed.

Section Modulation.
Context {Ext : External}.

(** One channel through [_gaussian_blur]: it returns, the shape is kept and
    the largest value after modulation equals the largest value before. *)
Lemma blur_channel_keeps_peak (kernel : Z) (H W : nat) (hm : heatmap) :
  (3 <= kernel)%Z -> Z.odd kernel = true ->
  Spec.gaussian_like (Cv2.getGaussianKernel kernel) ->
  rect H W hm -> Spec.nonneg_channel hm -> Spec.has_positive hm ->
  exists hm' m m',
    TopDownEval.blur_channel kernel ((kernel - 1) / 2) H W hm = Ok hm' /\
    np_amax (concat hm) = Ok m /\
    np_amax (concat hm') = Ok m' /\
    m' == m /\
    rect H W hm'.
Proof.
  intros Hk Hodd Hkern Hrect Hnn Hpos.
  destruct (has_positive_cell _ _ _ Hrect Hpos) as [y0 [x0 [Hy0 [Hx0 Hv0]]]].
  set (b := Z.to_nat ((kernel - 1) / 2)).
  assert (Hb : (1 <= b)%nat).
  { unfold b. assert (1 <= (kernel - 1) / 2)%Z; [|lia].
    apply Z.div_le_lower_bound; lia. }
  assert (Hborder : ((kernel - 1) / 2)%Z = Z.of_nat b).
  { unfold b. rewrite Z2Nat.id; [reflexivity|]. apply Z.div_pos; lia. }
  (* the maximum before *)
  assert (Hne : concat hm <> []).
  { apply (rect_concat_nonempty H W); [exact Hrect | lia | lia]. }
  destruct (np_argmax_amax _ Hne) as [idx [_ [Hmax _]]].
  set (m := nth idx (concat hm) 0) in *.
  destruct (np_amax_bounds _ _ Hmax) as [_ Hmax_ge].
  assert (Hm_pos : 0 < m).
  { apply Qlt_le_trans with (nth x0 (nth y0 hm []) 0); [exact Hv0|].
    apply Hmax_ge. apply in_concat. exists (nth y0 hm []).
    destruct Hrect as [Hlen Hrows]. split; [apply nth_In; lia|].
    apply nth_In. rewrite Forall_forall in Hrows.
    rewrite (Hrows (nth y0 hm [])); [exact Hx0 | apply nth_In; lia]. }
  (* the padded image and its blur *)
  set (dr := Spec.zero_pad b W hm).
  destruct (zero_pad_shape b H W hm Hb Hrect) as [Hdr_h Hdr_w]. fold dr in Hdr_h, Hdr_w.
  pose proof (zero_pad_nonneg b W hm Hnn) as Hdr_nn. fold dr in Hdr_nn.
  set (kern := Cv2.getGaussianKernel kernel) in *.
  set (blurred := map (fun y => map (fun x =>
         Cv2.filter_at kern kern dr (Z.of_nat y) (Z.of_nat x)) (seq b W))
       (seq b H)).
  assert (Hrect' : rect H W blurred).
  { split; [unfold blurred; rewrite length_map, length_seq; reflexivity|].
    apply Forall_forall. intros r Hr. unfold blurred in Hr.
    apply in_map_iff in Hr. destruct Hr as [y [<- _]].
    rewrite length_map, length_seq. reflexivity. }
  assert (Hne' : concat blurred <> []).
  { apply (rect_concat_nonempty H W); [exact Hrect' | lia | lia]. }
  destruct (np_argmax_amax _ Hne') as [idx' [_ [Hmax' _]]].
  set (new_max := nth idx' (concat blurred) 0) in *.
  destruct (np_amax_bounds _ _ Hmax') as [_ Hmax'_ge].
  assert (Hnew_pos : 0 < new_max).
  { apply Qlt_le_trans
      with (Cv2.filter_at kern kern dr (Z.of_nat (y0 + b)) (Z.of_nat (x0 + b))).
    - apply filter_at_pos; try assumption.
      + rewrite Hdr_h. lia.
      + rewrite Hdr_w. lia.
      + unfold dr. rewrite (zero_pad_pixel b H W hm y0 x0 Hrect Hy0 Hx0).
        exact Hv0.
    - apply Hmax'_ge. apply in_concat.
      exists (map (fun x => Cv2.filter_at kern kern dr
                              (Z.of_nat (y0 + b)) (Z.of_nat x)) (seq b W)).
      split.
      + unfold blurred.
        apply (in_map (fun y => map (fun x =>
                 Cv2.filter_at kern kern dr (Z.of_nat y) (Z.of_nat x))
                 (seq b W)) (seq b H) (y0 + b)%nat).
        apply in_seq. lia.
      + apply (in_map (fun x => Cv2.filter_at kern kern dr
                                  (Z.of_nat (y0 + b)) (Z.of_nat x))
                      (seq b W) (x0 + b)%nat).
        apply in_seq. lia. }
  assert (Hscale_pos : 0 < m / new_max).
  { apply Qlt_shift_div_l; [exact Hnew_pos|]. rewrite Qmult_0_l. exact Hm_pos. }
  exists (map (map (fun v => v * (m / new_max))) blurred), m,
         (new_max * (m / new_max)).
  split; [|split; [exact Hmax|split; [|split]]].
  - unfold TopDownEval.blur_channel.
    rewrite Hmax. cbv beta iota delta [bind].
    rewrite Hborder.
    replace ((Z.of_nat H + 2 * Z.of_nat b <? 0)
             || (Z.of_nat W + 2 * Z.of_nat b <? 0))%Z with false
      by (symmetry; apply orb_false_iff; split; apply Z.ltb_ge; lia).
    cbv beta iota delta [bind].
    replace (Z.to_nat (Z.of_nat H + 2 * Z.of_nat b)) with (H + 2 * b)%nat by lia.
    replace (Z.to_nat (Z.of_nat W + 2 * Z.of_nat b)) with (W + 2 * b)%nat by lia.
    rewrite (zero_pad_assign hm H W b Hb Hrect). fold dr.
    cbv beta iota delta [bind].
    unfold Cv2.GaussianBlur. rewrite Hdr_h, Hdr_w.
    replace (Nat.eqb (H + 2 * b) 0) with false
      by (symmetry; apply Nat.eqb_neq; lia).
    replace (Nat.eqb (W + 2 * b) 0) with false
      by (symmetry; apply Nat.eqb_neq; lia).
    cbv beta iota delta [orb].
    replace (0 <? kernel)%Z with true by (symmetry; apply Z.ltb_lt; lia).
    rewrite Hodd. cbv beta iota delta [andb bind]. fold kern.
    rewrite (sepFilter2D_crop kern kern dr H W b Hb Hdr_h Hdr_w).
    rewrite (assign_channel_crop (A := nat)
               (fun y x => Cv2.filter_at kern kern dr (Z.of_nat y) (Z.of_nat x))).
    cbv beta iota delta [bind]. fold blurred.
    rewrite Hmax'. cbv beta iota delta [bind].
    replace (Qeq_bool new_max 0) with false; [reflexivity|].
    symmetry. destruct (Qeq_bool new_max 0) eqn:E; [|reflexivity].
    apply Qeq_bool_iff in E. rewrite E in Hnew_pos.
    exfalso. exact (Qlt_irrefl 0 Hnew_pos).
  - apply np_amax_scale; assumption.
  - apply Qmult_div_r. intro Hz. rewrite Hz in Hnew_pos.
    exact (Qlt_irrefl 0 Hnew_pos).
  - destruct Hrect' as [Hl Hr]. split; [rewrite length_map; exact Hl|].
    apply Forall_forall. intros r Hin. apply in_map_iff in Hin.
    destruct Hin as [r0 [<- Hr0]]. rewrite length_map.
    rewrite Forall_forall in Hr. apply Hr. exact Hr0.
Qed.

End Modulation.

Section ModulationBatch.
Context {Ext : External}.

Lemma in_cell {A : Type} (a : list (list A)) (row : list A) (x : A) :
  In row a -> In x row -> exists n k, cell a n k = Some x.
Proof.
  intros Hrow Hx.
  destruct (In_nth_error _ _ Hrow) as [n Hn].
  destruct (In_nth_error _ _ Hx) as [k Hk].
  exists n, k. unfold cell. rewrite Hn. exact Hk.
Qed.

(** C5, amended.  For an odd kernel size of at least 3 whose coefficients
    are those of a Gaussian (none negative, the middle one positive) and a
    batch of shape (N, K, H, W) whose channels hold no negative value and at
    least one positive value, [_gaussian_blur] returns, and for every
    (instance, channel) the largest value after modulation equals the
    largest value before. *)
Theorem gaussian_blur_keeps_peak :
  forall (heatmaps : batch) (N K H W : nat) (kernel : Z),
    has_shape N K H W heatmaps -> (0 < H)%nat -> (0 < W)%nat ->
    (3 <= kernel)%Z -> Z.odd kernel = true ->
    Spec.gaussian_like (Cv2.getGaussianKernel kernel) ->
    (forall n k hm, cell heatmaps n k = Some hm ->
       Spec.nonneg_channel hm /\ Spec.has_positive hm) ->
    exists out,
      TopDownEval._gaussian_blur heatmaps kernel = Ok out /\
      forall n k hm, cell heatmaps n k = Some hm ->
        exists hm' m m',
          cell out n k = Some hm' /\ rect H W hm' /\
          np_amax (concat hm) = Ok m /\
          np_amax (concat hm') = Ok m' /\
          m' == m.
Proof.
  intros heatmaps N K H W kernel Hshape HH HW Hk Hodd Hkern Hch.
  unfold TopDownEval._gaussian_blur.
  assert (Hmod : (kernel mod 2 =? 1)%Z = true).
  { apply Z.eqb_eq. rewrite Zmod_odd, Hodd. reflexivity. }
  rewrite Hmod. cbv beta iota delta [py_assert bind].
  assert (Hone : forall n k hm, cell heatmaps n k = Some hm ->
            exists hm' m m',
              TopDownEval.blur_channel kernel ((kernel - 1) / 2)
                (height heatmaps) (width heatmaps) hm = Ok hm' /\
              np_amax (concat hm) = Ok m /\
              np_amax (concat hm') = Ok m' /\ m' == m /\ rect H W hm').
  { intros n k hm Hcell.
    destruct (has_shape_width _ _ _ _ _ _ _ _ Hshape HH Hcell) as [Hw [Hh _]].
    rewrite Hw, Hh. destruct (Hch _ _ _ Hcell) as [Hnn Hpos].
    apply blur_channel_keeps_peak; try assumption.
    eapply has_shape_cell; eauto. }
  destruct (mapM_Ok (mapM (TopDownEval.blur_channel kernel ((kernel - 1) / 2)
                             (height heatmaps) (width heatmaps))) heatmaps)
    as [out Hout].
  { intros inst Hinst. apply mapM_Ok. intros hm Hhm.
    destruct (in_cell _ _ _ Hinst Hhm) as [n [k Hcell]].
    destruct (Hone _ _ _ Hcell) as [hm' [_ [_ [Hb _]]]].
    exists hm'. exact Hb. }
  exists out. split; [exact Hout|].
  intros n k hm Hcell.
  destruct (mapM2_cell _ _ _ _ _ _ Hout Hcell) as [hm' [Hcell' Hb]].
  destruct (Hone _ _ _ Hcell) as [hm'' [m [m' [Hb' [Hm [Hm' [Heq Hrect]]]]]]].
  rewrite Hb in Hb'. inversion Hb'; subst hm''.
  exists hm', m, m'.
  split; [exact Hcell'|]. split; [exact Hrect|].
  split; [exact Hm|]. split; [exact Hm' | exact Heq].
Qed.

End ModulationBatch.

(** C5 as stated fails.  A channel of zeros has pre-blur maximum 0, and the
    rescaling divides 0 by 0: numpy fills the channel with [nan], so the
    maximum afterwards is not the maximum before.  With the odd kernel
    size 1 the border is 0, [dr[0:-0, 0:-0]] is an empty slice, and the
    assignment into it raises. *)
Lemma gaussian_blur_loses_peak :
  @TopDownEval._gaussian_blur Samples.sample_external [[Samples.all_zero]] 3
    = NonFinite /\
  @TopDownEval._gaussian_blur Samples.sample_external [[Samples.one_hot]] 1
    = Raises ValueError.
Proof. split; vm_compute; reflexivity. Qed.

(** ** The Megvii codec *)

Section MegviiCodec.
Context {Ext : External}.

Lemma gaussian_blur_length (heatmaps blurred : list heatmap) (k : Megvii.ksize) :
  Megvii.gaussian_blur heatmaps k = Ok blurred ->
  length blurred = length heatmaps.
Proof.
  unfold Megvii.gaussian_blur. destruct k as [k|kx ky]; [|discriminate].
  intro Hb. apply bind_Ok in Hb. destruct Hb as [_ [_ Hm]].
  apply mapM_nth in Hm. apply Hm.
Qed.

Lemma get_heatmap_maximum_length (heatmaps : list heatmap)
    (locs : list (Q * Q)) (vals : list Q) :
  Megvii.get_heatmap_maximum heatmaps = Ok (locs, vals) ->
  length locs = length heatmaps /\ length vals = length heatmaps.
Proof.
  unfold Megvii.get_heatmap_maximum. intro Hm.
  apply bind_Ok in Hm. destruct Hm as [r [Hr Hok]].
  inversion Hok; subst. apply mapM_nth in Hr. destruct Hr as [Hlen _].
  rewrite !length_map. auto.
Qed.

Lemma mapM_Forall {A B : Type} (f : A -> outcome B) (P : B -> Prop)
    (l : list A) (bs : list B) :
  mapM f l = Ok bs ->
  (forall a b, In a l -> f a = Ok b -> P b) ->
  Forall P bs.
Proof.
  revert bs. induction l as [|a t IH]; intros bs Hm HP; simpl in Hm.
  - inversion Hm. constructor.
  - apply bind_Ok in Hm. destruct Hm as [b [Hb Hm]].
    apply bind_Ok in Hm. destruct Hm as [bs' [Hbs' Hm]].
    inversion Hm; subst. constructor.
    + apply (HP a); [left; reflexivity | exact Hb].
    + apply IH; [exact Hbs'|]. intros x y Hx. apply HP. right. exact Hx.
Qed.

Lemma decode_shift_returns (H W : nat) (hm : heatmap) (p : Q * Q) :
  rect H W hm ->
  exists q, Megvii.decode_shift (Z.of_nat W) (Z.of_nat H) hm p = Ok q.
Proof.
  intro Hrect. unfold Megvii.decode_shift.
  destruct ((1 <? py_int (fst p)) && (py_int (fst p) <? Z.of_nat W - 1)
            && (1 <? py_int (snd p)) && (py_int (snd p) <? Z.of_nat H - 1))%Z
    eqn:Eguard; [|eexists; reflexivity].
  repeat rewrite andb_true_iff in Eguard.
  destruct Eguard as [[[Hx1 Hx2] Hy1] Hy2].
  apply Z.ltb_lt in Hx1, Hx2, Hy1, Hy2.
  repeat (rewrite (py_index2_rect H W) by (try exact Hrect; lia);
          cbv beta iota delta [bind]).
  eexists. reflexivity.
Qed.

(** [decode] returns on heatmaps that modulation can rescale. *)
Lemma decode_returns (self : Megvii.MegviiHeatmap) (encoded : list heatmap)
    (k : Z) (H W : nat) :
  Megvii.kernel_size self = Megvii.KInt k ->
  (3 <= k)%Z -> Z.odd k = true ->
  Spec.gaussian_like (Cv2.getGaussianKernel k) ->
  (0 < H)%nat -> (0 < W)%nat ->
  Forall (fun hm => rect H W hm /\ Spec.nonneg_channel hm /\
                    Spec.has_positive hm) encoded ->
  exists keypoints scores, Megvii.decode self encoded = Ok (keypoints, scores).
Proof.
  intros Hk Hk3 Hodd Hkern HH HW Hall.
  unfold Megvii.decode, Megvii.gaussian_blur. rewrite Hk.
  replace (k mod 2 =? 1)%Z with true
    by (symmetry; apply Z.eqb_eq; rewrite Zmod_odd, Hodd; reflexivity).
  cbv beta iota delta [py_assert bind].
  destruct encoded as [|hm0 rest].
  { cbn. eexists _, _. reflexivity. }
  assert (Hdims : length (hd [] (hm0 :: rest)) = H /\
                  length (hd [] (hd [] (hm0 :: rest))) = W).
  { inversion Hall as [|? ? [Hr0 _] _]. cbn [hd].
    split; [apply Hr0 | apply (rect_hd_width H W); assumption]. }
  destruct Hdims as [HdH HdW]. rewrite HdH, HdW.
  rewrite Forall_forall in Hall.
  destruct (mapM_Ok (TopDownEval.blur_channel k ((k - 1) / 2) H W)
                    (hm0 :: rest)) as [heatmaps Hblur].
  { intros hm Hin. destruct (Hall hm Hin) as [Hrect [Hnn Hpos]].
    destruct (blur_channel_keeps_peak k H W hm Hk3 Hodd Hkern Hrect Hnn Hpos)
      as [hm' [_ [_ [Hb _]]]].
    exists hm'. exact Hb. }
  rewrite Hblur. cbv beta iota delta [bind].
  assert (Hrects : Forall (rect H W) heatmaps).
  { apply (mapM_Forall _ _ _ _ Hblur). intros hm hm' Hin Hb.
    destruct (Hall hm Hin) as [Hrect [Hnn Hpos]].
    destruct (blur_channel_keeps_peak k H W hm Hk3 Hodd Hkern Hrect Hnn Hpos)
      as [hm'' [_ [_ [Hb' [_ [_ [_ Hrect']]]]]]].
    rewrite Hb in Hb'. inversion Hb'; subst hm''. exact Hrect'. }
  assert (Hlen : length heatmaps = S (length rest)).
  { destruct (mapM_nth _ _ _ Hblur) as [Hl _]. exact Hl. }
  destruct heatmaps as [|h0 hs]; [discriminate|].
  assert (Hdims' : length (hd [] (h0 :: hs)) = H /\
                   length (hd [] (hd [] (h0 :: hs))) = W).
  { inversion Hrects as [|? ? Hr0 _]. cbn [hd].
    split; [apply Hr0 | apply (rect_hd_width H W); assumption]. }
  destruct Hdims' as [HdH' HdW']. rewrite HdH', HdW'.
  rewrite Forall_forall in Hrects.
  unfold Megvii.get_heatmap_maximum. rewrite HdW'.
  destruct (mapM_Ok (Megvii.channel_maximum (Z.of_nat W)) (h0 :: hs))
    as [r Hr].
  { intros hm Hin.
    destruct (np_argmax_amax (concat hm)) as [idx [Harg [Hmax _]]].
    - apply (rect_concat_nonempty H W); [apply Hrects; exact Hin | lia | lia].
    - unfold Megvii.channel_maximum. rewrite Harg, Hmax.
      eexists. reflexivity. }
  rewrite Hr. cbv beta iota delta [bind].
  destruct (mapM_Ok (fun '(heatmap, p) =>
              Megvii.decode_shift (Z.of_nat W) (Z.of_nat H) heatmap p)
            (combine (h0 :: hs) (map fst r))) as [shifted Hshift].
  { intros [hm p] Hin. apply in_combine_l in Hin.
    apply decode_shift_returns. apply Hrects. exact Hin. }
  rewrite Hshift. cbv beta iota delta [bind].
  eexists _, _. reflexivity.
Qed.

(** C8.  Whenever [decode] returns, its second output is the first one with
    one more leading axis, [keypoints[None]] taken after [keypoints] had
    itself become [keypoints[None]]: the keypoint coordinates, of shape
    (1, 1, K, 2).  It is not an array of K confidences, whatever their
    values: the values [scores / 255.0 + 0.5] are computed and dropped.
    And [decode] does return on K heatmaps of one shape that hold no
    negative and some positive value, for an odd kernel size of at least 3
    with Gaussian coefficients. *)
Theorem decode_scores_are_keypoints :
  forall (self : Megvii.MegviiHeatmap) (encoded : list heatmap),
    (forall keypoints scores : ndarray,
       Megvii.decode self encoded = Ok (keypoints, scores) ->
       scores = add_axis keypoints /\
       shape keypoints = [1; length encoded; 2]%nat /\
       shape scores = [1; 1; length encoded; 2]%nat /\
       shape scores <> [length encoded] /\
       (forall confidences : list Q,
           scores <> of_values confidences /\
           scores <> add_axis (of_values confidences))) /\
    (forall (k : Z) (H W : nat),
       Megvii.kernel_size self = Megvii.KInt k ->
       (3 <= k)%Z -> Z.odd k = true ->
       Spec.gaussian_like (Cv2.getGaussianKernel k) ->
       (0 < H)%nat -> (0 < W)%nat ->
       Forall (fun hm => rect H W hm /\ Spec.nonneg_channel hm /\
                         Spec.has_positive hm) encoded ->
       exists keypoints scores,
         Megvii.decode self encoded = Ok (keypoints, scores)).
Proof.
  intros self encoded. split; [|apply decode_returns].
  intros keypoints scores Hdec.
  unfold Megvii.decode in Hdec.
  apply bind_Ok in Hdec. destruct Hdec as [heatmaps [Hblur Hdec]].
  apply bind_Ok in Hdec. destruct Hdec as [[locs vals] [Hmax Hdec]].
  apply bind_Ok in Hdec. destruct Hdec as [shifted [Hshift Hdec]].
  inversion Hdec; subst keypoints scores. clear Hdec.
  apply gaussian_blur_length in Hblur.
  apply get_heatmap_maximum_length in Hmax. destruct Hmax as [Hlocs _].
  apply mapM_nth in Hshift. destruct Hshift as [Hlen _].
  rewrite length_combine in Hlen.
  assert (HK : length shifted = length encoded) by lia.
  split; [reflexivity|].
  split; [simpl; rewrite HK; reflexivity|].
  split; [simpl; rewrite HK; reflexivity|].
  split; [simpl; discriminate|].
  intro confidences. split; intro Heq.
  - apply (f_equal shape) in Heq. simpl in Heq. discriminate.
  - apply (f_equal shape) in Heq. simpl in Heq. discriminate.
Qed.

Lemma decode_pair_raises (self : Megvii.MegviiHeatmap) (ks_x ks_y : Z)
    (heatmaps : list heatmap) :
  Megvii.kernel_size self = Megvii.KPair ks_x ks_y ->
  Megvii.decode self heatmaps = Raises TypeError.
Proof.
  intro Hk. unfold Megvii.decode. rewrite Hk. reflexivity.
Qed.

Lemma Qeq_bool_inject_nonzero (z : Z) : z <> 0%Z -> Qeq_bool (inject_Z z) 0 = false.
Proof.
  intro Hz. destruct (Qeq_bool (inject_Z z) 0) eqn:E; [|reflexivity].
  apply Qeq_bool_iff in E. unfold Qeq in E. simpl in E. lia.
Qed.

Lemma Qeq_bool_div_nonzero (a b : Z) :
  a <> 0%Z -> b <> 0%Z -> Qeq_bool (inject_Z a / inject_Z b) 0 = false.
Proof.
  intros Ha Hb. destruct (Qeq_bool (inject_Z a / inject_Z b) 0) eqn:E;
    [|reflexivity].
  apply Qeq_bool_iff in E. exfalso.
  assert (Hb' : ~ inject_Z b == 0)
    by (intro Hz; unfold Qeq in Hz; simpl in Hz; lia).
  assert (Ha' : inject_Z a == 0).
  { rewrite <- (Qmult_div_r (inject_Z a) (inject_Z b)) by exact Hb'.
    rewrite E. ring. }
  unfold Qeq in Ha'. simpl in Ha'. lia.
Qed.

Lemma encode_int_raises (self : Megvii.MegviiHeatmap) (k : Z)
    (keypoint : Q * Q) (visible : Q) :
  Megvii.kernel_size self = Megvii.KInt k ->
  ~ visible < 1#2 ->
  fst (Megvii.input_size self) <> 0%Z ->
  snd (Megvii.input_size self) <> 0%Z ->
  Spec.in_grid self keypoint ->
  Megvii.encode self [[keypoint]] [[visible]] = Raises Cv2Error.
Proof.
  intros Hk Hvis Hw Hh [[Hx0 Hx1] [Hy0 Hy1]].
  unfold Megvii.encode, Megvii.encode_channel.
  destruct (Megvii.heatmap_size self) as [W Hgt] eqn:Ehs.
  destruct (Megvii.input_size self) as [w h] eqn:Eis.
  simpl fst in *. simpl snd in *.
  cbv beta iota delta [length hd Nat.eqb py_assert bind].
  unfold Megvii.div_or_nonfinite at 1 2.
  rewrite !Qeq_bool_inject_nonzero by lia.
  cbv beta iota delta [bind].
  replace ((Hgt <? 0) || (W <? 0))%Z with false
    by (symmetry; apply orb_false_iff; split; apply Z.ltb_ge; lia).
  cbv beta iota delta [bind].
  simpl seq. simpl map. cbv beta iota delta [mapM].
  change (py_index [[visible]] 0) with (Ok [visible]).
  change (py_index [[keypoint]] 0) with (Ok [keypoint]).
  cbv beta iota delta [bind].
  change (py_index [visible] 0) with (Ok visible).
  change (py_index [keypoint] 0) with (Ok keypoint).
  cbv beta iota delta [bind].
  replace (Qltb visible (1#2)) with false
    by (symmetry; apply Qltb_false; apply Qnot_lt_le; exact Hvis).
  unfold Megvii.div_or_nonfinite.
  simpl fst. simpl snd.
  rewrite !Qeq_bool_div_nonzero by lia.
  cbv beta iota delta [bind].
  replace (_ || _ || _ || _)%bool with false.
  - rewrite Hk. reflexivity.
  - symmetry. repeat rewrite orb_false_iff.
    repeat split; first [apply Z.ltb_ge | apply Z.leb_gt]; lia.
Qed.

(** C9 fails on the code: the round trip never returns for a single visible
    keypoint inside the grid.  With an [int] kernel size, the type
    [__init__] declares, [encode] hands the bare number to
    [cv2.GaussianBlur], which takes a pair, and raises; with a pair, as the
    docstring says, [decode] hands the pair to [gaussian_blur], which
    computes with it as a number, and raises. *)
Theorem roundtrip_never_returns :
  forall (self : Megvii.MegviiHeatmap) (keypoint : Q * Q) (visible : Q),
    ~ visible < 1#2 ->
    fst (Megvii.input_size self) <> 0%Z ->
    snd (Megvii.input_size self) <> 0%Z ->
    Spec.in_grid self keypoint ->
    (forall k, Megvii.kernel_size self = Megvii.KInt k ->
       Megvii.encode self [[keypoint]] [[visible]] = Raises Cv2Error) /\
    (forall ks_x ks_y heatmaps,
       Megvii.kernel_size self = Megvii.KPair ks_x ks_y ->
       Megvii.decode self heatmaps = Raises TypeError) /\
    (forall r,
       Megvii.encode_then_decode self [[keypoint]] [[visible]] <> Ok r).
Proof.
  intros self keypoint visible Hvis Hw Hh Hgrid.
  split; [|split].
  - intros k Hk. apply (encode_int_raises self k); assumption.
  - intros ks_x ks_y heatmaps Hk. eapply decode_pair_raises; exact Hk.
  - intros r Hr. unfold Megvii.encode_then_decode in Hr.
    apply bind_Ok in Hr. destruct Hr as [[heatmaps weights] [Henc Hdec]].
    destruct (Megvii.kernel_size self) as [k|ks_x ks_y] eqn:Ek.
    + rewrite (encode_int_raises self k) in Henc by assumption. discriminate.
    + rewrite (decode_pair_raises self ks_x ks_y) in Hdec by assumption.
      discriminate.
Qed.

End MegviiCodec.

(** ** What keypoints_from_heatmaps does to its argument *)

Section Frame.
Context {Ext : External}.

Lemma finish_after (W H : Z) (use_udp : bool) (p : points) (m : list (list Q))
    (after : batch) (center scale : list (Q * Q)) (d : TopDownEval.decoded) :
  (p' <- TopDownEval.transform_back W H use_udp p center scale ;;
   Ok {| TopDownEval.preds := p'; TopDownEval.maxvals := m;
         TopDownEval.heatmaps_after := after |}) = Ok d ->
  TopDownEval.heatmaps_after d = after.
Proof.
  intro Hd. apply bind_Ok in Hd. destruct Hd as [p' [_ Hd]].
  inversion Hd. reflexivity.
Qed.

End Frame.

(** C6.  [keypoints_from_heatmaps] writes into the array it is given.  On a
    batch of one 5 x 5 channel with a single 1 in the middle: after a call
    in the unbiased branch (kernel 3) the caller's array holds the modulated
    heatmap that [_gaussian_blur] wrote into it, and after a call in the DARK
    branch (UDP with Gaussian heatmaps) it holds the heatmap that [post_dark]
    blurred in place, so a second call on the same array is given other
    values than the first.  The CombinedTarget branch takes a copy first;
    these two do not. *)
Theorem decode_overwrites_heatmaps :
  (exists d,
     @TopDownEval.keypoints_from_heatmaps Samples.sample_external
       [[Samples.one_hot]] [(0, 0)] [(1, 1)] true true 3 (7#2) false
       "GaussianHeatMap"
     = Ok d /\
     map (map (map (map Qred))) (TopDownEval.heatmaps_after d)
     = [[[[0; 0; 0; 0; 0]; [0; 1#4; 1#2; 1#4; 0]; [0; 1#2; 1; 1#2; 0];
          [0; 1#4; 1#2; 1#4; 0]; [0; 0; 0; 0; 0]]]]) /\
  (exists d,
     @TopDownEval.keypoints_from_heatmaps Samples.sample_external
       [[Samples.one_hot]] [(0, 0)] [(1, 1)] true false 3 (7#2) true
       "GaussianHeatMap"
     = Ok d /\
     map (map (map (map Qred))) (TopDownEval.heatmaps_after d)
     = [[[[0; 0; 0; 0; 0]; [0; 1#16; 1#8; 1#16; 0]; [0; 1#8; 1#4; 1#8; 0];
          [0; 1#16; 1#8; 1#16; 0]; [0; 0; 0; 0; 0]]]]).
Proof.
  split; eexists; (split; [vm_compute; reflexivity | vm_compute; reflexivity]).
Qed.

(** ** post_dark reads instance 0 *)

Section Dark.
Context {Ext : External}.

Lemma mapM_ext {A B : Type} (f g : A -> outcome B) (l : list A) :
  (forall a, f a = g a) -> mapM f l = mapM g l.
Proof.
  intro Hfg. induction l as [|a t IH]; [reflexivity|].
  simpl. rewrite Hfg, IH. reflexivity.
Qed.

Lemma py_index_head {A : Type} (a : A) (l : list A) : py_index (a :: l) 0 = Ok a.
Proof.
  unfold py_index. cbn [length Z.ltb Z.compare Z.leb].
  replace (0 <? Z.of_nat (S (length l)))%Z with true
    by (symmetry; apply Z.ltb_lt; lia).
  reflexivity.
Qed.

Lemma blur_step_cons (i0 : list heatmap) (rest : batch) (j : nat) :
  (mapij <- channel_get (i0 :: rest) 0 (Z.of_nat j) ;;
   mapij' <- Cv2.GaussianBlur mapij 3 3 ;;
   channel_set (i0 :: rest) 0 j mapij')
  = (i <- Spec.blur_first_step i0 j ;; Ok (i :: rest)).
Proof.
  unfold channel_get, channel_set, Spec.blur_first_step.
  rewrite py_index_head. cbn [bind nth_error].
  destruct (py_index i0 (Z.of_nat j)) as [mapij| |]; cbn [bind]; try reflexivity.
  destruct (Cv2.GaussianBlur mapij 3 3) as [mapij'| |]; cbn [bind];
    try reflexivity.
  destruct (Nat.ltb j (length i0)); reflexivity.
Qed.

Lemma blur_inner_cons (js : list nat) (i0 : list heatmap) (rest : batch) :
  foldM (fun b j =>
           mapij <- channel_get b 0 (Z.of_nat j) ;;
           mapij' <- Cv2.GaussianBlur mapij 3 3 ;;
           channel_set b 0 j mapij') js (i0 :: rest)
  = (i <- foldM Spec.blur_first_step js i0 ;; Ok (i :: rest)).
Proof.
  revert i0. induction js as [|j t IH]; intro i0; [reflexivity|].
  cbn [foldM]. rewrite blur_step_cons.
  destruct (Spec.blur_first_step i0 j) as [i1| |]; cbn [bind]; try reflexivity.
  apply IH.
Qed.

Lemma blur_loop_cons (N K : nat) (i0 : list heatmap) (rest : batch) :
  TopDownEval.blur_loop N K (i0 :: rest)
  = (i <- Spec.blur_first N K i0 ;; Ok (i :: rest)).
Proof.
  unfold TopDownEval.blur_loop, Spec.blur_first.
  generalize (seq 0 N) as ns. intro ns. revert i0.
  induction ns as [|n t IH]; intro i0; [reflexivity|].
  cbn [foldM]. rewrite blur_inner_cons.
  destruct (foldM Spec.blur_first_step (seq 0 K) i0) as [i1| |]; cbn [bind];
    try reflexivity.
  apply IH.
Qed.

Lemma dark_samples_first (p0 : list heatmap) (r r' : batch) (j : Z) (c : Z * Z) :
  TopDownEval.dark_samples (p0 :: r) j c
  = TopDownEval.dark_samples (p0 :: r') j c.
Proof.
  unfold TopDownEval.dark_samples, channel_get.
  rewrite !py_index_head. reflexivity.
Qed.

Lemma all_samples_first (p0 : list heatmap) (r r' : batch)
    (icoords : list (list (Z * Z))) :
  mapM (fun row => mapM (fun '(j, c) =>
          TopDownEval.dark_samples (p0 :: r) j c) (indexed row)) icoords
  = mapM (fun row => mapM (fun '(j, c) =>
          TopDownEval.dark_samples (p0 :: r') j c) (indexed row)) icoords.
Proof.
  apply mapM_ext. intro row. apply mapM_ext. intros [j c].
  apply dark_samples_first.
Qed.

(** The refined coordinates of every instance are computed from the
    heatmaps of instance 0: two batches of one size that share their first
    instance give the same refinement for the same coordinates, whatever
    the other instances hold. *)
Lemma post_dark_reads_first_instance (coords : points) (i0 : list heatmap)
    (rest rest' : batch) :
  length rest = length rest' ->
  fmap fst (TopDownEval.post_dark coords (i0 :: rest))
  = fmap fst (TopDownEval.post_dark coords (i0 :: rest')).
Proof.
  intro Hlen. unfold TopDownEval.post_dark.
  rewrite !blur_loop_cons. unfold num_joints. cbn [length hd].
  rewrite <- Hlen.
  destruct (Spec.blur_first (S (length rest)) (length i0) i0) as [i1| |];
    cbn [bind fmap]; try reflexivity.
  cbn [map].
  rewrite (all_samples_first _ _
             (map (map TopDownEval.pad_edge)
                (map (map (map (map (fun v =>
                   np_log (TopDownEval.np_clip (1#1000) 50 v))))) rest'))).
  destruct (mapM _ _) as [samples| |]; cbn [bind fmap]; try reflexivity.
  destruct (mapM _ samples) as [inv| |]; cbn [bind fmap]; reflexivity.
Qed.

(** *** Two runs that differ in instance 0 only *)

Lemma map4_compose (f g : Q -> Q) (b : batch) :
  map (map (map (map (fun v => f (g v))))) b
  = map (map (map (map f))) (map (map (map (map g))) b).
Proof.
  rewrite map_map. apply map_ext. intro i.
  rewrite map_map. apply map_ext. intro c.
  rewrite map_map. apply map_ext. intro r.
  rewrite map_map. reflexivity.
Qed.

(** Where all seven samples agree, the Newton step is zero. *)
Lemma flat_refinement (b : Q) (c : Z * Z) :
  exists inv,
    TopDownEval.dark_inv_hessian
      (TopDownEval.dark_hessian (b, b, b, b, b, b, b)) = Ok inv /\
    fst (TopDownEval.dark_shift c inv
           (TopDownEval.dark_derivative (b, b, b, b, b, b, b)))
      == inject_Z (fst c) /\
    snd (TopDownEval.dark_shift c inv
           (TopDownEval.dark_derivative (b, b, b, b, b, b, b)))
      == inject_Z (snd c).
Proof.
  unfold TopDownEval.dark_inv_hessian, TopDownEval.dark_hessian, np_linalg_inv2.
  match goal with |- context [Qeq_bool ?d 0] => set (det := d) end.
  assert (Hdet : det == (1#100000000) * (1#100000000)) by (unfold det; ring).
  assert (Hnz : Qeq_bool det 0 = false).
  { destruct (Qeq_bool det 0) eqn:E; [|reflexivity].
    apply Qeq_bool_iff in E. rewrite Hdet in E. discriminate. }
  rewrite Hnz. eexists. split; [reflexivity|].
  assert (Hdet' : ~ det == 0) by (apply Qeq_bool_neq; exact Hnz).
  unfold TopDownEval.dark_shift, TopDownEval.dark_derivative. cbn [fst snd].
  split; field; exact Hdet'.
Qed.

(** Where the sample to the left differs from the others, the Newton step
    moves x. *)
Lemma step_refinement (a b : Q) (inv : Q * Q * Q * Q) :
  ~ b == a ->
  TopDownEval.dark_inv_hessian
    (TopDownEval.dark_hessian (b, b, a, b, b, b, a)) = Ok inv ->
  ~ fst (TopDownEval.dark_shift (1%Z, 1%Z) inv
           (TopDownEval.dark_derivative (b, b, a, b, b, b, a))) == 1.
Proof.
  intros Hab.
  unfold TopDownEval.dark_inv_hessian, TopDownEval.dark_hessian, np_linalg_inv2.
  match goal with |- context [Qeq_bool ?d 0] => set (det := d) end.
  destruct (Qeq_bool det 0) eqn:Hnz; [discriminate|].
  intro Hinv. inversion Hinv; subst inv. clear Hinv.
  assert (Hdet' : ~ det == 0) by (apply Qeq_bool_neq; exact Hnz).
  unfold TopDownEval.dark_shift, TopDownEval.dark_derivative. cbn [fst snd].
  intro Heq. apply Hab.
  match type of Heq with inject_Z 1 - ?s == 1 =>
    assert (Hs : s == 0) by (unfold inject_Z in Heq; lra);
    assert (Hba : b - a == s * det * 2 * 100000000)
      by (unfold det; field; exact Hdet')
  end.
  rewrite Hs in Hba. lra.
Qed.

Lemma inv_hessian_cases (h : Q * Q * Q) :
  TopDownEval.dark_inv_hessian h = Raises LinAlgError \/
  exists inv, TopDownEval.dark_inv_hessian h = Ok inv.
Proof.
  destruct h as [[dxx dxy] dyy].
  unfold TopDownEval.dark_inv_hessian, np_linalg_inv2.
  destruct (Qeq_bool _ 0); [left; reflexivity | right; eexists; reflexivity].
Qed.

Lemma dark_A_run :
  exists rA hA pA,
    TopDownEval.post_dark [[(0, 0)]; [(1, 1)]] Samples.dark_A = Ok (rA, hA) /\
    cell rA 1 0 = Some pA /\ fst pA == 1 /\ snd pA == 1.
Proof.
  assert (Hb : fmap (map (map (map (map (TopDownEval.np_clip (1#1000) 50)))))
                 (TopDownEval.blur_loop (length Samples.dark_A)
                    (num_joints Samples.dark_A) Samples.dark_A)
               = Ok [[[[50; 50; 50; 50; 50; 50; 50];
                       [50; 50; 50; 50; 50; 50; 50];
                       [50; 50; 50; 50; 50; 50; 50]]];
                     [[[1#1000; 1#1000; 1#1000; 1#1000; 1#1000; 1#1000; 1#1000];
                       [1#1000; 1; 1#1000; 1#1000; 1#1000; 1#1000; 1#1000];
                       [1#1000; 1#1000; 1#1000; 1#1000; 1#1000; 1#1000; 1#1000]]]])
    by (vm_compute; reflexivity).
  unfold TopDownEval.post_dark.
  destruct (TopDownEval.blur_loop (length Samples.dark_A)
              (num_joints Samples.dark_A) Samples.dark_A) as [blurred| |];
    try discriminate.
  cbn [fmap] in Hb. injection Hb as Hb.
  cbn [bind]. rewrite map4_compose, Hb. clear Hb.
  cbn [map].
  set (a := np_log (1#1000)) in *. set (b := np_log 50) in *.
  set (c := np_log 1). clearbody a b c.
  match goal with |- context [mapM ?F (?x :: ?y)] =>
    assert (Hs : mapM F (x :: y)
                 = Ok [[(b, b, b, b, b, b, b)]; [(b, b, b, b, b, b, b)]])
      by (vm_compute; reflexivity)
  end.
  rewrite Hs. clear Hs. cbn [bind mapM].
  destruct (flat_refinement b (1%Z, 1%Z)) as [inv [Hinv [Hx Hy]]].
  rewrite Hinv. cbn [bind].
  eexists _, _, _. split; [reflexivity|].
  cbn [map combine cell nth_error]. split; [reflexivity|].
  change (py_int (fst (1, 1))) with 1%Z.
  change (py_int (snd (1, 1))) with 1%Z.
  split; [exact Hx | exact Hy].
Qed.

Lemma dark_B_run :
  ~ np_log 50 == np_log (1#1000) ->
  TopDownEval.post_dark [[(3, 0)]; [(1, 1)]] Samples.dark_B
    = Raises LinAlgError \/
  exists rB hB pB,
    TopDownEval.post_dark [[(3, 0)]; [(1, 1)]] Samples.dark_B = Ok (rB, hB) /\
    cell rB 1 0 = Some pB /\ ~ fst pB == 1.
Proof.
  intros Hlog.
  assert (Hb : fmap (map (map (map (map (TopDownEval.np_clip (1#1000) 50)))))
                 (TopDownEval.blur_loop (length Samples.dark_B)
                    (num_joints Samples.dark_B) Samples.dark_B)
               = Ok [[[[1#1000; 50; 50; 50; 50; 50; 50];
                       [1#1000; 50; 50; 50; 50; 50; 50];
                       [1#1000; 50; 50; 50; 50; 50; 50]]];
                     [[[1#1000; 1#1000; 1#1000; 1#1000; 1#1000; 1#1000; 1#1000];
                       [1#1000; 1; 1#1000; 1#1000; 1#1000; 1#1000; 1#1000];
                       [1#1000; 1#1000; 1#1000; 1#1000; 1#1000; 1#1000; 1#1000]]]])
    by (vm_compute; reflexivity).
  unfold TopDownEval.post_dark.
  destruct (TopDownEval.blur_loop (length Samples.dark_B)
              (num_joints Samples.dark_B) Samples.dark_B) as [blurred| |];
    try discriminate.
  cbn [fmap] in Hb. injection Hb as Hb.
  cbn [bind]. rewrite map4_compose, Hb. clear Hb.
  cbn [map].
  set (a := np_log (1#1000)) in *. set (b := np_log 50) in *.
  set (c := np_log 1). clearbody a b c.
  match goal with |- context [mapM ?F (?x :: ?y)] =>
    assert (Hs : mapM F (x :: y)
                 = Ok [[(b, b, b, b, b, b, b)]; [(b, b, a, b, b, b, a)]])
      by (vm_compute; reflexivity)
  end.
  rewrite Hs. clear Hs. cbn [bind mapM].
  destruct (flat_refinement b (3%Z, 0%Z)) as [inv0 [Hinv0 _]].
  rewrite Hinv0. cbn [bind].
  destruct (inv_hessian_cases (TopDownEval.dark_hessian (b, b, a, b, b, b, a)))
    as [Hraise | [inv1 Hinv1]].
  - left. rewrite Hraise. reflexivity.
  - right. rewrite Hinv1. cbn [bind].
    eexists _, _, _. split; [reflexivity|].
    cbn [map combine cell nth_error]. split; [reflexivity|].
    change (py_int (fst (1, 1))) with 1%Z.
    change (py_int (snd (1, 1))) with 1%Z.
    exact (step_refinement a b inv1 Hlog Hinv1).
Qed.

(** C1 fails on the code.  The two batches [dark_A] and [dark_B] hold the
    same instance 1, whose peak [_get_max_preds] finds at (1, 1) in both, and
    differ in instance 0 only.  [post_dark] samples the neighbourhood of
    every peak in instance 0 ([batch_heatmaps_pad[0, j, ...]]): with the flat
    instance 0 of [dark_A] it leaves instance 1 at (1, 1); with the step in
    instance 0 of [dark_B] it raises or moves the x of instance 1, as soon
    as the logarithm tells 50 from 0.001. *)
Theorem dark_reads_other_instance :
  ~ np_log 50 == np_log (1#1000) ->
  nth 1 Samples.dark_A [] = nth 1 Samples.dark_B [] /\
  TopDownEval._get_max_preds Samples.dark_A
    = Ok ([[(0, 0)]; [(1, 1)]], [[1600]; [1]]) /\
  TopDownEval._get_max_preds Samples.dark_B
    = Ok ([[(3, 0)]; [(1, 1)]], [[1600]; [1]]) /\
  (exists rA hA pA,
     TopDownEval.post_dark [[(0, 0)]; [(1, 1)]] Samples.dark_A = Ok (rA, hA) /\
     cell rA 1 0 = Some pA /\ fst pA == 1 /\ snd pA == 1) /\
  (TopDownEval.post_dark [[(3, 0)]; [(1, 1)]] Samples.dark_B
     = Raises LinAlgError \/
   exists rB hB pB,
     TopDownEval.post_dark [[(3, 0)]; [(1, 1)]] Samples.dark_B = Ok (rB, hB) /\
     cell rB 1 0 = Some pB /\ ~ fst pB == 1).
Proof.
  intro Hlog.
  split; [reflexivity|].
  split; [vm_compute; reflexivity|].
  split; [vm_compute; reflexivity|].
  split; [exact dark_A_run | exact (dark_B_run Hlog)].
Qed.

End Dark.

(* ================================================================== *)
(** * Further properties of the metrics *)
(* ================================================================== *)

(** ** The scatter of _calc_distances *)

Section Scatter.
Context {Ext : External}.

Lemma put_row_length (ms : list bool) (values : list npfloat) :
  length (fst (TopDownEval.put_row ms values)) = length ms.
Proof.
  revert values. induction ms as [|m t IH]; intro values; simpl; [reflexivity|].
  destruct m.
  - specialize (IH (tl values)). destruct (TopDownEval.put_row t (tl values)).
    simpl in *. congruence.
  - specialize (IH values). destruct (TopDownEval.put_row t values).
    simpl in *. congruence.
Qed.

Lemma put_row_rest (ms : list bool) (values : list npfloat) :
  snd (TopDownEval.put_row ms values) = skipn (Spec.count_true ms) values.
Proof.
  revert values. induction ms as [|m t IH]; intro values; simpl; [reflexivity|].
  destruct m.
  - specialize (IH (tl values)). destruct (TopDownEval.put_row t (tl values)).
    simpl in *. rewrite IH. unfold Spec.count_true. simpl.
    destruct values; simpl; [rewrite skipn_nil|]; reflexivity.
  - specialize (IH values). destruct (TopDownEval.put_row t values).
    simpl in *. exact IH.
Qed.

Lemma put_row_select (ms : list bool) (values : list npfloat) :
  (Spec.count_true ms <= length values)%nat ->
  Spec.select ms (fst (TopDownEval.put_row ms values))
  = firstn (Spec.count_true ms) values.
Proof.
  revert values. induction ms as [|m t IH]; intros values Hc; simpl; [reflexivity|].
  destruct m.
  - unfold Spec.count_true in Hc. simpl in Hc.
    destruct values as [|v vs]; [simpl in Hc; lia|].
    specialize (IH vs). simpl tl. destruct (TopDownEval.put_row t vs).
    simpl in *. rewrite IH by (unfold Spec.count_true; lia). reflexivity.
  - specialize (IH values Hc). destruct (TopDownEval.put_row t values).
    simpl in *. exact IH.
Qed.

Lemma put_row_false (ms : list bool) (values : list npfloat) (i : nat) :
  nth_error ms i = Some false ->
  nth_error (fst (TopDownEval.put_row ms values)) i = Some (Fin (-1)).
Proof.
  revert values i. induction ms as [|m t IH]; intros values i Hi.
  - destruct i; discriminate.
  - simpl. destruct m.
    + destruct i as [|i]; [discriminate|]. simpl in Hi.
      specialize (IH (tl values) i Hi).
      destruct (TopDownEval.put_row t (tl values)). exact IH.
    + destruct i as [|i].
      * destruct (TopDownEval.put_row t values). reflexivity.
      * simpl in Hi. specialize (IH values i Hi).
        destruct (TopDownEval.put_row t values). exact IH.
Qed.

(** A cell of the result holds the sentinel or one of the gathered values. *)
Lemma put_row_members (ms : list bool) (values : list npfloat) :
  Forall (fun d => d = Fin (-1) \/ In d values)
         (fst (TopDownEval.put_row ms values)).
Proof.
  revert values. induction ms as [|m t IH]; intro values; simpl; [constructor|].
  destruct m.
  - specialize (IH (tl values)). destruct (TopDownEval.put_row t (tl values)).
    simpl in *. constructor.
    + destruct values; simpl; [left; reflexivity | right; left; reflexivity].
    + eapply Forall_impl; [|exact IH]. intros d [Hd|Hd]; [left; exact Hd|].
      right. destruct values; [contradiction | right; exact Hd].
  - specialize (IH values). destruct (TopDownEval.put_row t values).
    simpl in *. constructor; [left; reflexivity | exact IH].
Qed.

Lemma put_rows_cons (ms : list bool) (t : list (list bool))
    (values : list npfloat) :
  TopDownEval.put_rows (ms :: t) values
  = fst (TopDownEval.put_row ms values)
    :: TopDownEval.put_rows t (skipn (Spec.count_true ms) values).
Proof.
  simpl. rewrite <- put_row_rest.
  destruct (TopDownEval.put_row ms values). reflexivity.
Qed.

Lemma put_rows_length (mask_T : list (list bool)) (values : list npfloat) :
  length (TopDownEval.put_rows mask_T values) = length mask_T.
Proof.
  revert values. induction mask_T as [|ms t IH]; intro values; [reflexivity|].
  rewrite put_rows_cons. simpl. rewrite IH. reflexivity.
Qed.

Lemma put_rows_shape (mask_T : list (list bool)) (values : list npfloat)
    (n : nat) :
  Forall (fun ms => length ms = n) mask_T ->
  Spec.table (length mask_T) n (TopDownEval.put_rows mask_T values).
Proof.
  intro Hall. split; [apply put_rows_length|]. revert values.
  induction Hall as [|ms t Hms _ IH]; intro values; [constructor|].
  rewrite put_rows_cons.
  constructor; [rewrite put_row_length; exact Hms | apply IH].
Qed.

Lemma put_rows_false (mask_T : list (list bool)) (values : list npfloat)
    (k n : nat) :
  cell mask_T k n = Some false ->
  cell (TopDownEval.put_rows mask_T values) k n = Some (Fin (-1)).
Proof.
  revert values k. induction mask_T as [|ms t IH]; intros values k Hc.
  - destruct k; discriminate.
  - rewrite put_rows_cons. destruct k as [|k].
    + unfold cell in *. simpl in *. apply put_row_false. exact Hc.
    + unfold cell in *. simpl in *. apply IH. exact Hc.
Qed.

Lemma put_rows_members (mask_T : list (list bool)) (values : list npfloat) :
  Forall (Forall (fun d => d = Fin (-1) \/ In d values))
         (TopDownEval.put_rows mask_T values).
Proof.
  revert values. induction mask_T as [|ms t IH]; intro values.
  - constructor.
  - rewrite put_rows_cons. constructor; [apply put_row_members|].
    eapply Forall_impl; [|apply IH]. intros row Hrow.
    eapply Forall_impl; [|exact Hrow]. intros d [Hd|Hd]; [left; exact Hd|].
    right. revert Hd. generalize (Spec.count_true ms). intros c Hd.
    rewrite <- (firstn_skipn c values). apply in_or_app. right. exact Hd.
Qed.

Lemma count_true_app (a b : list bool) :
  Spec.count_true (a ++ b) = (Spec.count_true a + Spec.count_true b)%nat.
Proof. unfold Spec.count_true. rewrite filter_app, length_app. reflexivity. Qed.

Lemma select_app {A : Type} (a b : list bool) (x y : list A) :
  length a = length x ->
  Spec.select (a ++ b) (x ++ y) = Spec.select a x ++ Spec.select b y.
Proof.
  revert x. induction a as [|m a IH]; intros x Hl.
  - destruct x; [reflexivity | discriminate].
  - destruct x as [|v x]; [discriminate|]. simpl in *.
    rewrite IH by lia. destruct m; reflexivity.
Qed.

(** Read back at the True cells, row by row, the result gives the values in
    the order they were handed over. *)
Lemma put_rows_select (mask_T : list (list bool)) (values : list npfloat) :
  (Spec.count_true (concat mask_T) <= length values)%nat ->
  Spec.select (concat mask_T) (concat (TopDownEval.put_rows mask_T values))
  = firstn (Spec.count_true (concat mask_T)) values.
Proof.
  revert values. induction mask_T as [|ms t IH]; intros values Hc.
  - reflexivity.
  - rewrite put_rows_cons. simpl concat. simpl concat in Hc.
    rewrite count_true_app in *.
    rewrite select_app by (rewrite put_row_length; reflexivity).
    rewrite put_row_select by lia.
    rewrite IH by (rewrite length_skipn; lia).
    rewrite <- (firstn_skipn (Spec.count_true ms) values) at 3.
    rewrite firstn_app, firstn_firstn.
    rewrite length_firstn.
    replace (Init.Nat.min (Spec.count_true ms + Spec.count_true (concat t))
                          (Spec.count_true ms)) with (Spec.count_true ms) by lia.
    replace (Spec.count_true ms + Spec.count_true (concat t)
             - Init.Nat.min (Spec.count_true ms) (length values))%nat
      with (Spec.count_true (concat t)) by lia.
    reflexivity.
Qed.

Lemma map_nth_seq {A : Type} (l : list A) (d : A) :
  map (fun k => nth k l d) (seq 0 (length l)) = l.
Proof.
  apply (nth_ext _ _ d d).
  - rewrite length_map, length_seq. reflexivity.
  - intros n Hn. rewrite length_map, length_seq in Hn.
    rewrite (nth_indep _ d (nth 0%nat l d))
      by (rewrite length_map, length_seq; exact Hn).
    rewrite (map_nth (fun k => nth k l d)). rewrite seq_nth by exact Hn.
    reflexivity.
Qed.

(** The columns of a mask with one more row. *)
Lemma transpose_columns (ks : list nat) (r : list bool) (m : list (list bool)) :
  Spec.count_true
    (concat (map (fun k => map (fun m_row => nth k m_row false) (r :: m)) ks))
  = (Spec.count_true (map (fun k => nth k r false) ks)
     + Spec.count_true
         (concat (map (fun k => map (fun m_row => nth k m_row false) m) ks)))%nat.
Proof.
  induction ks as [|k ks IH]; [reflexivity|].
  rewrite !map_cons, !concat_cons, !count_true_app, IH.
  unfold Spec.count_true. cbn [map filter].
  destruct (nth k r false); cbn [length]; lia.
Qed.

(** The transposed mask has as many True cells as the mask. *)
Lemma transpose_count (K : nat) (mask : list (list bool)) :
  Forall (fun row => length row = K) mask ->
  Spec.count_true (concat (TopDownEval.transpose_mask K mask))
  = Spec.count_true (concat mask).
Proof.
  unfold TopDownEval.transpose_mask. intro Hall.
  induction Hall as [|r m Hr _ IH].
  - induction (seq 0 K) as [|k ks IHk]; [reflexivity | exact IHk].
  - rewrite transpose_columns, IH. cbn [concat]. rewrite count_true_app.
    rewrite <- Hr, map_nth_seq. reflexivity.
Qed.

Lemma transpose_shape (K : nat) (mask : list (list bool)) :
  Spec.table K (length mask) (TopDownEval.transpose_mask K mask).
Proof.
  unfold TopDownEval.transpose_mask. split.
  - rewrite length_map, length_seq. reflexivity.
  - apply Forall_forall. intros ms Hin. apply in_map_iff in Hin.
    destruct Hin as [k [<- _]]. apply length_map.
Qed.

Lemma transpose_cell (K : nat) (mask : list (list bool)) (n k : nat) (m : bool) :
  (k < K)%nat -> cell mask n k = Some m ->
  cell (TopDownEval.transpose_mask K mask) k n = Some m.
Proof.
  intros Hk Hc. unfold cell, TopDownEval.transpose_mask in *.
  destruct (nth_error mask n) as [row|] eqn:En; [|discriminate].
  rewrite nth_error_map.
  rewrite (nth_error_nth' (seq 0 K) 0%nat) by (rewrite length_seq; exact Hk).
  rewrite seq_nth by exact Hk. simpl.
  rewrite nth_error_map, En. simpl. f_equal.
  apply nth_error_nth. exact Hc.
Qed.

(** One gathered value for every True of the mask. *)
Lemma masked_row_length {P T : Type} (f : P -> T -> npfloat)
    (p_row : list P) (t_row : list T) (m_row : list bool) :
  length p_row = length m_row -> length t_row = length m_row ->
  length (concat (map (fun '(p, t, m) => if (m : bool) then [f p t] else [])
                      (combine (combine p_row t_row) m_row)))
  = Spec.count_true m_row.
Proof.
  revert p_row t_row. induction m_row as [|m ms IH]; intros p_row t_row Hp Ht.
  - destruct p_row; [|discriminate]. reflexivity.
  - destruct p_row as [|p ps]; [discriminate|].
    destruct t_row as [|t ts]; [discriminate|].
    cbn [combine map concat]. rewrite length_app, IH by (simpl in *; lia).
    unfold Spec.count_true. destruct m; reflexivity.
Qed.

Lemma masked_distances_length (preds targets : points)
    (mask : list (list bool)) (normalize : list (Q * Q)) (N K : nat) :
  Spec.table N K preds -> Spec.table N K targets -> Spec.table N K mask ->
  length normalize = N ->
  length (TopDownEval.masked_distances preds targets mask normalize)
  = Spec.count_true (concat mask).
Proof.
  unfold TopDownEval.masked_distances.
  intros [Hp Hpr] [Ht Htr] [Hm Hmr] Hn. subst N.
  revert targets mask normalize Ht Htr Hm Hmr Hn.
  induction Hpr as [|p_row ps Hrow _ IH];
    intros targets mask normalize Ht Htr Hm Hmr Hn.
  - destruct mask; [reflexivity | discriminate].
  - destruct targets as [|t_row ts]; [discriminate|].
    destruct mask as [|m_row ms]; [discriminate|].
    destruct normalize as [|nrm ns]; [discriminate|].
    inversion Htr; inversion Hmr; subst.
    cbn [combine map concat]. rewrite length_app, count_true_app.
    rewrite masked_row_length by congruence.
    rewrite (IH ts ms ns); simpl in *; try lia; assumption.
Qed.

Lemma table_hd_length {A : Type} (N K : nat) (t : list (list A)) :
  Spec.table N K t -> (0 < N)%nat -> length (hd [] t) = K.
Proof.
  intros [Hl Hr] HN. destruct t as [|r t']; [simpl in Hl; lia|].
  inversion Hr. assumption.
Qed.

Lemma table_cell_bound {A : Type} (N K : nat) (t : list (list A))
    (n k : nat) (a : A) :
  Spec.table N K t -> cell t n k = Some a -> (n < N)%nat /\ (k < K)%nat.
Proof.
  intros [Hl Hr] Hc. unfold cell in Hc.
  destruct (nth_error t n) as [row|] eqn:En; [|discriminate].
  split.
  - rewrite <- Hl. apply nth_error_Some. congruence.
  - rewrite Forall_forall in Hr. rewrite <- (Hr row (nth_error_In _ _ En)).
    apply nth_error_Some. congruence.
Qed.

Lemma table_cell {A : Type} (N K : nat) (t : list (list A)) (n k : nat) :
  Spec.table N K t -> (n < N)%nat -> (k < K)%nat ->
  exists a, cell t n k = Some a.
Proof.
  intros [Hl Hr] Hn Hk. unfold cell.
  destruct (nth_error t n) as [row|] eqn:E.
  - rewrite Forall_forall in Hr.
    pose proof (Hr _ (nth_error_In _ _ E)) as Hrow.
    destruct (nth_error row k) eqn:E'; [eexists; reflexivity|].
    apply nth_error_None in E'. lia.
  - apply nth_error_None in E. lia.
Qed.

(** What [_calc_distances] returns for arrays of matching shapes. *)
Lemma calc_distances_scatter :
  forall (preds targets : points) (mask : list (list bool))
         (normalize : list (Q * Q)) (N K : nat),
    Spec.table N K preds -> Spec.table N K targets -> Spec.table N K mask ->
    length normalize = N -> (0 < N)%nat ->
    let distances := TopDownEval._calc_distances preds targets mask normalize in
    Spec.table K N distances /\
    (forall n k, cell mask n k = Some false ->
                 cell distances k n = Some (Fin (-1))) /\
    Spec.select (concat (TopDownEval.transpose_mask K mask)) (concat distances)
    = TopDownEval.masked_distances preds targets mask normalize.
Proof.
  intros preds targets mask normalize N K Hp Ht Hm Hn HN distances.
  unfold distances, TopDownEval._calc_distances.
  rewrite (table_hd_length N K preds Hp HN).
  destruct (transpose_shape K mask) as [HlT HrT].
  split; [|split].
  - rewrite <- HlT at 1. destruct Hm as [Hml _]. rewrite <- Hml.
    apply put_rows_shape. exact HrT.
  - intros n k Hc. apply put_rows_false. apply transpose_cell; [|exact Hc].
    apply (table_cell_bound N K mask n k false Hm Hc).
  - rewrite put_rows_select.
    + rewrite (transpose_count K mask) by apply Hm.
      rewrite <- (masked_distances_length preds targets mask normalize N K)
        by assumption.
      apply firstn_all.
    + rewrite (transpose_count K mask) by apply Hm.
      rewrite <- (masked_distances_length preds targets mask normalize N K)
        by assumption.
      lia.
Qed.

(** X2.  For predictions, targets and a mask of shape (N, K) and N
    normalisation pairs, [_calc_distances] returns K rows of N entries; the
    entry [k][n] is -1 wherever [mask[n][k]] is False; and the entries at the
    True cells, read keypoint by keypoint (row by row of the result), are the
    distances of the visible keypoints in the order numpy gathers them,
    instance by instance. *)
Theorem calc_distances_layout :
  forall (preds targets : points) (mask : list (list bool))
         (normalize : list (Q * Q)) (N K : nat),
    Spec.table N K preds -> Spec.table N K targets -> Spec.table N K mask ->
    length normalize = N -> (0 < N)%nat ->
    let distances := TopDownEval._calc_distances preds targets mask normalize in
    Spec.table K N distances /\
    (forall n k, cell mask n k = Some false ->
                 cell distances k n = Some (Fin (-1))) /\
    Spec.select (concat (TopDownEval.transpose_mask K mask)) (concat distances)
    = TopDownEval.masked_distances preds targets mask normalize.
Proof. exact calc_distances_scatter. Qed.

(** *** A single instance *)

Lemma put_rows_singletons (l : list ((Q * Q) * (Q * Q) * bool)) (nrm : Q * Q) :
  TopDownEval.put_rows (map (fun x => [snd x]) l)
    (concat (map (fun '(p, t, m) =>
                    if (m : bool) then [TopDownEval.normalized_distance p t nrm]
                    else []) l))
  = map (fun '(p, t, m) =>
           [if (m : bool) then TopDownEval.normalized_distance p t nrm
            else Fin (-1)]) l.
Proof.
  induction l as [|[[p t] m] l IH]; [reflexivity|].
  cbn [map concat]. destruct m; cbn [snd]; simpl; rewrite IH; reflexivity.
Qed.

Lemma map_snd_combine {A B : Type} (a : list A) (b : list B) :
  length a = length b -> map snd (combine a b) = b.
Proof.
  revert b. induction a as [|x a IH]; intros [|y b] Hl; try discriminate.
  - reflexivity.
  - simpl. rewrite IH by (simpl in Hl; lia). reflexivity.
Qed.

Lemma calc_distances_one :
  forall (p_row t_row : list (Q * Q)) (m_row : list bool) (nrm : Q * Q),
    length t_row = length p_row -> length m_row = length p_row ->
    TopDownEval._calc_distances [p_row] [t_row] [m_row] [nrm]
    = map (fun '(p, t, m) =>
             [if (m : bool) then TopDownEval.normalized_distance p t nrm
              else Fin (-1)])
          (combine (combine p_row t_row) m_row).
Proof.
  intros p_row t_row m_row nrm Ht Hm.
  unfold TopDownEval._calc_distances, TopDownEval.transpose_mask,
    TopDownEval.masked_distances.
  cbn [hd combine map concat]. rewrite app_nil_r.
  rewrite <- put_rows_singletons. f_equal.
  transitivity (map (fun m : bool => [m]) m_row).
  - rewrite <- Hm.
    rewrite <- (map_map (fun k => nth k m_row false) (fun m : bool => [m])).
    rewrite map_nth_seq. reflexivity.
  - rewrite <- (map_map snd (fun m : bool => [m])).
    rewrite map_snd_combine by (rewrite length_combine; lia).
    reflexivity.
Qed.

(** X3.  For a single instance (N = 1) with K keypoints, [_calc_distances]
    returns K rows of one entry: the normalised distance between prediction
    and target of keypoint k where the keypoint is visible, and -1 where it
    is not. *)
Theorem calc_distances_single_instance :
  forall (p_row t_row : list (Q * Q)) (m_row : list bool) (nrm : Q * Q),
    length t_row = length p_row -> length m_row = length p_row ->
    TopDownEval._calc_distances [p_row] [t_row] [m_row] [nrm]
    = map (fun '(p, t, m) =>
             [if (m : bool) then TopDownEval.normalized_distance p t nrm
              else Fin (-1)])
          (combine (combine p_row t_row) m_row).
Proof. exact calc_distances_one. Qed.

(** *** Every keypoint visible *)

Lemma nth_error_concat_table {A : Type} (N K : nat) (t : list (list A))
    (i j : nat) :
  Spec.table N K t -> (j < K)%nat ->
  nth_error (concat t) (i * K + j) = cell t i j.
Proof.
  intros [Hl Hr] Hj. clear Hl. revert i.
  induction Hr as [|r t Hrow _ IH]; intro i.
  - unfold cell. simpl. rewrite !nth_error_nil. reflexivity.
  - cbn [concat]. destruct i as [|i].
    + simpl. unfold cell. simpl. apply nth_error_app1. lia.
    + rewrite nth_error_app2 by (rewrite Hrow; simpl; lia).
      replace (S i * K + j - length r)%nat with (i * K + j)%nat
        by (rewrite Hrow; simpl; lia).
      rewrite IH. reflexivity.
Qed.

Lemma table_concat_length {A : Type} (N K : nat) (t : list (list A)) :
  Spec.table N K t -> length (concat t) = (N * K)%nat.
Proof.
  intros [Hl Hr]. subst N. induction Hr as [|r t Hrow _ IH]; [reflexivity|].
  cbn [concat length]. rewrite length_app, IH, Hrow. lia.
Qed.

Lemma select_all_true {A : Type} (ms : list bool) (l : list A) :
  Forall (fun m => m = true) ms -> length ms = length l ->
  Spec.select ms l = l.
Proof.
  intro Hall. revert l. induction Hall as [|m ms Hm _ IH]; intros [|a l] Hl;
    try discriminate; [reflexivity|].
  subst m. simpl. rewrite IH by (simpl in Hl; lia). reflexivity.
Qed.

Lemma transpose_all_true (K : nat) (mask : list (list bool)) :
  Forall (fun row => length row = K) mask ->
  Forall (Forall (fun m => m = true)) mask ->
  Forall (fun m => m = true) (concat (TopDownEval.transpose_mask K mask)).
Proof.
  intros Hlen Hall. apply Forall_concat. unfold TopDownEval.transpose_mask.
  apply Forall_forall. intros ms Hin. apply in_map_iff in Hin.
  destruct Hin as [k [<- Hk]]. apply in_seq in Hk.
  apply Forall_forall. intros m Hm. apply in_map_iff in Hm.
  destruct Hm as [row [<- Hrow]].
  rewrite Forall_forall in Hlen, Hall.
  specialize (Hall _ Hrow). rewrite Forall_forall in Hall.
  apply Hall. apply nth_In. rewrite (Hlen _ Hrow). lia.
Qed.

Lemma masked_row_full {P T : Type} (f : P -> T -> npfloat)
    (p_row : list P) (t_row : list T) (m_row : list bool) :
  Forall (fun m => m = true) m_row ->
  length p_row = length m_row -> length t_row = length m_row ->
  concat (map (fun '(p, t, m) => if (m : bool) then [f p t] else [])
              (combine (combine p_row t_row) m_row))
  = map (fun '(p, t) => f p t) (combine p_row t_row).
Proof.
  intro Hall. revert p_row t_row.
  induction Hall as [|m ms Hm _ IH]; intros p_row t_row Hp Ht.
  - destruct p_row; [reflexivity | discriminate].
  - destruct p_row as [|p ps]; [discriminate|].
    destruct t_row as [|t ts]; [discriminate|].
    subst m. cbn [combine map concat]. rewrite IH by (simpl in *; lia).
    reflexivity.
Qed.

(** With every keypoint visible the gathered values are the distances of
    all keypoints, instance after instance. *)
Lemma masked_distances_full (preds targets : points) (mask : list (list bool))
    (normalize : list (Q * Q)) (N K : nat) (i j : nat)
    (p t nrm : Q * Q) :
  Spec.table N K preds -> Spec.table N K targets -> Spec.table N K mask ->
  length normalize = N ->
  Forall (Forall (fun m => m = true)) mask ->
  cell preds i j = Some p -> cell targets i j = Some t ->
  nth_error normalize i = Some nrm ->
  nth_error (TopDownEval.masked_distances preds targets mask normalize)
            (i * K + j)
  = Some (TopDownEval.normalized_distance p t nrm).
Proof.
  intros Hp Ht Hm Hn Hall Hcp Hct Hnrm.
  destruct (table_cell_bound _ _ _ _ _ _ Hp Hcp) as [Hi Hj].
  unfold TopDownEval.masked_distances.
  set (g := fun '(p_row, t_row, m_row, nrm0) =>
              concat (map (fun '(p0, t0, m) =>
                             if (m : bool)
                             then [TopDownEval.normalized_distance p0 t0 nrm0]
                             else [])
                          (combine (combine (p_row : list (Q * Q))
                                            (t_row : list (Q * Q)))
                                   (m_row : list bool)))).
  set (L := combine (combine (combine preds targets) mask) normalize).
  set (g' := (fun '(p_row, t_row, m_row, nrm0) =>
                map (fun '(p0, t0) => TopDownEval.normalized_distance p0 t0 nrm0)
                    (combine p_row t_row))
             : list (Q * Q) * list (Q * Q) * list bool * (Q * Q)
               -> list npfloat).
  assert (Hrows : forall x, In x L ->
            let '(p_row, t_row, m_row, _) := x in
            length p_row = K /\ length t_row = K /\ length m_row = K /\
            Forall (fun m => m = true) m_row).
  { intros [[[p_row t_row] m_row] nrm0] Hin. unfold L in Hin.
    apply in_combine_l in Hin.
    pose proof (in_combine_r _ _ _ _ Hin) as Hmr.
    apply in_combine_l in Hin.
    pose proof (in_combine_r _ _ _ _ Hin) as Htr.
    apply in_combine_l in Hin.
    destruct Hp as [_ Hp]. destruct Ht as [_ Ht]. destruct Hm as [_ Hm].
    rewrite Forall_forall in Hp, Ht, Hm, Hall. auto. }
  assert (Hg : map g L = map g' L).
  { apply map_ext_in. intros [[[p_row t_row] m_row] nrm0] Hin.
    destruct (Hrows _ Hin) as [H1 [H2 [H3 H4]]].
    unfold g, g'. apply masked_row_full; [exact H4 | congruence | congruence]. }
  change (nth_error (concat (map g L)) (i * K + j)
          = Some (TopDownEval.normalized_distance p t nrm)).
  rewrite Hg.
  assert (Htab : Spec.table (length L) K (map g' L)).
  { split; [apply length_map|]. apply Forall_forall. intros r Hr.
    apply in_map_iff in Hr.
    destruct Hr as [[[[p_row t_row] m_row] nrm0] [<- Hin]].
    destruct (Hrows _ Hin) as [H1 [H2 _]].
    unfold g'. rewrite length_map, length_combine. lia. }
  rewrite (nth_error_concat_table _ _ _ i j Htab Hj).
  unfold cell in *.
  destruct (nth_error preds i) as [p_row|] eqn:Ep; [|discriminate].
  destruct (nth_error targets i) as [t_row|] eqn:Et; [|discriminate].
  assert (Hmi : exists m_row, nth_error mask i = Some m_row).
  { destruct (nth_error mask i) eqn:E; [eexists; reflexivity|].
    apply nth_error_None in E. destruct Hm as [Hml _]. lia. }
  destruct Hmi as [m_row Em].
  rewrite nth_error_map. unfold L.
  rewrite (nth_error_combine _ _ _ _ _
             (nth_error_combine _ _ _ _ _
                (nth_error_combine _ _ _ _ _ Ep Et) Em) Hnrm).
  simpl. rewrite nth_error_map.
  rewrite (nth_error_combine _ _ _ _ _ Hcp Hct). reflexivity.
Qed.

(** X4.  With every keypoint visible, [_calc_distances] fills the (K, N)
    result in the order of the gathered values: entry [k][n] is the distance
    of the keypoint at flat position k * N + n of the instance-major
    sequence, that is, of keypoint (k * N + n) mod K of instance
    (k * N + n) div K.  It is the distance of keypoint k of instance n only
    where the two positions agree, as they do when N = 1 or K = 1. *)
Theorem calc_distances_full_mask :
  forall (preds targets : points) (mask : list (list bool))
         (normalize : list (Q * Q)) (N K : nat),
    Spec.table N K preds -> Spec.table N K targets -> Spec.table N K mask ->
    length normalize = N ->
    Forall (Forall (fun m => m = true)) mask ->
    forall n k, (n < N)%nat -> (k < K)%nat ->
      let flat := (k * N + n)%nat in
      exists p t nrm,
        cell preds (flat / K) (flat mod K) = Some p /\
        cell targets (flat / K) (flat mod K) = Some t /\
        nth_error normalize (flat / K) = Some nrm /\
        cell (TopDownEval._calc_distances preds targets mask normalize) k n
        = Some (TopDownEval.normalized_distance p t nrm).
Proof.
  intros preds targets mask normalize N K Hp Ht Hm Hn Hall n k Hn' Hk flat.
  assert (HN : (0 < N)%nat) by lia.
  destruct (calc_distances_scatter preds targets mask normalize N K
              Hp Ht Hm Hn HN) as [Htab [_ Hsel]].
  rewrite select_all_true in Hsel.
  2:{ apply transpose_all_true; [apply Hm | exact Hall]. }
  2:{ rewrite (table_concat_length K N _ Htab).
      apply (table_concat_length K). destruct Hm as [Hml _].
      rewrite <- Hml. apply transpose_shape. }
  assert (Hflat : (flat < N * K)%nat) by (unfold flat; nia).
  assert (Hi : (flat / K < N)%nat)
    by (apply Nat.Div0.div_lt_upper_bound; lia).
  assert (Hj : (flat mod K < K)%nat) by (apply Nat.mod_upper_bound; lia).
  destruct (table_cell N K preds _ _ Hp Hi Hj) as [p Hcp].
  destruct (table_cell N K targets _ _ Ht Hi Hj) as [t Hct].
  assert (Hnrm : exists nrm, nth_error normalize (flat / K) = Some nrm).
  { destruct (nth_error normalize (flat / K)) eqn:E; [eexists; reflexivity|].
    apply nth_error_None in E. lia. }
  destruct Hnrm as [nrm Hnrm].
  exists p, t, nrm. repeat split; try assumption.
  rewrite <- (nth_error_concat_table K N _ k n Htab Hn'). fold flat.
  rewrite Hsel.
  rewrite <- (masked_distances_full preds targets mask normalize N K
                (flat / K) (flat mod K) p t nrm) by assumption.
  f_equal. rewrite (Nat.div_mod_eq flat K) at 1. lia.
Qed.

End Scatter.

(** ** EPE, PCK and AUC *)

Section Aggregates.
Context {Ext : External}.

(** *** The end-point error *)

Lemma put_row_filter (ms : list bool) (values : list npfloat) :
  Forall (fun v => npfloat_ne_m1 v = true) values ->
  (Spec.count_true ms <= length values)%nat ->
  filter npfloat_ne_m1 (fst (TopDownEval.put_row ms values))
  = firstn (Spec.count_true ms) values.
Proof.
  revert values.
  induction ms as [|m t IH]; intros values Hv Hc; simpl; [reflexivity|].
  destruct m.
  - unfold Spec.count_true in Hc. simpl in Hc.
    destruct values as [|v vs]; [simpl in Hc; lia|].
    inversion Hv as [|? ? Hv1 Hv2]; subst.
    specialize (IH vs Hv2). simpl tl. destruct (TopDownEval.put_row t vs).
    simpl in *. rewrite Hv1. rewrite IH by (unfold Spec.count_true; lia).
    reflexivity.
  - specialize (IH values Hv Hc). destruct (TopDownEval.put_row t values).
    simpl in *. exact IH.
Qed.

Lemma Forall_skipn {A : Type} (P : A -> Prop) (n : nat) (l : list A) :
  Forall P l -> Forall P (skipn n l).
Proof.
  intro Hl. rewrite <- (firstn_skipn n l) in Hl.
  apply Forall_app in Hl. apply Hl.
Qed.

(** The cells that are not -1 are the gathered values, when none of these
    is -1 itself. *)
Lemma put_rows_filter (mask_T : list (list bool)) (values : list npfloat) :
  Forall (fun v => npfloat_ne_m1 v = true) values ->
  Spec.count_true (concat mask_T) = length values ->
  filter npfloat_ne_m1 (concat (TopDownEval.put_rows mask_T values)) = values.
Proof.
  revert values. induction mask_T as [|ms t IH]; intros values Hv Hc.
  - destruct values; [reflexivity | discriminate].
  - rewrite put_rows_cons. cbn [concat] in *. rewrite count_true_app in Hc.
    rewrite filter_app, put_row_filter by (try assumption; lia).
    rewrite IH.
    + apply firstn_skipn.
    + apply Forall_skipn. exact Hv.
    + rewrite length_skipn. lia.
Qed.

Lemma masked_distances_members (preds targets : points)
    (mask : list (list bool)) (normalize : list (Q * Q)) (d : npfloat) :
  In d (TopDownEval.masked_distances preds targets mask normalize) ->
  exists p t nrm,
    In nrm normalize /\ d = TopDownEval.normalized_distance p t nrm.
Proof.
  unfold TopDownEval.masked_distances. intro Hin.
  apply in_concat in Hin. destruct Hin as [row [Hrow Hd]].
  apply in_map_iff in Hrow.
  destruct Hrow as [[[[p_row t_row] m_row] nrm] [<- Hx]].
  apply in_concat in Hd. destruct Hd as [one [Hone Hd]].
  apply in_map_iff in Hone. destruct Hone as [[[p t] m] [<- _]].
  destruct m; [|contradiction]. destruct Hd as [<- | []].
  exists p, t, nrm. split; [|reflexivity].
  apply in_combine_r in Hx. exact Hx.
Qed.

Lemma unit_distance (p t : Q * Q) :
  TopDownEval.normalized_distance p t (1, 1)
  = Fin (np_sqrt ((fst p - fst t) / 1 * ((fst p - fst t) / 1)
                  + (snd p - snd t) / 1 * ((snd p - snd t) / 1))).
Proof. reflexivity. Qed.

Lemma sum_of_squares_nonneg (a b : Q) : 0 <= a * a + b * b.
Proof.
  assert (Ha : 0 <= a * a) by (destruct (Qlt_le_dec a 0); nra).
  assert (Hb : 0 <= b * b) by (destruct (Qlt_le_dec b 0); nra).
  lra.
Qed.

Lemma fold_add_fin (qs : list Q) (a : Q) :
  fold_left npfloat_add (map Fin qs) (Fin a) = Fin (fold_left Qplus qs a).
Proof.
  revert a. induction qs as [|q qs IH]; intro a; [reflexivity|].
  simpl. apply IH.
Qed.

Lemma fold_plus_nonneg (qs : list Q) (a : Q) :
  Forall (fun q => 0 <= q) qs -> 0 <= a -> 0 <= fold_left Qplus qs a.
Proof.
  intro Hall. revert a. induction Hall as [|q qs Hq _ IH]; intros a Ha;
    [exact Ha|].
  simpl. apply IH. lra.
Qed.

Lemma all_finite (P : Q -> Prop) (ds : list npfloat) :
  Forall (fun d => exists q, d = Fin q /\ P q) ds ->
  exists qs, ds = map Fin qs /\ Forall P qs.
Proof.
  intro Hall. induction Hall as [|d ds [q [-> Hq]] _ [qs [-> Hqs]]].
  - exists []. split; [reflexivity | constructor].
  - exists (q :: qs). split; [reflexivity | constructor; assumption].
Qed.

(** X5.  For predictions, ground truth and a mask of shape (N, K), and a
    square root that is never negative, the distances [keypoint_epe] gathers
    with the normalisation (1, 1) are finite and not negative, one for each
    visible keypoint, and the result is their sum divided by their number;
    the order in which [_calc_distances] stores them does not show.  With at
    least one visible keypoint the result is a finite number that is not
    negative. *)
Theorem keypoint_epe_mean :
  forall (pred gt : points) (mask : list (list bool)) (N K : nat),
    (forall q, 0 <= q -> 0 <= np_sqrt q) ->
    Spec.table N K pred -> Spec.table N K gt -> Spec.table N K mask ->
    (0 < N)%nat ->
    exists qs,
      TopDownEval.masked_distances pred gt mask (repeat (1, 1) N) = map Fin qs /\
      length qs = Spec.count_true (concat mask) /\
      Forall (fun q => 0 <= q) qs /\
      TopDownEval.keypoint_epe pred gt mask
      = np_true_divide (fold_left Qplus qs 0)
                       (inject_Z (Z.of_nat (length qs))) /\
      ((0 < length qs)%nat ->
       TopDownEval.keypoint_epe pred gt mask
       = Fin (fold_left Qplus qs 0 / inject_Z (Z.of_nat (length qs))) /\
       0 <= fold_left Qplus qs 0 / inject_Z (Z.of_nat (length qs))).
Proof.
  intros pred gt mask N K Hsqrt Hp Ht Hm HN.
  assert (Hn : length (repeat ((1, 1) : Q * Q) N) = N) by apply repeat_length.
  pose proof (masked_distances_length pred gt mask _ N K Hp Ht Hm Hn) as Hlen.
  destruct (all_finite (fun q => 0 <= q)
              (TopDownEval.masked_distances pred gt mask (repeat (1, 1) N)))
    as [qs [Hqs Hnonneg]].
  { apply Forall_forall. intros d Hd.
    destruct (masked_distances_members _ _ _ _ _ Hd) as [p [t [nrm [Hnrm ->]]]].
    apply repeat_spec in Hnrm. subst nrm. rewrite unit_distance.
    eexists. split; [reflexivity|]. apply Hsqrt. apply sum_of_squares_nonneg. }
  exists qs. rewrite Hqs in Hlen. rewrite length_map in Hlen.
  split; [exact Hqs|]. split; [exact Hlen|]. split; [exact Hnonneg|].
  assert (Hepe : TopDownEval.keypoint_epe pred gt mask
                 = np_true_divide (fold_left Qplus qs 0)
                                  (inject_Z (Z.of_nat (length qs)))).
  { unfold TopDownEval.keypoint_epe, TopDownEval._calc_distances.
    destruct Hp as [Hpl Hpr]. rewrite Hpl.
    rewrite put_rows_filter.
    - rewrite Hqs, fold_add_fin, length_map. reflexivity.
    - rewrite Hqs. apply Forall_forall. intros d Hd. apply in_map_iff in Hd.
      destruct Hd as [q [<- Hq]]. rewrite Forall_forall in Hnonneg.
      specialize (Hnonneg _ Hq). simpl. apply negb_true_iff.
      destruct (Qeq_bool q (-1)) eqn:E; [|reflexivity].
      apply Qeq_bool_iff in E. lra.
    - rewrite (table_hd_length N K pred (conj Hpl Hpr) HN).
      rewrite (transpose_count K mask) by apply Hm.
      rewrite Hqs, length_map. symmetry. exact Hlen. }
  split; [exact Hepe|].
  intro Hpos. split.
  - rewrite Hepe. unfold np_true_divide.
    replace (Qeq_bool (inject_Z (Z.of_nat (length qs))) 0) with false;
      [reflexivity|].
    symmetry. apply Qeq_bool_inject_nonzero. lia.
  - apply Qle_shift_div_l; [apply inject_nat_pos; exact Hpos|].
    rewrite Qmult_0_l. apply fold_plus_nonneg; [exact Hnonneg | apply Qle_refl].
Qed.

(** *** The ranges of the PCK *)

Lemma filter_length_le {A : Type} (f : A -> bool) (l : list A) :
  (length (filter f l) <= length l)%nat.
Proof.
  induction l as [|a t IH]; simpl; [lia|]. destruct (f a); simpl; lia.
Qed.

Lemma distance_acc_range (d : list npfloat) (thr : Q) :
  (filter npfloat_ne_m1 d = [] /\ TopDownEval._distance_acc d thr = -1) \/
  (filter npfloat_ne_m1 d <> [] /\
   0 <= TopDownEval._distance_acc d thr /\ TopDownEval._distance_acc d thr <= 1).
Proof.
  unfold TopDownEval._distance_acc.
  destruct (filter npfloat_ne_m1 d) as [|v vs] eqn:E;
    [left; split; reflexivity|].
  right. split; [discriminate|].
  set (valid := v :: vs).
  assert (Hpos : (0 < length valid)%nat) by (simpl; lia).
  replace (Nat.ltb 0 (length valid)) with true
    by (symmetry; apply Nat.ltb_lt; exact Hpos).
  split.
  - apply Qle_shift_div_l; [apply inject_nat_pos; exact Hpos|].
    rewrite Qmult_0_l. apply (inject_nat_le 0). lia.
  - apply Qle_shift_div_r; [apply inject_nat_pos; exact Hpos|].
    rewrite Qmult_1_l. apply inject_nat_le. apply filter_length_le.
Qed.

Lemma sumQ_unit_bounds (l : list Q) :
  Forall (fun a => 0 <= a /\ a <= 1) l ->
  0 <= sumQ l /\ sumQ l <= inject_Z (Z.of_nat (length l)).
Proof.
  intro Hall. induction Hall as [|a l [Ha0 Ha1] _ [IH0 IH1]].
  - simpl. split; apply Qle_refl.
  - cbn [sumQ fold_right length]. fold (sumQ l).
    rewrite Nat2Z.inj_succ. unfold Z.succ. rewrite inject_Z_plus.
    change (inject_Z 1) with 1. split; lra.
Qed.

Lemma np_mean_unit (l : list Q) :
  Forall (fun a => 0 <= a /\ a <= 1) l -> (0 < length l)%nat ->
  0 <= TopDownEval.np_mean l /\ TopDownEval.np_mean l <= 1.
Proof.
  intros Hall Hpos. destruct (sumQ_unit_bounds l Hall) as [H0 H1].
  unfold TopDownEval.np_mean. split.
  - apply Qle_shift_div_l; [apply inject_nat_pos; exact Hpos|].
    rewrite Qmult_0_l. exact H0.
  - apply Qle_shift_div_r; [apply inject_nat_pos; exact Hpos|].
    rewrite Qmult_1_l. exact H1.
Qed.

Lemma pck_accuracy_bounds :
  forall (pred gt : points) (mask : list (list bool)) (thr : Q)
         (normalize : list (Q * Q)),
    let r := TopDownEval.keypoint_pck_accuracy pred gt mask thr normalize in
    let acc := fst (fst r) in
    let avg_acc := snd (fst r) in
    let cnt := snd r in
    length acc = length (hd [] pred) /\
    Forall (fun a => a = -1 \/ (0 <= a /\ a <= 1)) acc /\
    (cnt <= length acc)%nat /\
    0 <= avg_acc /\ avg_acc <= 1 /\
    (cnt = 0%nat -> avg_acc = 0).
Proof.
  intros pred gt mask thr normalize r acc avg_acc cnt.
  unfold acc, avg_acc, cnt, r, TopDownEval.keypoint_pck_accuracy.
  cbn [fst snd].
  set (distances := TopDownEval._calc_distances pred gt mask normalize).
  set (accs := map (fun d => TopDownEval._distance_acc d thr) distances).
  assert (Hacc : Forall (fun a => a = -1 \/ (0 <= a /\ a <= 1)) accs).
  { apply Forall_forall. intros a Ha. apply in_map_iff in Ha.
    destruct Ha as [d [<- _]].
    destruct (distance_acc_range d thr) as [[_ H1] | [_ H2]]; [left | right];
      assumption. }
  split.
  { unfold accs, distances, TopDownEval._calc_distances.
    rewrite length_map, put_rows_length.
    apply (transpose_shape (length (hd [] pred)) mask). }
  split; [exact Hacc|]. split; [apply filter_length_le|].
  destruct (Nat.ltb 0 (length (filter (fun a => Qle_bool 0 a) accs))) eqn:E.
  - apply Nat.ltb_lt in E.
    destruct (np_mean_unit (filter (fun a => Qle_bool 0 a) accs)) as [H0 H1].
    + apply Forall_forall. intros a Ha. apply filter_In in Ha.
      destruct Ha as [Hin Hle]. apply Qle_bool_iff in Hle.
      rewrite Forall_forall in Hacc.
      destruct (Hacc _ Hin) as [-> | Hr]; [|exact Hr].
      exfalso. revert Hle. unfold Qle. simpl. lia.
    + exact E.
    + split; [exact H0|]. split; [exact H1|]. intro Hc. lia.
  - split; [apply Qle_refl|]. split; [unfold Qle; simpl; lia|].
    intros _. reflexivity.
Qed.

(** X1.  Whatever its arguments, [keypoint_pck_accuracy] returns one
    accuracy for each keypoint (K is read off the first row of [pred]); each
    is the sentinel -1 or a fraction between 0 and 1; the count of valid
    keypoints is at most K; the averaged accuracy lies between 0 and 1 and is
    the integer 0 when no keypoint is valid. *)
Theorem pck_accuracy_ranges :
  forall (pred gt : points) (mask : list (list bool)) (thr : Q)
         (normalize : list (Q * Q)),
    let r := TopDownEval.keypoint_pck_accuracy pred gt mask thr normalize in
    let acc := fst (fst r) in
    let avg_acc := snd (fst r) in
    let cnt := snd r in
    length acc = length (hd [] pred) /\
    Forall (fun a => a = -1 \/ (0 <= a /\ a <= 1)) acc /\
    (cnt <= length acc)%nat /\
    0 <= avg_acc /\ avg_acc <= 1 /\
    (cnt = 0%nat -> avg_acc = 0).
Proof. exact pck_accuracy_bounds. Qed.

(** *** The area under the curve *)

Lemma auc_fold_bounds (c : Q) (y : list Q) (l : list nat) (a : Q) :
  0 <= c -> Forall (fun v => 0 <= v /\ v <= 1) y ->
  a <= fold_left (fun auc i => auc + c * nth i y 0) l a /\
  fold_left (fun auc i => auc + c * nth i y 0) l a
  <= a + inject_Z (Z.of_nat (length l)) * c.
Proof.
  intros Hc Hy. revert a. induction l as [|i l IH]; intro a.
  - simpl. split; [apply Qle_refl|]. change (inject_Z 0) with 0. lra.
  - cbn [fold_left length]. destruct (IH (a + c * nth i y 0)) as [H0 H1].
    assert (Hv : 0 <= nth i y 0 /\ nth i y 0 <= 1).
    { destruct (nth_in_or_default i y 0) as [Hin | ->].
      - rewrite Forall_forall in Hy. apply Hy. exact Hin.
      - split; unfold Qle; simpl; lia. }
    rewrite Nat2Z.inj_succ. unfold Z.succ. rewrite inject_Z_plus.
    change (inject_Z 1) with 1.
    assert (Hcv0 : 0 <= c * nth i y 0) by (apply Qmult_le_0_compat; tauto).
    assert (Hcv1 : c * nth i y 0 <= c).
    { rewrite <- (Qmult_1_r c) at 2. rewrite !(Qmult_comm c).
      apply Qmult_le_compat_r; tauto. }
    split; [lra|].
    eapply Qle_trans; [exact H1|]. lra.
Qed.

(** X7.  Whatever its arguments, [keypoint_auc] returns a value between 0
    and 1: the mean over num_step thresholds of averaged accuracies that lie
    between 0 and 1.  With num_step <= 0 both loops are empty and the result
    is the integer 0. *)
Theorem keypoint_auc_range :
  forall (pred gt : points) (mask : list (list bool)) (normalize : Q)
         (num_step : Z),
    0 <= TopDownEval.keypoint_auc pred gt mask normalize num_step /\
    TopDownEval.keypoint_auc pred gt mask normalize num_step <= 1 /\
    ((num_step <= 0)%Z ->
     TopDownEval.keypoint_auc pred gt mask normalize num_step = 0).
Proof.
  intros pred gt mask normalize num_step.
  unfold TopDownEval.keypoint_auc.
  set (nor := repeat (normalize, normalize) (length pred)).
  set (l := seq 0 (Z.to_nat num_step)).
  set (y := map _ (map _ l)).
  assert (Hy : Forall (fun v => 0 <= v /\ v <= 1) y).
  { apply Forall_forall. intros v Hv. unfold y in Hv.
    apply in_map_iff in Hv. destruct Hv as [thr [<- _]].
    destruct (pck_accuracy_bounds pred gt mask thr nor)
      as [_ [_ [_ [H0 [H1 _]]]]].
    split; assumption. }
  destruct (Z_le_gt_dec num_step 0) as [Hle | Hgt].
  - assert (Hl : l = [])
      by (unfold l; replace (Z.to_nat num_step) with 0%nat by lia; reflexivity).
    rewrite Hl. simpl. repeat split; try (unfold Qle; simpl; lia).
  - assert (Hc : 0 <= 1 / inject_Z num_step).
    { apply Qle_shift_div_l.
      - replace 0 with (inject_Z 0) by reflexivity. rewrite <- Zlt_Qlt. lia.
      - rewrite Qmult_0_l. unfold Qle; simpl; lia. }
    destruct (auc_fold_bounds (1 / inject_Z num_step) y l 0 Hc Hy) as [H0 H1].
    split; [exact H0|]. split; [|intro; lia].
    eapply Qle_trans; [exact H1|].
    unfold l. rewrite length_seq, Z2Nat.id by lia.
    rewrite Qplus_0_l. apply Qle_lteq. right. field.
    intro Hz. unfold Qeq in Hz. simpl in Hz. lia.
Qed.

(** *** A prediction scored against itself *)

Lemma in_combine_same {A : Type} (l : list A) (a b : A) :
  In (a, b) (combine l l) -> a = b.
Proof.
  induction l as [|x l IH]; [contradiction|].
  intros [Heq | Hin]; [inversion Heq; reflexivity | exact (IH Hin)].
Qed.

Lemma masked_distances_self (preds : points) (mask : list (list bool))
    (normalize : list (Q * Q)) (d : npfloat) :
  In d (TopDownEval.masked_distances preds preds mask normalize) ->
  exists p nrm,
    In nrm normalize /\ d = TopDownEval.normalized_distance p p nrm.
Proof.
  unfold TopDownEval.masked_distances. intro Hin.
  apply in_concat in Hin. destruct Hin as [row [Hrow Hd]].
  apply in_map_iff in Hrow.
  destruct Hrow as [[[[p_row t_row] m_row] nrm] [<- Hx]].
  apply in_concat in Hd. destruct Hd as [one [Hone Hd]].
  apply in_map_iff in Hone. destruct Hone as [[[p t] m] [<- Hy]].
  destruct m; [|contradiction]. destruct Hd as [<- | []].
  pose proof (in_combine_r _ _ _ _ Hx) as Hnrm.
  apply in_combine_l in Hx. apply in_combine_l in Hx.
  apply in_combine_same in Hx. subst t_row.
  apply in_combine_l in Hy. apply in_combine_same in Hy. subst t.
  exists p, nrm. split; [exact Hnrm | reflexivity].
Qed.

Lemma self_distance_zero (p nrm : Q * Q) :
  (forall q, q == 0 -> np_sqrt q == 0) ->
  ~ fst nrm == 0 -> ~ snd nrm == 0 ->
  exists z, TopDownEval.normalized_distance p p nrm = Fin z /\ z == 0.
Proof.
  intros Hsqrt Hx Hy. unfold TopDownEval.normalized_distance, np_true_divide.
  destruct (Qeq_bool (fst nrm) 0) eqn:Ex;
    [apply Qeq_bool_iff in Ex; contradiction|].
  destruct (Qeq_bool (snd nrm) 0) eqn:Ey;
    [apply Qeq_bool_iff in Ey; contradiction|].
  eexists. split; [reflexivity|]. apply Hsqrt. field. split; assumption.
Qed.

(** The accuracy of a channel whose valid distances are all zero. *)
Lemma distance_acc_zero (row : list npfloat) (thr : Q) :
  0 < thr ->
  Forall (fun d => d = Fin (-1) \/ exists z, d = Fin z /\ z == 0) row ->
  TopDownEval._distance_acc row thr = -1 \/
  TopDownEval._distance_acc row thr == 1.
Proof.
  intros Hthr Hrow. unfold TopDownEval._distance_acc.
  set (valid := filter npfloat_ne_m1 row).
  assert (Hvalid : Forall (fun d => npfloat_ltb d thr = true) valid).
  { apply Forall_forall. intros d Hd. apply filter_In in Hd.
    destruct Hd as [Hin Hne]. rewrite Forall_forall in Hrow.
    destruct (Hrow _ Hin) as [-> | [z [-> Hz]]]; [discriminate|].
    simpl. apply Qltb_true. rewrite Hz. exact Hthr. }
  assert (Hall : filter (fun d => npfloat_ltb d thr) valid = valid).
  { clear -Hvalid. induction Hvalid as [|d l Hd _ IH]; [reflexivity|].
    simpl. rewrite Hd, IH. reflexivity. }
  rewrite Hall.
  destruct (Nat.ltb 0 (length valid)) eqn:E; [right | left; reflexivity].
  apply Nat.ltb_lt in E. field.
  intro Hz. pose proof (inject_nat_pos _ E) as Hpos. lra.
Qed.

Lemma sumQ_ones (l : list Q) :
  Forall (fun a => a == 1) l -> sumQ l == inject_Z (Z.of_nat (length l)).
Proof.
  intro Hall. induction Hall as [|a l Ha _ IH]; [reflexivity|].
  cbn [sumQ fold_right length]. fold (sumQ l).
  rewrite Nat2Z.inj_succ. unfold Z.succ. rewrite inject_Z_plus.
  change (inject_Z 1) with 1. rewrite Ha, IH. ring.
Qed.

Lemma pck_self (preds : points) (mask : list (list bool)) (thr : Q)
    (normalize : list (Q * Q)) :
  (forall q, q == 0 -> np_sqrt q == 0) ->
  0 < thr ->
  Forall (fun nrm => ~ fst nrm == 0 /\ ~ snd nrm == 0) normalize ->
  let r := TopDownEval.keypoint_pck_accuracy preds preds mask thr normalize in
  Forall (fun a => a = -1 \/ a == 1) (fst (fst r)) /\
  ((0 < snd r)%nat -> snd (fst r) == 1).
Proof.
  intros Hsqrt Hthr Hnrm r. unfold r, TopDownEval.keypoint_pck_accuracy.
  cbn [fst snd].
  set (distances := TopDownEval._calc_distances preds preds mask normalize).
  set (accs := map (fun d => TopDownEval._distance_acc d thr) distances).
  assert (Hacc : Forall (fun a => a = -1 \/ a == 1) accs).
  { apply Forall_forall. intros a Ha. apply in_map_iff in Ha.
    destruct Ha as [row [<- Hrow]]. apply distance_acc_zero; [exact Hthr|].
    unfold distances, TopDownEval._calc_distances in Hrow.
    pose proof (put_rows_members
                  (TopDownEval.transpose_mask (length (hd [] preds)) mask)
                  (TopDownEval.masked_distances preds preds mask normalize))
      as Hmem.
    rewrite Forall_forall in Hmem. specialize (Hmem _ Hrow).
    eapply Forall_impl; [|exact Hmem].
    intros d [Hd | Hd]; [left; exact Hd | right].
    destruct (masked_distances_self _ _ _ _ Hd) as [p [nrm [Hin ->]]].
    rewrite Forall_forall in Hnrm. destruct (Hnrm _ Hin) as [Hx Hy].
    apply self_distance_zero; assumption. }
  split; [exact Hacc|].
  intro Hcnt. rewrite (proj2 (Nat.ltb_lt _ _) Hcnt).
  unfold TopDownEval.np_mean. rewrite sumQ_ones.
  - field. intro Hz. pose proof (inject_nat_pos _ Hcnt) as Hpos. lra.
  - apply Forall_forall. intros a Ha. apply filter_In in Ha.
    destruct Ha as [Hin Hle]. rewrite Forall_forall in Hacc.
    destruct (Hacc _ Hin) as [-> | H1]; [discriminate | exact H1].
Qed.

(** X6.  [pose_pck_accuracy] of a batch of heatmaps of shape (N, K, H, W),
    none of them 0, against itself, with a mask of shape (N, K), a positive
    threshold, the default normalisation and a square root that is 0 at 0:
    it returns K accuracies, each the sentinel -1 or 1, and the averaged
    accuracy is 1 as soon as one keypoint counts (and the integer 0 when none
    does). *)
Theorem pose_pck_self :
  forall (output : batch) (mask : list (list bool)) (thr : Q)
         (N K H W : nat),
    (forall q, q == 0 -> np_sqrt q == 0) ->
    has_shape N K H W output ->
    (0 < N)%nat -> (0 < K)%nat -> (0 < H)%nat -> (0 < W)%nat ->
    Spec.table N K mask -> 0 < thr ->
    exists acc avg_acc cnt,
      TopDownEval.pose_pck_accuracy output output mask thr None
      = Ok (Some acc, avg_acc, cnt) /\
      length acc = K /\
      Forall (fun a => a = -1 \/ a == 1) acc /\
      ((0 < cnt)%nat -> avg_acc == 1) /\
      (cnt = 0%nat -> avg_acc = 0).
Proof.
  intros output mask thr N K H W Hsqrt Hshape HN HK HH HW Hmask Hthr.
  destruct (get_max_preds_cells output N K H W Hshape HN HK HH HW)
    as [preds [maxvals [Hmax Hcells]]].
  destruct (has_shape_first_cell _ _ _ _ _ Hshape HN HK) as [hm0 Hcell0].
  destruct (has_shape_width _ _ _ _ _ _ _ _ Hshape HH Hcell0) as [Hw [Hh Hk]].
  unfold TopDownEval.pose_pck_accuracy.
  rewrite Hk, Hw, Hh, Hmax.
  replace (Nat.eqb K 0) with false by (symmetry; apply Nat.eqb_neq; lia).
  cbv beta iota delta [bind].
  set (nrm := repeat (inject_Z (Z.of_nat H) / 10, inject_Z (Z.of_nat W) / 10)
                     (length output)).
  pose proof (pck_accuracy_bounds preds preds mask thr nrm) as Hb.
  assert (Hn : Forall (fun n => ~ fst n == 0 /\ ~ snd n == 0) nrm).
  { apply Forall_forall. intros n Hin. apply repeat_spec in Hin. subst n.
    pose proof (inject_nat_pos _ HH). pose proof (inject_nat_pos _ HW).
    simpl. split; intro Hz; apply Qmult_integral in Hz;
      destruct Hz as [Hz | Hz]; try lra; revert Hz; unfold Qeq; simpl; lia. }
  pose proof (pck_self preds mask thr nrm Hsqrt Hthr Hn) as Hs.
  destruct (TopDownEval.keypoint_pck_accuracy preds preds mask thr nrm)
    as [[acc avg_acc] cnt].
  cbn [fst snd] in Hb, Hs.
  destruct Hb as [Hlen [_ [_ [_ [_ Hzero]]]]]. destruct Hs as [Hones Havg].
  exists acc, avg_acc, cnt. split; [reflexivity|].
  split; [|split; [exact Hones | split; [exact Havg | exact Hzero]]].
  rewrite Hlen.
  (* the peaks come as N rows of K *)
  unfold TopDownEval._get_max_preds in Hmax.
  apply bind_Ok in Hmax. destruct Hmax as [_ [_ Hmax]].
  apply bind_Ok in Hmax. destruct Hmax as [r [Hr Hmax]].
  inversion Hmax; subst preds maxvals.
  destruct (mapM_nth _ _ _ Hr) as [_ Hrows].
  destruct output as [|i0 rest]; [destruct Hshape; simpl in *; lia|].
  destruct (Hrows 0%nat i0 eq_refl) as [row0 [Hrow0 Hm0]].
  destruct r as [|r0 r']; [discriminate|]. simpl in Hrow0.
  inversion Hrow0; subst r0. cbn [map hd]. rewrite length_map.
  destruct (mapM_nth _ _ _ Hm0) as [Hl0 _]. rewrite Hl0.
  exact Hk.
Qed.

(** *** The PCK of a single instance *)




End Aggregates.

(* ================================================================== *)
(** * Further properties of the decoding *)
(* ================================================================== *)

(** ** More on _get_max_preds *)

Lemma concat_empty_rows {A : Type} (hm : list (list A)) :
  Forall (fun row => length row = 0%nat) hm -> concat hm = [].
Proof.
  intro Hall. induction Hall as [|r t Hr _ IH]; [reflexivity|].
  destruct r; [exact IH | discriminate].
Qed.

Lemma mapM_raises_first {A B : Type} (f : A -> outcome B) (a : A) (t : list A)
    (e : exn) :
  f a = Raises e -> mapM f (a :: t) = Raises e.
Proof. intro Hf. simpl. rewrite Hf. reflexivity. Qed.

Lemma get_max_preds_raises (heatmaps : batch) (N K H W : nat) :
  has_shape N K H W heatmaps ->
  (N = 0 \/ K = 0 \/ H = 0 \/ W = 0)%nat ->
  TopDownEval._get_max_preds heatmaps = Raises ValueError.
Proof.
  intros Hshape Hzero. unfold TopDownEval._get_max_preds.
  destruct (Nat.eq_dec (N * K) 0) as [Hnk | Hnk].
  - unfold TopDownEval.reshape_rows, num_joints.
    destruct Hshape as [Hlen Hall].
    replace (Nat.eqb (length heatmaps * length (hd [] heatmaps)) 0) with true;
      [reflexivity|].
    symmetry. apply Nat.eqb_eq. rewrite Hlen.
    destruct heatmaps as [|i0 rest]; [simpl in *; lia|].
    inversion Hall as [|? ? [Hk _] _]. simpl. rewrite Hk. exact Hnk.
  - assert (HN : (0 < N)%nat) by lia. assert (HK : (0 < K)%nat) by nia.
    rewrite (reshape_rows_Ok _ _ _ _ _ Hshape HN HK).
    cbv beta iota delta [bind].
    destruct Hshape as [Hlen Hall].
    destruct heatmaps as [|i0 rest]; [simpl in Hlen; lia|].
    inversion Hall as [|? ? [Hk Hch] _].
    destruct i0 as [|c0 i0']; [simpl in Hk; lia|].
    inversion Hch as [|? ? [Hh Hrows] _].
    assert (Hempty : concat c0 = []).
    { destruct Hzero as [Hz | [Hz | [Hz | Hz]]]; try lia.
      - destruct c0; [reflexivity | simpl in Hh; lia].
      - apply concat_empty_rows. subst W. exact Hrows. }
    rewrite (mapM_raises_first _ _ _ ValueError); [reflexivity|].
    apply mapM_raises_first.
    unfold TopDownEval.max_pred. rewrite Hempty. reflexivity.
Qed.

(** X9.  On a batch of shape (N, K, H, W) with a dimension 0,
    [_get_max_preds] raises ValueError (the reshape cannot place its -1 when
    N * K = 0, the argmax has nothing to look at when H * W = 0), and so does
    [keypoints_from_heatmaps] in every mode that starts with it: without UDP,
    and with UDP for the target type GaussianHeatMap. *)
Theorem empty_heatmaps_raise :
  forall {Ext : External} (heatmaps : batch) (N K H W : nat)
         (center scale : list (Q * Q)) (post_process unbiased : bool)
         (kernel : Z) (kpd : Q) (target_type : string),
    has_shape N K H W heatmaps ->
    (N = 0 \/ K = 0 \/ H = 0 \/ W = 0)%nat ->
    TopDownEval._get_max_preds heatmaps = Raises ValueError /\
    TopDownEval.keypoints_from_heatmaps heatmaps center scale post_process
      unbiased kernel kpd false target_type = Raises ValueError /\
    TopDownEval.keypoints_from_heatmaps heatmaps center scale post_process
      unbiased kernel kpd true "GaussianHeatMap" = Raises ValueError.
Proof.
  intros Ext heatmaps N K H W center scale post_process unbiased kernel kpd
         target_type Hshape Hzero.
  pose proof (get_max_preds_raises heatmaps N K H W Hshape Hzero) as Hr.
  split; [exact Hr|].
  unfold TopDownEval.keypoints_from_heatmaps. cbv zeta.
  rewrite Hr. split; reflexivity.
Qed.

(** The two arrays [_get_max_preds] returns have N rows of K entries. *)
Lemma get_max_preds_tables (heatmaps : batch) (N K H W : nat)
    (preds : points) (maxvals : list (list Q)) :
  has_shape N K H W heatmaps ->
  TopDownEval._get_max_preds heatmaps = Ok (preds, maxvals) ->
  Spec.table N K preds /\ Spec.table N K maxvals.
Proof.
  intros [Hlen Hall] Hmax. unfold TopDownEval._get_max_preds in Hmax.
  apply bind_Ok in Hmax. destruct Hmax as [_ [_ Hmax]].
  apply bind_Ok in Hmax. destruct Hmax as [r [Hr Hmax]].
  inversion Hmax; subst preds maxvals.
  destruct (mapM_nth _ _ _ Hr) as [Hl _].
  assert (Hrows : Forall (fun row => length row = K) r).
  { apply (mapM_Forall _ _ _ _ Hr). intros inst row Hin Hrow.
    destruct (mapM_nth _ _ _ Hrow) as [Hl' _].
    rewrite Forall_forall in Hall. destruct (Hall _ Hin) as [Hk _]. lia. }
  split; (split; [rewrite length_map; lia|]);
    apply Forall_forall; intros row Hin; apply in_map_iff in Hin;
    destruct Hin as [row' [<- Hin]]; rewrite length_map;
    rewrite Forall_forall in Hrows; apply Hrows; exact Hin.
Qed.

Lemma has_shape_table (N K H W : nat) (b : batch) :
  has_shape N K H W b -> Spec.table N K b.
Proof.
  intros [Hl Hall]. split; [exact Hl|].
  eapply Forall_impl; [|exact Hall]. intros inst [Hk _]. exact Hk.
Qed.

Lemma has_shape_dims (N K H W : nat) (b : batch) :
  has_shape N K H W b -> (0 < N)%nat -> (0 < K)%nat -> (0 < H)%nat ->
  width b = W /\ height b = H /\ num_joints b = K.
Proof.
  intros Hshape HN HK HH.
  destruct (has_shape_first_cell _ _ _ _ _ Hshape HN HK) as [hm0 Hcell0].
  exact (has_shape_width _ _ _ _ _ _ _ _ Hshape HH Hcell0).
Qed.

Lemma get_max_preds_range :
  forall (heatmaps : batch) (N K H W : nat),
    has_shape N K H W heatmaps ->
    (0 < N)%nat -> (0 < K)%nat -> (0 < H)%nat -> (0 < W)%nat ->
    (Z.of_nat H * Z.of_nat W <= 16777216)%Z ->
    exists preds maxvals,
      TopDownEval._get_max_preds heatmaps = Ok (preds, maxvals) /\
      Spec.table N K preds /\ Spec.table N K maxvals /\
      forall n k p v,
        cell preds n k = Some p -> cell maxvals n k = Some v ->
        (0 < v /\ Spec.in_map H W p) \/ (v <= 0 /\ p = (-1, -1)).
Proof.
  intros heatmaps N K H W Hshape HN HK HH HW Hsize.
  destruct (get_max_preds_cells_exact heatmaps N K H W Hshape HN HK HH HW Hsize)
    as [preds [maxvals [Hmax Hcells]]].
  destruct (get_max_preds_tables _ _ _ _ _ _ _ Hshape Hmax) as [Hp Hm].
  exists preds, maxvals. split; [exact Hmax|]. split; [exact Hp|].
  split; [exact Hm|].
  intros n k p v Hcp Hcv.
  destruct (table_cell_bound _ _ _ _ _ _ Hp Hcp) as [Hn Hk].
  destruct (table_cell N K heatmaps n k (has_shape_table _ _ _ _ _ Hshape) Hn Hk)
    as [hm Hhm].
  destruct (Hcells n k hm Hhm) as [idx [[Hidx _] [Hv [Hpos Hneg]]]].
  rewrite Hcv in Hv. inversion Hv; subst v. clear Hv.
  pose proof (has_shape_cell _ _ _ _ _ _ _ _ Hshape Hhm) as Hrect.
  rewrite (table_concat_length H W hm Hrect) in Hidx.
  destruct (Qlt_le_dec 0 (nth idx (concat hm) 0)) as [Hlt | Hle].
  - left. split; [exact Hlt|].
    rewrite (Hpos Hlt) in Hcp. inversion Hcp; subst p.
    exists (Z.of_nat idx mod Z.of_nat W)%Z, (Z.of_nat idx / Z.of_nat W)%Z.
    split; [reflexivity|]. split.
    + apply Z.mod_pos_bound. lia.
    + split; [apply Z.div_pos; lia|].
      apply Z.div_lt_upper_bound; nia.
  - right. split; [exact Hle|].
    rewrite (Hneg Hle) in Hcp. inversion Hcp. reflexivity.
Qed.

(** X10.  On a batch of shape (N, K, H, W), none of them 0 and H * W at
    most 2^24 (so that float32 holds every flattened index),
    [_get_max_preds] returns N rows of K coordinates and N rows of K maxima;
    a coordinate whose maximum is positive is a pair of integers (x, y) with
    0 <= x < W and 0 <= y < H, and a coordinate whose maximum is not positive
    is the sentinel (-1, -1). *)
Theorem get_max_preds_in_grid :
  forall (heatmaps : batch) (N K H W : nat),
    has_shape N K H W heatmaps ->
    (0 < N)%nat -> (0 < K)%nat -> (0 < H)%nat -> (0 < W)%nat ->
    (Z.of_nat H * Z.of_nat W <= 16777216)%Z ->
    exists preds maxvals,
      TopDownEval._get_max_preds heatmaps = Ok (preds, maxvals) /\
      Spec.table N K preds /\ Spec.table N K maxvals /\
      forall n k p v,
        cell preds n k = Some p -> cell maxvals n k = Some v ->
        (0 < v /\ Spec.in_map H W p) \/ (v <= 0 /\ p = (-1, -1)).
Proof. exact get_max_preds_range. Qed.

Lemma at_flat (H W : nat) (hm : heatmap) (y x : nat) :
  rect H W hm -> (y < H)%nat -> (x < W)%nat ->
  nth (y * W + x) (concat hm) 0 = Spec.at_ hm (Z.of_nat y) (Z.of_nat x).
Proof.
  intros Hrect Hy Hx. unfold Spec.at_. rewrite !Nat2Z.id.
  destruct (table_cell H W hm y x Hrect Hy Hx) as [v Hv].
  pose proof (nth_error_concat_table H W hm y x Hrect Hx) as Hflat.
  rewrite Hv in Hflat. rewrite (nth_error_nth _ _ 0 Hflat).
  unfold cell in Hv. destruct (nth_error hm y) as [row|] eqn:E; [|discriminate].
  rewrite (nth_error_nth _ _ [] E). symmetry. apply nth_error_nth. exact Hv.
Qed.

(** X11.  On a batch whose channels have at most 2^24 cells: if one cell
    (x, y) of a channel holds a positive value that is larger than the value
    of every other cell, [_get_max_preds] reports the coordinate (x, y) and
    that value for the channel. *)
Theorem single_peak_located :
  forall (heatmaps : batch) (N K H W : nat) (n k : nat) (hm : heatmap)
         (x y : nat),
    has_shape N K H W heatmaps ->
    (Z.of_nat H * Z.of_nat W <= 16777216)%Z ->
    cell heatmaps n k = Some hm ->
    (x < W)%nat -> (y < H)%nat ->
    0 < Spec.at_ hm (Z.of_nat y) (Z.of_nat x) ->
    (forall x' y', (x' < W)%nat -> (y' < H)%nat -> (x', y') <> (x, y) ->
       Spec.at_ hm (Z.of_nat y') (Z.of_nat x')
       < Spec.at_ hm (Z.of_nat y) (Z.of_nat x)) ->
    exists preds maxvals,
      TopDownEval._get_max_preds heatmaps = Ok (preds, maxvals) /\
      cell preds n k = Some (inject_Z (Z.of_nat x), inject_Z (Z.of_nat y)) /\
      cell maxvals n k = Some (Spec.at_ hm (Z.of_nat y) (Z.of_nat x)).
Proof.
  intros heatmaps N K H W n k hm x y Hshape Hsize Hcell Hx Hy Hpos Hpeak.
  destruct (table_cell_bound _ _ _ _ _ _ (has_shape_table _ _ _ _ _ Hshape) Hcell)
    as [Hn Hk].
  destruct (get_max_preds_cells_exact heatmaps N K H W Hshape
              ltac:(lia) ltac:(lia) ltac:(lia) ltac:(lia) Hsize)
    as [preds [maxvals [Hmax Hcells]]].
  exists preds, maxvals. split; [exact Hmax|].
  destruct (Hcells n k hm Hcell) as [idx [[Hidx [Hge _]] [Hv [Hp _]]]].
  pose proof (has_shape_cell _ _ _ _ _ _ _ _ Hshape Hcell) as Hrect.
  rewrite (table_concat_length H W hm Hrect) in Hidx, Hge.
  assert (Hidx_eq : idx = (y * W + x)%nat).
  { destruct (Nat.eq_dec idx (y * W + x)) as [He | Hne]; [exact He|].
    exfalso.
    assert (Hy' : (idx / W < H)%nat)
      by (apply Nat.Div0.div_lt_upper_bound; lia).
    assert (Hx' : (idx mod W < W)%nat) by (apply Nat.mod_upper_bound; lia).
    assert (Hsplit : idx = (idx / W * W + idx mod W)%nat)
      by (rewrite (Nat.div_mod_eq idx W) at 1; lia).
    assert (Hother : ((idx mod W)%nat, (idx / W)%nat) <> (x, y)).
    { intro Heq. inversion Heq. apply Hne. rewrite Hsplit. congruence. }
    pose proof (Hpeak _ _ Hx' Hy' Hother) as Hlt.
    rewrite <- (at_flat H W hm (idx / W) (idx mod W) Hrect Hy' Hx') in Hlt.
    rewrite <- Hsplit in Hlt.
    rewrite <- (at_flat H W hm y x Hrect Hy Hx) in Hlt.
    assert (Hle := Hge (y * W + x)%nat ltac:(nia)).
    exact (Qlt_not_le _ _ Hlt Hle). }
  subst idx. rewrite (at_flat H W hm y x Hrect Hy Hx) in Hv, Hp.
  split; [|exact Hv].
  rewrite (Hp Hpos). do 3 f_equal.
  - rewrite <- Nat2Z.inj_mod. f_equal.
    rewrite Nat.add_comm, Nat.Div0.mod_add. apply Nat.mod_small. exact Hx.
  - rewrite <- Nat2Z.inj_div. f_equal.
    rewrite Nat.add_comm, Nat.div_add by lia.
    rewrite Nat.div_small by exact Hx. reflexivity.
Qed.

(** ** The branches without UDP *)

Section Decoding.
Context {Ext : External}.

(** *** The transform back to the image *)

Lemma skipn_nth_cons {A : Type} (l : list A) (s : nat) (d : A) :
  (s < length l)%nat -> skipn s l = nth s l d :: skipn (S s) l.
Proof.
  revert s. induction l as [|a l IH]; intros s Hs; [simpl in Hs; lia|].
  destruct s as [|s]; [reflexivity|]. simpl in Hs.
  change (skipn (S s) (a :: l)) with (skipn s l).
  rewrite (IH s) by lia. reflexivity.
Qed.

Lemma transform_back_from (W H : Z) (use_udp : bool) (p : points)
    (center scale : list (Q * Q)) (s : nat) :
  (s + length p <= length center)%nat ->
  (s + length p <= length scale)%nat ->
  mapM (fun '(i, p0) =>
          c <- py_index center i ;;
          sc <- py_index scale i ;;
          Ok (transform_preds p0 c sc (W, H) use_udp))
       (combine (map Z.of_nat (seq s (length p))) p)
  = Ok (map (fun '(p0, (c, sc)) => transform_preds p0 c sc (W, H) use_udp)
            (combine p (combine (skipn s center) (skipn s scale)))).
Proof.
  revert s. induction p as [|x p IH]; intros s Hc Hs; [reflexivity|].
  simpl length in *. cbn [seq map combine mapM].
  rewrite (IH (S s)) by lia.
  rewrite (py_index_in_range center (Z.of_nat s) (0, 0)) by lia.
  rewrite (py_index_in_range scale (Z.of_nat s) (0, 0)) by lia.
  cbv beta iota delta [bind]. rewrite Nat2Z.id.
  rewrite (skipn_nth_cons center s (0, 0)) by lia.
  rewrite (skipn_nth_cons scale s (0, 0)) by lia.
  reflexivity.
Qed.

(** The last loop returns when there is a centre and a scale for every
    instance: instance i is handed to [transform_preds] with [center[i]] and
    [scale[i]]. *)
Lemma transform_back_returns (W H : Z) (use_udp : bool) (p : points)
    (center scale : list (Q * Q)) :
  (length p <= length center)%nat -> (length p <= length scale)%nat ->
  TopDownEval.transform_back W H use_udp p center scale
  = Ok (map (fun '(p0, (c, sc)) => transform_preds p0 c sc (W, H) use_udp)
            (combine p (combine center scale))).
Proof.
  intros Hc Hs. unfold TopDownEval.transform_back, indexed.
  apply (transform_back_from W H use_udp p center scale 0 Hc Hs).
Qed.

(** *** The shift branch *)

Lemma np_sign_quarter (g : Q) :
  - (1#4) <= np_sign g * (1#4) /\ np_sign g * (1#4) <= 1#4.
Proof.
  unfold np_sign. destruct (Qltb 0 g); [|destruct (Qltb g 0)]; split; lra.
Qed.

(** One turn of the shift loop returns and moves the peak by at most a
    quarter pixel on each axis. *)
Lemma shift_pred_bounded (h : heatmap) (H W : nat) (p : Q * Q) :
  rect H W h ->
  exists q,
    TopDownEval.shift_pred (Z.of_nat W) (Z.of_nat H) h p = Ok q /\
    - (1#4) <= fst q - fst p /\ fst q - fst p <= 1#4 /\
    - (1#4) <= snd q - snd p /\ snd q - snd p <= 1#4.
Proof.
  intro Hrect.
  destruct (shift_pred_condition h H W p Hrect) as [Hin Hout].
  cbv zeta in Hin, Hout.
  unfold Spec.left_gap, Spec.right_gap, Spec.top_gap, Spec.bottom_gap
    in Hin, Hout.
  assert (Hdec : (2 <= py_int (fst p) /\
                  1 <= Z.of_nat W - 1 - py_int (fst p) /\
                  2 <= py_int (snd p) /\
                  1 <= Z.of_nat H - 1 - py_int (snd p))%Z \/
                 ~ (2 <= py_int (fst p) /\
                    1 <= Z.of_nat W - 1 - py_int (fst p) /\
                    2 <= py_int (snd p) /\
                    1 <= Z.of_nat H - 1 - py_int (snd p))%Z) by lia.
  destruct Hdec as [Ha | Hna].
  - eexists. split; [apply Hin; exact Ha|]. cbn [fst snd].
    pose proof (np_sign_quarter
                  (Spec.shift_gx h (py_int (fst p)) (py_int (snd p)))).
    pose proof (np_sign_quarter
                  (Spec.shift_gy h (py_int (fst p)) (py_int (snd p)))).
    repeat split; lra.
  - exists p. split; [apply Hout; exact Hna|]. repeat split; lra.
Qed.

Lemma refine_each_table (f : heatmap -> Q * Q -> outcome (Q * Q))
    (hms : batch) (ps out : points) (N K : nat) :
  Spec.table N K hms -> Spec.table N K ps ->
  TopDownEval.refine_each f hms ps = Ok out ->
  Spec.table N K out.
Proof.
  intros [Hhl Hhr] [Hpl Hpr] Hout. unfold TopDownEval.refine_each in Hout.
  destruct (mapM_nth _ _ _ Hout) as [Hl _].
  split; [rewrite Hl, length_combine; lia|].
  apply (mapM_Forall _ _ _ _ Hout). intros [h_row p_row] row Hin Hrow.
  destruct (mapM_nth _ _ _ Hrow) as [Hl' _].
  rewrite Hl', length_combine.
  rewrite Forall_forall in Hhr, Hpr.
  rewrite (Hhr _ (in_combine_l _ _ _ _ Hin)), (Hpr _ (in_combine_r _ _ _ _ Hin)).
  lia.
Qed.

(** X12.  On a batch of shape (N, K, H, W), none of them 0, with a centre
    and a scale for each of the N instances, the shift branch of
    [keypoints_from_heatmaps] (post_process on, unbiased off, no UDP) returns:
    no read leaves a heatmap.  The scores are the maxima of
    [_get_max_preds], the heatmaps are left as they were, the predictions are
    what [transform_preds] makes of N rows of K shifted peaks, and no shifted
    peak is further than a quarter pixel from its integer peak on either
    axis. *)
Theorem shift_mode_returns :
  forall (heatmaps : batch) (N K H W : nat) (center scale : list (Q * Q))
         (kernel : Z) (kpd : Q) (target_type : string),
    has_shape N K H W heatmaps ->
    (0 < N)%nat -> (0 < K)%nat -> (0 < H)%nat -> (0 < W)%nat ->
    length center = N -> length scale = N ->
    exists peaks maxvals shifted,
      TopDownEval._get_max_preds heatmaps = Ok (peaks, maxvals) /\
      TopDownEval.keypoints_from_heatmaps heatmaps center scale true false
        kernel kpd false target_type
      = Ok {| TopDownEval.preds :=
                map (fun '(p, (c, s)) =>
                       transform_preds p c s (Z.of_nat W, Z.of_nat H) false)
                    (combine shifted (combine center scale));
              TopDownEval.maxvals := maxvals;
              TopDownEval.heatmaps_after := heatmaps |} /\
      Spec.table N K shifted /\
      forall n k peak q,
        cell peaks n k = Some peak -> cell shifted n k = Some q ->
        - (1#4) <= fst q - fst peak /\ fst q - fst peak <= 1#4 /\
        - (1#4) <= snd q - snd peak /\ snd q - snd peak <= 1#4.
Proof.
  intros heatmaps N K H W center scale kernel kpd target_type
         Hshape HN HK HH HW Hc Hs.
  destruct (get_max_preds_cells heatmaps N K H W Hshape HN HK HH HW)
    as [peaks [maxvals [Hmax _]]].
  destruct (get_max_preds_tables _ _ _ _ _ _ _ Hshape Hmax) as [Hpt _].
  pose proof (has_shape_table _ _ _ _ _ Hshape) as Hht.
  destruct (refine_each_cells
              (TopDownEval.shift_pred (Z.of_nat W) (Z.of_nat H))
              heatmaps peaks) as [shifted [Hshifted Hcellsq]].
  { intros n k h p Hh _.
    destruct (shift_pred_bounded h H W p
                (has_shape_cell _ _ _ _ _ _ _ _ Hshape Hh)) as [q [Hq _]].
    exists q. exact Hq. }
  pose proof (refine_each_table _ _ _ _ N K Hht Hpt Hshifted) as Hst.
  exists peaks, maxvals, shifted. split; [exact Hmax|]. split; [|split].
  - unfold TopDownEval.keypoints_from_heatmaps. cbv zeta.
    rewrite Hmax. cbv beta iota delta [bind].
    destruct (has_shape_dims _ _ _ _ _ Hshape HN HK HH) as [Hw [Hh _]].
    rewrite Hw, Hh, Hshifted.
    rewrite transform_back_returns by (destruct Hst; lia).
    reflexivity.
  - exact Hst.
  - intros n k peak q Hpk Hq.
    destruct (table_cell_bound _ _ _ _ _ _ Hpt Hpk) as [Hn Hk].
    destruct (table_cell N K heatmaps n k Hht Hn Hk) as [hm Hhm].
    destruct (Hcellsq n k hm peak Hhm Hpk) as [q' [Hq' Hfq]].
    rewrite Hq in Hq'. inversion Hq'; subst q'.
    destruct (shift_pred_bounded hm H W peak
                (has_shape_cell _ _ _ _ _ _ _ _ Hshape Hhm)) as [q2 [Hq2 Hb]].
    rewrite Hfq in Hq2. inversion Hq2; subst q2. exact Hb.
Qed.

(** *** The unbiased branch *)

(** X13.  On a batch of shape (N, K, H, W), none of them 0, the unbiased
    branch of [keypoints_from_heatmaps] raises AssertionError for a kernel
    size that is not positive ([assert kernel > 0]) and for one that is even
    ([assert kernel % 2 == 1] of [_gaussian_blur]). *)
Theorem unbiased_kernel_asserted :
  forall (heatmaps : batch) (N K H W : nat) (center scale : list (Q * Q))
         (kernel : Z) (kpd : Q) (target_type : string),
    has_shape N K H W heatmaps ->
    (0 < N)%nat -> (0 < K)%nat -> (0 < H)%nat -> (0 < W)%nat ->
    (kernel <= 0)%Z \/ Z.even kernel = true ->
    TopDownEval.keypoints_from_heatmaps heatmaps center scale true true
      kernel kpd false target_type = Raises AssertionError.
Proof.
  intros heatmaps N K H W center scale kernel kpd target_type
         Hshape HN HK HH HW Hbad.
  destruct (get_max_preds_cells heatmaps N K H W Hshape HN HK HH HW)
    as [peaks [maxvals [Hmax _]]].
  unfold TopDownEval.keypoints_from_heatmaps. cbv zeta.
  rewrite Hmax. cbv beta iota delta [bind].
  destruct (0 <? kernel)%Z eqn:Epos; [|reflexivity].
  apply Z.ltb_lt in Epos. destruct Hbad as [Hle | Heven]; [lia|].
  cbv beta iota delta [py_assert bind].
  unfold TopDownEval._gaussian_blur.
  replace (kernel mod 2 =? 1)%Z with false; [reflexivity|].
  symmetry. apply Z.eqb_neq. rewrite Zmod_even, Heven. discriminate.
Qed.

Lemma blur_channel_kernel_one (H W : nat) (hm : heatmap) :
  rect H W hm -> (0 < H)%nat -> (0 < W)%nat ->
  TopDownEval.blur_channel 1 ((1 - 1) / 2) H W hm = Raises ValueError.
Proof.
  intros Hrect HH HW. unfold TopDownEval.blur_channel.
  destruct (np_argmax_amax (concat hm)
              (rect_concat_nonempty H W hm Hrect HH HW)) as [idx [_ [Hmax _]]].
  rewrite Hmax. cbv beta iota delta [bind].
  change ((1 - 1) / 2)%Z with 0%Z.
  replace ((Z.of_nat H + 2 * 0 <? 0) || (Z.of_nat W + 2 * 0 <? 0))%Z
    with false
    by (symmetry; apply orb_false_iff; split; apply Z.ltb_ge; lia).
  cbv beta iota.
  unfold py_slice2_assign, py_slice, slice_bound. simpl Z.opp.
  simpl (0 <? 0)%Z. cbv iota.
  replace (Z.to_nat (Z.min _ (Z.max 0 0))) with 0%nat by lia.
  simpl firstn. destruct Hrect as [Hl _]. simpl length at 2.
  replace (Nat.eqb (length hm) 0) with false
    by (symmetry; apply Nat.eqb_neq; lia).
  reflexivity.
Qed.

(** X14.  With kernel size 1 the border is 0 and [dr[0:-0, 0:-0]] is an
    empty slice: on a batch of shape (N, K, H, W), none of them 0,
    [_gaussian_blur] raises ValueError at the first channel, and so does the
    unbiased branch of [keypoints_from_heatmaps]. *)
Theorem kernel_one_raises :
  forall (heatmaps : batch) (N K H W : nat) (center scale : list (Q * Q))
         (kpd : Q) (target_type : string),
    has_shape N K H W heatmaps ->
    (0 < N)%nat -> (0 < K)%nat -> (0 < H)%nat -> (0 < W)%nat ->
    TopDownEval._gaussian_blur heatmaps 1 = Raises ValueError /\
    TopDownEval.keypoints_from_heatmaps heatmaps center scale true true
      1 kpd false target_type = Raises ValueError.
Proof.
  intros heatmaps N K H W center scale kpd target_type Hshape HN HK HH HW.
  assert (Hblur : TopDownEval._gaussian_blur heatmaps 1 = Raises ValueError).
  { unfold TopDownEval._gaussian_blur.
    change (1 mod 2 =? 1)%Z with true. cbv beta iota delta [py_assert bind].
    destruct (has_shape_dims _ _ _ _ _ Hshape HN HK HH) as [Hw [Hh _]].
    rewrite Hw, Hh.
    destruct Hshape as [Hl Hall].
    destruct heatmaps as [|i0 rest]; [simpl in Hl; lia|].
    inversion Hall as [|? ? [Hk Hch] _].
    destruct i0 as [|c0 i0']; [simpl in Hk; lia|].
    inversion Hch as [|? ? Hrect _].
    apply mapM_raises_first. apply mapM_raises_first.
    apply blur_channel_kernel_one; assumption. }
  split; [exact Hblur|].
  destruct (get_max_preds_cells heatmaps N K H W Hshape HN HK HH HW)
    as [peaks [maxvals [Hmax _]]].
  unfold TopDownEval.keypoints_from_heatmaps. cbv zeta.
  rewrite Hmax. cbv beta iota delta [bind].
  change (0 <? 1)%Z with true. cbv beta iota delta [py_assert bind].
  rewrite Hblur. reflexivity.
Qed.

Lemma mapM_Ok_or {A B : Type} (f : A -> outcome B) (l : list A) (e : exn) :
  (forall a, In a l -> f a = Raises e \/ exists b, f a = Ok b) ->
  mapM f l = Raises e \/ exists bs, mapM f l = Ok bs.
Proof.
  induction l as [|a t IH]; intro Hall.
  - right. exists []. reflexivity.
  - simpl. destruct (Hall a (or_introl eq_refl)) as [Hr | [b Hb]].
    + left. rewrite Hr. reflexivity.
    + rewrite Hb. cbv beta iota delta [bind].
      destruct IH as [Hr | [bs Hbs]].
      * intros x Hx. apply Hall. right. exact Hx.
      * left. rewrite Hr. reflexivity.
      * right. exists (b :: bs). rewrite Hbs. reflexivity.
Qed.

(** With an inversion that returns or raises LinAlgError, [_taylor] on an
    H x W channel does the same: no read leaves the channel. *)
Lemma taylor_outcomes (hm : heatmap) (H W : nat) (coord : Q * Q) :
  (forall a b c d,
     np_linalg_inv a b c d = Raises LinAlgError \/
     exists m, np_linalg_inv a b c d = Ok m) ->
  rect H W hm ->
  TopDownEval._taylor hm coord = Raises LinAlgError \/
  exists r, TopDownEval._taylor hm coord = Ok r.
Proof.
  intros Hinv Hrect.
  pose proof (taylor_cases hm H W coord Hrect) as Hc. cbv zeta in Hc.
  destruct Hc as [Hskip Hstep].
  unfold Spec.left_gap, Spec.right_gap, Spec.top_gap, Spec.bottom_gap
    in Hskip, Hstep.
  set (px := py_int (fst coord)) in *. set (py := py_int (snd coord)) in *.
  match type of Hskip with
  | ~ ?inside \/ ?tested == 0 -> _ =>
      destruct (Qeq_dec tested 0) as [Hz | Hnz];
        [right; exists coord; apply Hskip; right; exact Hz|];
      assert (Hdec : inside \/ ~ inside) by lia;
      destruct Hdec as [Hin | Hout];
        [|right; exists coord; apply Hskip; left; exact Hout]
  end.
  rewrite (Hstep (conj Hin Hnz)).
  match goal with
  | |- context [np_linalg_inv ?a ?b ?c ?d] =>
      destruct (Hinv a b c d) as [Hr | [[[[i00 i01] i10] i11] Hm]]
  end.
  - left. rewrite Hr. reflexivity.
  - right. rewrite Hm. cbv beta iota delta [bind]. eexists. reflexivity.
Qed.

Lemma refine_each_outcomes (f : heatmap -> Q * Q -> outcome (Q * Q))
    (hms : batch) (ps : points) (e : exn) :
  (forall n k h p, cell hms n k = Some h -> cell ps n k = Some p ->
     f h p = Raises e \/ exists q, f h p = Ok q) ->
  TopDownEval.refine_each f hms ps = Raises e \/
  exists out, TopDownEval.refine_each f hms ps = Ok out.
Proof.
  intro Hall. unfold TopDownEval.refine_each.
  apply mapM_Ok_or. intros [h_row p_row] Hin.
  destruct (in_combine_nth _ _ _ _ Hin) as [n [Hh Hp]].
  apply mapM_Ok_or. intros [h p] Hin'.
  destruct (in_combine_nth _ _ _ _ Hin') as [k [Hh' Hp']].
  apply (Hall n k); unfold cell; [rewrite Hh | rewrite Hp]; assumption.
Qed.

Lemma has_shape_map (g : Q -> Q) (b : batch) (N K H W : nat) :
  has_shape N K H W b ->
  has_shape N K H W (map (map (map (map g))) b).
Proof.
  intros [Hl Hall]. split; [rewrite length_map; exact Hl|].
  apply Forall_forall. intros inst Hin. apply in_map_iff in Hin.
  destruct Hin as [inst0 [<- Hin]]. rewrite Forall_forall in Hall.
  destruct (Hall _ Hin) as [Hk Hch]. split; [rewrite length_map; exact Hk|].
  apply Forall_forall. intros hm Hhm. apply in_map_iff in Hhm.
  destruct Hhm as [hm0 [<- Hhm]]. rewrite Forall_forall in Hch.
  destruct (Hch _ Hhm) as [Hh Hrows]. split; [rewrite length_map; exact Hh|].
  apply Forall_forall. intros row Hrow. apply in_map_iff in Hrow.
  destruct Hrow as [row0 [<- Hrow]]. rewrite Forall_forall in Hrows.
  rewrite length_map. apply Hrows. exact Hrow.
Qed.

(** A batch mapped channel by channel keeps (N, K) and takes the shape of
    the new channels. *)
Lemma mapM2_shape (f : heatmap -> outcome heatmap) (b out : batch)
    (N K H W : nat) (P : heatmap -> Prop) :
  has_shape N K H W b ->
  (forall n k hm, cell b n k = Some hm -> P hm) ->
  mapM (mapM f) b = Ok out ->
  (forall hm hm', rect H W hm -> P hm -> f hm = Ok hm' -> rect H W hm') ->
  has_shape N K H W out.
Proof.
  intros [Hl Hall] HP Hout Hf.
  destruct (mapM_nth _ _ _ Hout) as [Hlen _].
  split; [lia|].
  apply (mapM_Forall _ _ _ _ Hout). intros inst inst' Hin Hinst.
  rewrite Forall_forall in Hall. destruct (Hall _ Hin) as [Hk Hch].
  destruct (mapM_nth _ _ _ Hinst) as [Hlen' _].
  split; [lia|].
  apply (mapM_Forall _ _ _ _ Hinst). intros hm hm' Hhm Hb.
  rewrite Forall_forall in Hch.
  destruct (in_cell _ _ _ Hin Hhm) as [n [k Hcell]].
  exact (Hf hm hm' (Hch _ Hhm) (HP _ _ _ Hcell) Hb).
Qed.

(** The modulation returns a batch of the shape it was given. *)
Lemma gaussian_blur_returns (heatmaps : batch) (N K H W : nat) (kernel : Z) :
  has_shape N K H W heatmaps ->
  (0 < N)%nat -> (0 < K)%nat -> (0 < H)%nat -> (0 < W)%nat ->
  (3 <= kernel)%Z -> Z.odd kernel = true ->
  Spec.gaussian_like (Cv2.getGaussianKernel kernel) ->
  (forall n k hm, cell heatmaps n k = Some hm ->
     Spec.nonneg_channel hm /\ Spec.has_positive hm) ->
  exists out,
    TopDownEval._gaussian_blur heatmaps kernel = Ok out /\
    has_shape N K H W out.
Proof.
  intros Hshape HN HK HH HW Hk Hodd Hkern Hch.
  unfold TopDownEval._gaussian_blur.
  assert (Hmod : (kernel mod 2 =? 1)%Z = true).
  { apply Z.eqb_eq. rewrite Zmod_odd, Hodd. reflexivity. }
  rewrite Hmod. cbv beta iota delta [py_assert bind].
  destruct (has_shape_dims _ _ _ _ _ Hshape HN HK HH) as [Hw [Hh _]].
  rewrite Hw, Hh.
  destruct (mapM_Ok (mapM (TopDownEval.blur_channel kernel ((kernel - 1) / 2)
                             H W)) heatmaps) as [out Hout].
  { intros inst Hinst. apply mapM_Ok. intros hm Hhm.
    destruct (in_cell _ _ _ Hinst Hhm) as [n [k Hcell]].
    destruct (Hch _ _ _ Hcell) as [Hnn Hpos].
    destruct (blur_channel_keeps_peak kernel H W hm Hk Hodd Hkern
                (has_shape_cell _ _ _ _ _ _ _ _ Hshape Hcell) Hnn Hpos)
      as [hm' [_ [_ [Hb _]]]].
    exists hm'. exact Hb. }
  exists out. split; [exact Hout|].
  apply (mapM2_shape _ heatmaps out N K H W
           (fun hm => Spec.nonneg_channel hm /\ Spec.has_positive hm)
           Hshape Hch Hout).
  intros hm hm' Hrect [Hnn Hpos] Hb.
  destruct (blur_channel_keeps_peak kernel H W hm Hk Hodd Hkern Hrect Hnn Hpos)
    as [hm'' [m [m' [Hb' [_ [_ [_ Hr]]]]]]].
  rewrite Hb in Hb'. inversion Hb'; subst hm''. exact Hr.
Qed.

(** X15.  On a batch of shape (N, K, H, W), none of them 0, whose channels
    hold no negative value and some positive value, with an odd kernel size
    of at least 3 (its coefficients none negative, the middle one positive),
    a centre and a scale for each instance, and an inversion that returns or
    raises LinAlgError: in the unbiased branch of [keypoints_from_heatmaps]
    the modulation succeeds and keeps the shape, and the call has two
    outcomes only.  Either [np.linalg.inv] raises LinAlgError inside
    [_taylor], or the call returns: the scores are the maxima of the
    heatmaps as they were given, the array of the caller holds the modulated
    heatmaps, and the predictions are what [transform_preds] makes of N rows
    of K refined peaks. *)
Theorem unbiased_mode_outcomes :
  forall (heatmaps : batch) (N K H W : nat) (center scale : list (Q * Q))
         (kernel : Z) (kpd : Q) (target_type : string),
    has_shape N K H W heatmaps ->
    (0 < N)%nat -> (0 < K)%nat -> (0 < H)%nat -> (0 < W)%nat ->
    (3 <= kernel)%Z -> Z.odd kernel = true ->
    Spec.gaussian_like (Cv2.getGaussianKernel kernel) ->
    (forall n k hm, cell heatmaps n k = Some hm ->
       Spec.nonneg_channel hm /\ Spec.has_positive hm) ->
    length center = N -> length scale = N ->
    (forall a b c d,
       np_linalg_inv a b c d = Raises LinAlgError \/
       exists m, np_linalg_inv a b c d = Ok m) ->
    exists peaks maxvals modulated,
      TopDownEval._get_max_preds heatmaps = Ok (peaks, maxvals) /\
      TopDownEval._gaussian_blur heatmaps kernel = Ok modulated /\
      has_shape N K H W modulated /\
      (TopDownEval.keypoints_from_heatmaps heatmaps center scale true true
         kernel kpd false target_type = Raises LinAlgError \/
       exists refined,
         Spec.table N K refined /\
         TopDownEval.keypoints_from_heatmaps heatmaps center scale true true
           kernel kpd false target_type
         = Ok {| TopDownEval.preds :=
                   map (fun '(p, (c, s)) =>
                          transform_preds p c s (Z.of_nat W, Z.of_nat H) false)
                       (combine refined (combine center scale));
                 TopDownEval.maxvals := maxvals;
                 TopDownEval.heatmaps_after := modulated |}).
Proof.
  intros heatmaps N K H W center scale kernel kpd target_type
         Hshape HN HK HH HW Hk Hodd Hkern Hch Hc Hs Hinv.
  destruct (get_max_preds_cells heatmaps N K H W Hshape HN HK HH HW)
    as [peaks [maxvals [Hmax _]]].
  destruct (get_max_preds_tables _ _ _ _ _ _ _ Hshape Hmax) as [Hpt _].
  destruct (gaussian_blur_returns heatmaps N K H W kernel
              Hshape HN HK HH HW Hk Hodd Hkern Hch) as [modulated [Hblur Hms]].
  set (logged :=
         map (map (map (map (fun v =>
           np_log (if Qltb v (1#10000000000) then 1#10000000000 else v)))))
             modulated).
  assert (Hls : has_shape N K H W logged) by (apply has_shape_map; exact Hms).
  exists peaks, maxvals, modulated.
  split; [exact Hmax|]. split; [exact Hblur|]. split; [exact Hms|].
  unfold TopDownEval.keypoints_from_heatmaps. cbv zeta.
  rewrite Hmax. cbv beta iota delta [bind].
  replace (0 <? kernel)%Z with true by (symmetry; apply Z.ltb_lt; lia).
  cbv beta iota delta [py_assert bind].
  rewrite Hblur. cbv beta iota delta [bind]. fold logged.
  destruct (refine_each_outcomes TopDownEval._taylor logged peaks LinAlgError)
    as [Hraise | [refined Href]].
  { intros n k h p Hh _.
    apply (taylor_outcomes h H W p Hinv).
    exact (has_shape_cell _ _ _ _ _ _ _ _ Hls Hh). }
  - left. rewrite Hraise. reflexivity.
  - right. exists refined.
    pose proof (refine_each_table _ _ _ _ N K
                  (has_shape_table _ _ _ _ _ Hls) Hpt Href) as Hrt.
    split; [exact Hrt|].
    rewrite Href. cbv beta iota delta [bind].
    destruct (has_shape_dims _ _ _ _ _ Hshape HN HK HH) as [Hw [Hh _]].
    rewrite Hw, Hh.
    rewrite transform_back_returns by (destruct Hrt; lia).
    reflexivity.
Qed.

End Decoding.

(** ** The DARK branch *)

Section DarkBranch.
Context {Ext : External}.

Lemma list_set_middle {A : Type} (pre post : list A) (c v : A) :
  list_set (pre ++ c :: post) (length pre) v = pre ++ v :: post.
Proof.
  unfold list_set.
  rewrite firstn_app, Nat.sub_diag, firstn_all. simpl firstn. rewrite app_nil_r.
  replace (S (length pre)) with (length pre + 1)%nat by lia.
  rewrite skipn_app, skipn_all2 by lia.
  replace (length pre + 1 - length pre)%nat with 1%nat by lia.
  reflexivity.
Qed.

Lemma py_index_middle {A : Type} (pre post : list A) (c : A) :
  py_index (pre ++ c :: post) (Z.of_nat (length pre)) = Ok c.
Proof.
  rewrite (py_index_in_range _ _ c) by (rewrite length_app; simpl; lia).
  rewrite Nat2Z.id, app_nth2, Nat.sub_diag by lia. reflexivity.
Qed.

(** One sweep over the channels of instance 0 blurs each of them once. *)
Lemma blur_sweep_from (pre post : list heatmap) :
  foldM Spec.blur_first_step (seq (length pre) (length post)) (pre ++ post)
  = (post' <- mapM (fun ch => Cv2.GaussianBlur ch 3 3) post ;;
     Ok (pre ++ post')).
Proof.
  revert pre. induction post as [|c post IH]; intro pre.
  - simpl. reflexivity.
  - cbn [length seq foldM mapM].
    unfold Spec.blur_first_step at 1.
    rewrite py_index_middle. cbv beta iota delta [bind].
    destruct (Cv2.GaussianBlur c 3 3) as [c'| |]; try reflexivity.
    replace (Nat.ltb (length pre) (length (pre ++ c :: post))) with true
      by (symmetry; apply Nat.ltb_lt; rewrite length_app; simpl; lia).
    rewrite list_set_middle. cbv beta iota.
    transitivity
      (foldM Spec.blur_first_step
             (seq (length (pre ++ [c'])) (length post)) ((pre ++ [c']) ++ post)).
    { f_equal; [|rewrite <- app_assoc; reflexivity].
      f_equal. rewrite length_app. simpl. lia. }
    rewrite IH.
    destruct (mapM (fun ch => Cv2.GaussianBlur ch 3 3) post) as [post'| |];
      try reflexivity.
    cbv beta iota delta [bind]. rewrite <- app_assoc. reflexivity.
Qed.

Lemma blur_sweep (inst : list heatmap) :
  foldM Spec.blur_first_step (seq 0 (length inst)) inst
  = mapM (fun ch => Cv2.GaussianBlur ch 3 3) inst.
Proof.
  pose proof (blur_sweep_from [] inst) as Hs. simpl in Hs. rewrite Hs.
  destruct (mapM (fun ch => Cv2.GaussianBlur ch 3 3) inst); reflexivity.
Qed.

Lemma blur_first_times (n s : nat) (inst : list heatmap) :
  foldM (fun i (_ : nat) =>
           foldM Spec.blur_first_step (seq 0 (length inst)) i)
        (seq s n) inst
  = Spec.blur_times n inst.
Proof.
  revert s inst. induction n as [|n IH]; intros s inst; [reflexivity|].
  cbn [seq foldM Spec.blur_times]. rewrite blur_sweep.
  destruct (mapM (fun ch => Cv2.GaussianBlur ch 3 3) inst) as [inst'| |] eqn:E;
    try reflexivity.
  cbv beta iota delta [bind].
  destruct (mapM_nth _ _ _ E) as [Hl _].
  assert (Hl' : @length heatmap inst' = @length heatmap inst) by exact Hl.
  rewrite <- Hl'. apply IH.
Qed.

Lemma blur_loop_times (i0 : list heatmap) (rest : batch) :
  TopDownEval.blur_loop (length (i0 :: rest)) (num_joints (i0 :: rest))
                        (i0 :: rest)
  = (i <- Spec.blur_times (S (length rest)) i0 ;; Ok (i :: rest)).
Proof.
  rewrite blur_loop_cons. unfold Spec.blur_first, num_joints. cbn [hd length].
  rewrite blur_first_times. reflexivity.
Qed.

Lemma post_dark_array (coords : points) (i0 : list heatmap) (rest : batch)
    (refined : points) (after : batch) :
  TopDownEval.post_dark coords (i0 :: rest) = Ok (refined, after) ->
  exists i0',
    Spec.blur_times (S (length rest)) i0 = Ok i0' /\ after = i0' :: rest.
Proof.
  unfold TopDownEval.post_dark. rewrite blur_loop_times. intro Hp.
  apply bind_Ok in Hp. destruct Hp as [blurred [Hb Hp]].
  apply bind_Ok in Hb. destruct Hb as [i0' [Hi0 Hb]].
  inversion Hb; subst blurred.
  apply bind_Ok in Hp. destruct Hp as [samples [_ Hp]].
  apply bind_Ok in Hp. destruct Hp as [inv [_ Hp]].
  inversion Hp; subst. exists i0'. split; [exact Hi0 | reflexivity].
Qed.

(** X16.  Whenever the DARK branch of [keypoints_from_heatmaps] (UDP on a
    Gaussian heatmap, post-processing on) returns on a batch of N instances,
    the array of the caller holds instance 0 blurred N times with the
    3 x 3 Gaussian and every other instance as it was given: the loop over
    the instances blurs [batch_heatmaps[0, j]] on each of its N turns. *)
Theorem dark_blurs_first_instance :
  forall (i0 : list heatmap) (rest : batch) (center scale : list (Q * Q))
         (unbiased : bool) (kernel : Z) (kpd : Q) (d : TopDownEval.decoded),
    TopDownEval.keypoints_from_heatmaps (i0 :: rest) center scale true
      unbiased kernel kpd true "GaussianHeatMap" = Ok d ->
    exists i0',
      Spec.blur_times (S (length rest)) i0 = Ok i0' /\
      TopDownEval.heatmaps_after d = i0' :: rest.
Proof.
  intros i0 rest center scale unbiased kernel kpd d Hd.
  unfold TopDownEval.keypoints_from_heatmaps in Hd. cbv zeta in Hd.
  change (String.eqb "GaussianHeatMap" "GaussianHeatMap") with true in Hd.
  cbv iota in Hd.
  apply bind_Ok in Hd. destruct Hd as [[coords maxvals] [_ Hd]].
  apply bind_Ok in Hd. destruct Hd as [[refined after] [Hp Hd]].
  apply finish_after in Hd. rewrite Hd.
  exact (post_dark_array coords i0 rest refined after Hp).
Qed.


Lemma sepFilter2D_rect (kx ky : list Q) (img : heatmap) (H W : nat) :
  rect H W img -> (0 < H)%nat -> rect H W (Cv2.sepFilter2D kx ky img).
Proof.
  intros Hrect HH. unfold Cv2.sepFilter2D.
  rewrite (rect_hd_width _ _ _ Hrect HH). destruct Hrect as [Hl _].
  split; [rewrite length_map, length_seq; exact Hl|].
  apply Forall_forall. intros row Hrow. apply in_map_iff in Hrow.
  destruct Hrow as [y [<- _]]. rewrite length_map, length_seq. reflexivity.
Qed.

Lemma GaussianBlur_rect (img : heatmap) (H W : nat) (kw kh : Z) :
  rect H W img -> (0 < H)%nat -> (0 < W)%nat ->
  (0 < kw)%Z -> Z.odd kw = true -> (0 < kh)%Z -> Z.odd kh = true ->
  exists out, Cv2.GaussianBlur img kw kh = Ok out /\ rect H W out.
Proof.
  intros Hrect HH HW Hkw Hokw Hkh Hokh. unfold Cv2.GaussianBlur.
  rewrite (rect_hd_width _ _ _ Hrect HH).
  replace (Nat.eqb (length img) 0) with false
    by (symmetry; apply Nat.eqb_neq; destruct Hrect; lia).
  replace (Nat.eqb W 0) with false by (symmetry; apply Nat.eqb_neq; lia).
  replace (0 <? kw)%Z with true by (symmetry; apply Z.ltb_lt; lia).
  replace (0 <? kh)%Z with true by (symmetry; apply Z.ltb_lt; lia).
  rewrite Hokw, Hokh. simpl.
  eexists. split; [reflexivity|]. apply sepFilter2D_rect; assumption.
Qed.

Lemma blur_times_rect (n : nat) (inst : list heatmap) (H W : nat) :
  Forall (rect H W) inst -> (0 < H)%nat -> (0 < W)%nat ->
  exists inst',
    Spec.blur_times n inst = Ok inst' /\
    length inst' = length inst /\ Forall (rect H W) inst'.
Proof.
  intros Hall HH HW. revert inst Hall.
  induction n as [|n IH]; intros inst Hall.
  - exists inst. split; [reflexivity|]. split; [reflexivity | exact Hall].
  - cbn [Spec.blur_times].
    destruct (mapM_Ok (fun ch => Cv2.GaussianBlur ch 3 3) inst) as [once Honce].
    { intros ch Hch. rewrite Forall_forall in Hall.
      destruct (GaussianBlur_rect ch H W 3 3 (Hall _ Hch) HH HW)
        as [out [Hout _]]; try reflexivity.
      exists out. exact Hout. }
    rewrite Honce. cbv beta iota delta [bind].
    assert (Hall' : Forall (rect H W) once).
    { apply (mapM_Forall _ _ _ _ Honce). intros ch out Hch Hout.
      rewrite Forall_forall in Hall.
      destruct (GaussianBlur_rect ch H W 3 3 (Hall _ Hch) HH HW)
        as [out' [Hout' Hr]]; try reflexivity.
      rewrite Hout in Hout'. inversion Hout'; subst out'. exact Hr. }
    destruct (IH once Hall') as [inst' [Hi [Hl Hr]]].
    exists inst'. split; [exact Hi|]. split; [|exact Hr].
    destruct (mapM_nth _ _ _ Honce) as [Hl' _].
    transitivity (length once); [exact Hl | exact Hl'].
Qed.

Lemma pad_edge_rect (hm : heatmap) (H W : nat) :
  rect H W hm -> (0 < H)%nat -> rect (H + 2) (W + 2) (TopDownEval.pad_edge hm).
Proof.
  intros [Hl Hrows] HH. unfold TopDownEval.pad_edge.
  set (rows := map (fun r => hd 0 r :: r ++ [last r 0]) hm).
  assert (Hr : Forall (fun row => length row = (W + 2)%nat) rows).
  { apply Forall_forall. intros row Hrow. apply in_map_iff in Hrow.
    destruct Hrow as [r [<- Hin]]. rewrite Forall_forall in Hrows.
    simpl. rewrite length_app, (Hrows _ Hin). simpl. lia. }
  assert (Hlen : length rows = H) by (unfold rows; rewrite length_map; exact Hl).
  assert (Hne : rows <> []) by (intro He; rewrite He in Hlen; simpl in Hlen; lia).
  split.
  - simpl. rewrite length_app, Hlen. simpl. lia.
  - rewrite Forall_forall in Hr. apply Forall_forall. intros row [<- | Hin].
    + apply Hr. destruct rows; [congruence | left; reflexivity].
    + apply in_app_or in Hin. destruct Hin as [Hin | [<- | []]].
      * apply Hr. exact Hin.
      * apply Hr. destruct (exists_last Hne) as [l' [a ->]].
        rewrite last_last. apply in_or_app. right. left. reflexivity.
Qed.

Lemma py_index_wrap {A : Type} (l : list A) (i : Z) :
  (- Z.of_nat (length l) <= i < Z.of_nat (length l))%Z ->
  exists a, py_index l i = Ok a /\ In a l.
Proof.
  intros [Hlo Hhi]. unfold py_index.
  set (j := (if (i <? 0)%Z then (i + Z.of_nat (length l))%Z else i)).
  assert (Hj : (0 <= j < Z.of_nat (length l))%Z).
  { unfold j. destruct (i <? 0)%Z eqn:E;
      [apply Z.ltb_lt in E | apply Z.ltb_ge in E]; lia. }
  replace (0 <=? j)%Z with true by (symmetry; apply Z.leb_le; lia).
  replace (j <? Z.of_nat (length l))%Z with true
    by (symmetry; apply Z.ltb_lt; lia).
  simpl. destruct (nth_error l (Z.to_nat j)) as [a|] eqn:E.
  - exists a. split; [reflexivity|]. exact (nth_error_In _ _ E).
  - apply nth_error_None in E. lia.
Qed.

Lemma py_index2_wrap (hm : heatmap) (H W : nat) (y x : Z) :
  rect H W hm ->
  (- Z.of_nat H <= y < Z.of_nat H)%Z -> (- Z.of_nat W <= x < Z.of_nat W)%Z ->
  exists v, py_index2 hm y x = Ok v.
Proof.
  intros [Hl Hrows] Hy Hx. unfold py_index2.
  destruct (py_index_wrap hm y) as [row [Hrow Hin]]; [lia|].
  rewrite Hrow. cbv beta iota delta [bind].
  rewrite Forall_forall in Hrows.
  destruct (py_index_wrap row x) as [v [Hv _]];
    [rewrite (Hrows _ Hin); lia|].
  exists v. exact Hv.
Qed.

(** The seven reads around a peak (cx, cy) with -1 <= cx < W and
    -1 <= cy < H stay inside the padded channel; index -1 is read from the
    other end. *)
Lemma dark_samples_returns (pad : batch) (p0 : list heatmap) (rest : batch)
    (H W : nat) (j : nat) (cx cy : Z) :
  pad = p0 :: rest -> Forall (rect (H + 2) (W + 2)) p0 ->
  (j < length p0)%nat ->
  (-1 <= cx < Z.of_nat W)%Z -> (-1 <= cy < Z.of_nat H)%Z ->
  exists s, TopDownEval.dark_samples pad (Z.of_nat j) (cx, cy) = Ok s.
Proof.
  intros -> Hall Hj Hcx Hcy. unfold TopDownEval.dark_samples, channel_get.
  rewrite py_index_head. cbv beta iota delta [bind].
  destruct (py_index_wrap p0 (Z.of_nat j)) as [ch [Hch Hin]]; [lia|].
  rewrite Hch. rewrite Forall_forall in Hall. pose proof (Hall _ Hin) as Hrect.
  repeat match goal with
  | |- context [py_index2 ch ?y ?x] =>
      let v := fresh "v" in let Hv := fresh "Hv" in
      destruct (py_index2_wrap ch (H + 2) (W + 2) y x Hrect) as [v Hv];
      [lia | lia | rewrite Hv; clear Hv]
  end.
  eexists. reflexivity.
Qed.

Lemma in_indexed {A : Type} (row : list A) (j : Z) (c : A) :
  In (j, c) (indexed row) ->
  exists jn, j = Z.of_nat jn /\ (jn < length row)%nat /\ In c row.
Proof.
  unfold indexed. intro Hin.
  pose proof (in_combine_l _ _ _ _ Hin) as Hj.
  apply in_combine_r in Hin. apply in_map_iff in Hj.
  destruct Hj as [jn [<- Hjn]]. apply in_seq in Hjn.
  exists jn. split; [reflexivity|]. split; [lia | exact Hin].
Qed.



Lemma rect_map (g : Q -> Q) (hm : heatmap) (H W : nat) :
  rect H W hm -> rect H W (map (map g) hm).
Proof.
  intros [Hl Hrows]. split; [rewrite length_map; exact Hl|].
  apply Forall_forall. intros row Hrow. apply in_map_iff in Hrow.
  destruct Hrow as [r [<- Hin]]. rewrite length_map.
  rewrite Forall_forall in Hrows. apply Hrows. exact Hin.
Qed.

Lemma py_int_inject (z : Z) : py_int (inject_Z z) = z.
Proof. unfold py_int. simpl. apply Z.quot_1_r. Qed.

Lemma post_dark_outcomes (coords : points) (heatmaps : batch)
    (N K H W : nat) :
  has_shape N K H W heatmaps ->
  (0 < N)%nat -> (0 < K)%nat -> (0 < H)%nat -> (0 < W)%nat ->
  Spec.table N K coords ->
  Forall (Forall (fun p => (-1 <= py_int (fst p) < Z.of_nat W)%Z /\
                           (-1 <= py_int (snd p) < Z.of_nat H)%Z)) coords ->
  TopDownEval.post_dark coords heatmaps = Raises LinAlgError \/
  exists refined after,
    TopDownEval.post_dark coords heatmaps = Ok (refined, after) /\
    length refined = N.
Proof.
  intros Hshape HN HK HH HW [Hcl Hcr] Hrange.
  destruct Hshape as [Hl Hall].
  destruct heatmaps as [|i0 rest]; [simpl in Hl; lia|].
  inversion Hall as [|? ? [Hk0 Hch0] Hrest]; subst.
  unfold TopDownEval.post_dark. rewrite blur_loop_times.
  destruct (blur_times_rect (S (length rest)) i0 H W Hch0 HH HW)
    as [i0' [Hblur [Hlen Hrect]]].
  rewrite Hblur. cbv beta iota delta [bind].
  set (g := fun v => np_log (TopDownEval.np_clip (1 # 1000) 50 v)).
  set (pad := map (map TopDownEval.pad_edge)
                  (map (map (map (map g))) (i0' :: rest))).
  set (icoords := map (map (fun c : Q * Q => (py_int (fst c), py_int (snd c))))
                      coords).
  set (p0 := map TopDownEval.pad_edge (map (map (map g)) i0')).
  assert (Hpad : pad = p0 :: map (map TopDownEval.pad_edge)
                                 (map (map (map (map g))) rest))
    by reflexivity.
  assert (Hp0 : Forall (rect (H + 2) (W + 2)) p0).
  { apply Forall_forall. intros ch Hch. unfold p0 in Hch.
    apply in_map_iff in Hch. destruct Hch as [ch1 [<- Hch1]].
    apply in_map_iff in Hch1. destruct Hch1 as [ch0 [<- Hch0']].
    apply pad_edge_rect; [|exact HH]. apply rect_map.
    rewrite Forall_forall in Hrect. apply Hrect. exact Hch0'. }
  assert (Hp0l : length p0 = length i0)
    by (unfold p0; rewrite !length_map; exact Hlen).
  destruct (mapM_Ok (fun row => mapM (fun '(j, c) =>
                        TopDownEval.dark_samples pad j c) (indexed row))
                    icoords) as [samples Hsamples].
  { intros row Hrow. apply mapM_Ok. intros [j [cx cy]] Hjc.
    destruct (in_indexed _ _ _ Hjc) as [jn [-> [Hjn Hc]]].
    unfold icoords in Hrow. apply in_map_iff in Hrow.
    destruct Hrow as [prow [<- Hprow]].
    rewrite length_map in Hjn. apply in_map_iff in Hc.
    destruct Hc as [p [Hp Hpin]]. inversion Hp; subst cx cy.
    rewrite Forall_forall in Hrange. pose proof (Hrange _ Hprow) as Hr.
    rewrite Forall_forall in Hr. destruct (Hr _ Hpin) as [Hx Hy].
    rewrite Forall_forall in Hcr. rewrite (Hcr _ Hprow) in Hjn.
    apply (dark_samples_returns pad p0 _ H W jn _ _ Hpad Hp0);
      [rewrite Hp0l; exact Hjn | exact Hx | exact Hy]. }
  rewrite Hsamples. cbv beta iota delta [bind].
  destruct (mapM_Ok_or
              (mapM (fun s => TopDownEval.dark_inv_hessian
                                (TopDownEval.dark_hessian s)))
              samples LinAlgError) as [Hraise | [inv Hinv]].
  { intros row _. apply mapM_Ok_or. intros s _. apply inv_hessian_cases. }
  - left. rewrite Hraise. reflexivity.
  - right. rewrite Hinv. eexists. eexists. split; [reflexivity|].
    destruct (mapM_nth _ _ _ Hsamples) as [Hls _].
    destruct (mapM_nth _ _ _ Hinv) as [Hli _].
    rewrite length_map, !length_combine.
    unfold icoords in *. rewrite length_map in *. lia.
Qed.

(** X17.  On a batch of shape (N, K, H, W), none of them 0 and H * W at
    most 2^24 (so that every peak is a pixel of the map or the sentinel),
    with a centre and a scale for each instance, the DARK branch of
    [keypoints_from_heatmaps] has two outcomes only: it returns, or
    [np.linalg.inv] raises LinAlgError on a singular Hessian.  No read
    leaves the padded array: a peak of (-1, -1) reads index -1, which numpy
    takes from the other end.  ([np.float] of line 333 is read as the float
    type of the numpy the code was written for.) *)
Theorem dark_mode_outcomes :
  forall (heatmaps : batch) (N K H W : nat) (center scale : list (Q * Q))
         (unbiased : bool) (kernel : Z) (kpd : Q),
    has_shape N K H W heatmaps ->
    (0 < N)%nat -> (0 < K)%nat -> (0 < H)%nat -> (0 < W)%nat ->
    (Z.of_nat H * Z.of_nat W <= 16777216)%Z ->
    length center = N -> length scale = N ->
    TopDownEval.keypoints_from_heatmaps heatmaps center scale true unbiased
      kernel kpd true "GaussianHeatMap" = Raises LinAlgError \/
    exists d,
      TopDownEval.keypoints_from_heatmaps heatmaps center scale true unbiased
        kernel kpd true "GaussianHeatMap" = Ok d.
Proof.
  intros heatmaps N K H W center scale unbiased kernel kpd
         Hshape HN HK HH HW Hsize Hc Hs.
  destruct (get_max_preds_range heatmaps N K H W Hshape HN HK HH HW Hsize)
    as [peaks [maxvals [Hmax [Hpt [Hmt Hrange]]]]].
  assert (Hr : Forall (Forall (fun p =>
                 (-1 <= py_int (fst p) < Z.of_nat W)%Z /\
                 (-1 <= py_int (snd p) < Z.of_nat H)%Z)) peaks).
  { apply Forall_forall. intros prow Hprow.
    apply Forall_forall. intros p Hp.
    destruct (in_cell _ _ _ Hprow Hp) as [n [k Hcell]].
    destruct (table_cell_bound _ _ _ _ _ _ Hpt Hcell) as [Hn Hk].
    destruct (table_cell N K maxvals n k Hmt Hn Hk) as [v Hv].
    destruct (Hrange n k p v Hcell Hv) as [[_ [x [y [-> [Hx Hy]]]]] | [_ ->]].
    - cbn [fst snd]. rewrite !py_int_inject. lia.
    - cbn [fst snd]. change (py_int (-1)) with (-1)%Z. lia. }
  unfold TopDownEval.keypoints_from_heatmaps. cbv zeta.
  change (String.eqb "GaussianHeatMap" "GaussianHeatMap") with true.
  cbv iota. rewrite Hmax. cbv beta iota delta [bind].
  destruct (post_dark_outcomes peaks heatmaps N K H W
              Hshape HN HK HH HW Hpt Hr)
    as [Hraise | [refined [after [Hpost Hlen]]]].
  - left. rewrite Hraise. reflexivity.
  - right. rewrite Hpost. cbv beta iota delta [bind].
    rewrite transform_back_returns by lia.
    eexists. reflexivity.
Qed.

End DarkBranch.

(** ** The CombinedTarget branch *)

Section CombinedTarget.
Context {Ext : External}.

Lemma every_third_length {A : Type} (l : list A) (s : nat) :
  (s <= 2)%nat -> length (every_third s l) = ((length l + 2 - s) / 3)%nat.
Proof.
  revert s. induction l as [|a t IH]; intros s Hs.
  - cbn [every_third length]. symmetry. apply Nat.div_small. lia.
  - destruct s as [|s]; cbn [every_third length].
    + rewrite (IH 2%nat) by lia.
      replace (S (length t) + 2 - 0)%nat with (length t + 2 - 2 + 1 * 3)%nat
        by lia.
      rewrite Nat.div_add by lia. lia.
    + rewrite (IH s) by lia. reflexivity.
Qed.

Lemma every_third_In {A : Type} (l : list A) (s : nat) (a : A) :
  In a (every_third s l) -> In a l.
Proof.
  revert s. induction l as [|x t IH]; intros s Hin; [contradiction|].
  destruct s as [|s]; simpl in Hin.
  - destruct Hin as [-> | Hin]; [left; reflexivity | right; exact (IH _ Hin)].
  - right. exact (IH _ Hin).
Qed.

Lemma py_index_past {A : Type} (l : list A) (i : Z) :
  (Z.of_nat (length l) <= i)%Z -> py_index l i = Raises IndexError.
Proof.
  intro Hi. unfold py_index.
  replace (i <? 0)%Z with false by (symmetry; apply Z.ltb_ge; lia).
  replace (i <? Z.of_nat (length l))%Z with false
    by (symmetry; apply Z.ltb_ge; lia).
  rewrite andb_false_r. reflexivity.
Qed.

Lemma mapM_raises_at {A B : Type} (f : A -> outcome B) (pre post : list A)
    (a : A) (e : exn) :
  (forall x, In x pre -> exists b, f x = Ok b) ->
  f a = Raises e ->
  mapM f (pre ++ a :: post) = Raises e.
Proof.
  intros Hpre Ha. induction pre as [|x pre IH]; simpl.
  - rewrite Ha. reflexivity.
  - destruct (Hpre x (or_introl eq_refl)) as [b Hb]. rewrite Hb.
    cbv beta iota delta [bind]. rewrite IH; [reflexivity|].
    intros y Hy. apply Hpre. right. exact Hy.
Qed.

Lemma py_index_rect (l : list heatmap) (H W : nat) (j : nat) :
  Forall (rect H W) l -> (j < length l)%nat ->
  exists h, py_index l (Z.of_nat j) = Ok h /\ rect H W h.
Proof.
  intros Hall Hj. destruct (py_index_wrap l (Z.of_nat j)) as [h [Hh Hin]]; [lia|].
  exists h. split; [exact Hh|]. rewrite Forall_forall in Hall. exact (Hall _ Hin).
Qed.

Lemma combined_turn_returns (kernel : Z) (hm ox oy : list heatmap)
    (H W : nat) (j : nat) :
  (0 < H)%nat -> (0 < W)%nat -> (0 < kernel)%Z -> Z.odd kernel = true ->
  Forall (rect H W) hm -> Forall (rect H W) ox -> Forall (rect H W) oy ->
  (j < length hm)%nat -> (j < length ox)%nat -> (j < length oy)%nat ->
  exists h' x' y',
    Spec.combined_turn kernel hm ox oy (Z.of_nat j) = Ok (h', x', y') /\
    rect H W h' /\ rect H W x' /\ rect H W y'.
Proof.
  intros HH HW Hk Hodd Hhm Hox Hoy Hjh Hjx Hjy. unfold Spec.combined_turn.
  assert (Hodd2 : Z.odd (2 * kernel + 1) = true)
    by (rewrite Z.add_comm, Z.odd_add_mul_2; reflexivity).
  destruct (py_index_rect hm H W j Hhm Hjh) as [h [Hh Hrh]].
  destruct (GaussianBlur_rect h H W (2 * kernel + 1) (2 * kernel + 1) Hrh HH HW)
    as [h' [Hh' Hrh']]; try lia; try exact Hodd2.
  destruct (py_index_rect ox H W j Hox Hjx) as [x [Hx Hrx]].
  destruct (GaussianBlur_rect x H W kernel kernel Hrx HH HW)
    as [x' [Hx' Hrx']]; try lia; try exact Hodd.
  destruct (py_index_rect oy H W j Hoy Hjy) as [y [Hy Hry]].
  destruct (GaussianBlur_rect y H W kernel kernel Hry HH HW)
    as [y' [Hy' Hry']]; try lia; try exact Hodd.
  rewrite Hh. cbv beta iota delta [bind]. rewrite Hh'.
  cbv beta iota delta [bind]. rewrite Hx. cbv beta iota delta [bind].
  rewrite Hx'. cbv beta iota delta [bind]. rewrite Hy.
  cbv beta iota delta [bind]. rewrite Hy'. cbv beta iota delta [bind].
  exists h', x', y'. split; [reflexivity|].
  split; [exact Hrh'|]. split; [exact Hrx' | exact Hry'].
Qed.

Lemma combined_turn_raises (kernel : Z) (hm ox oy : list heatmap)
    (H W : nat) (j : nat) :
  (0 < H)%nat -> (0 < W)%nat -> (0 < kernel)%Z -> Z.odd kernel = true ->
  Forall (rect H W) hm -> Forall (rect H W) ox ->
  (j < length hm)%nat ->
  (length ox <= j)%nat \/ ((j < length ox)%nat /\ (length oy <= j)%nat) ->
  Spec.combined_turn kernel hm ox oy (Z.of_nat j) = Raises IndexError.
Proof.
  intros HH HW Hk Hodd Hhm Hox Hjh Hshort. unfold Spec.combined_turn.
  assert (Hodd2 : Z.odd (2 * kernel + 1) = true)
    by (rewrite Z.add_comm, Z.odd_add_mul_2; reflexivity).
  destruct (py_index_rect hm H W j Hhm Hjh) as [h [Hh Hrh]].
  destruct (GaussianBlur_rect h H W (2 * kernel + 1) (2 * kernel + 1) Hrh HH HW)
    as [h' [Hh' Hrh']]; try lia; try exact Hodd2.
  rewrite Hh. cbv beta iota delta [bind]. rewrite Hh'.
  cbv beta iota delta [bind].
  destruct Hshort as [Hx | [Hjx Hy]].
  - rewrite py_index_past by lia. reflexivity.
  - destruct (py_index_rect ox H W j Hox Hjx) as [x [Hx Hrx]].
    destruct (GaussianBlur_rect x H W kernel kernel Hrx HH HW)
      as [x' [Hx' Hrx']]; try lia; try exact Hodd.
    rewrite Hx. cbv beta iota delta [bind]. rewrite Hx'.
    cbv beta iota delta [bind]. rewrite py_index_past by lia. reflexivity.
Qed.


Lemma combined_instance_turns (kernel : Z) (hm ox oy : list heatmap) :
  TopDownEval.combined_instance kernel hm ox oy
  = mapM (Spec.combined_turn kernel hm ox oy) (map Z.of_nat (seq 0 (length hm))).
Proof. reflexivity. Qed.

Lemma scaled_rects (c : Q) (l : list heatmap) (H W : nat) :
  Forall (rect H W) l ->
  Forall (rect H W) (map (map (map (fun v => v * c))) l).
Proof.
  intro Hall. apply Forall_forall. intros ch Hch. apply in_map_iff in Hch.
  destruct Hch as [ch0 [<- Hin]]. apply rect_map.
  rewrite Forall_forall in Hall. exact (Hall _ Hin).
Qed.

Lemma every_third_rects (l : list heatmap) (s H W : nat) :
  Forall (rect H W) l -> Forall (rect H W) (every_third s l).
Proof.
  intro Hall. apply Forall_forall. intros ch Hch.
  rewrite Forall_forall in Hall. exact (Hall _ (every_third_In _ _ _ Hch)).
Qed.

(** X18.  The CombinedTarget branch of [keypoints_from_heatmaps] needs a
    number of channels that is a multiple of 3: on a batch of shape
    (N, K, H, W) with N, H, W not 0 and K not a multiple of 3, for every odd
    positive kernel size, it raises IndexError.  The loop runs over the
    channels [0::3], one more than there are in [2::3], and for K = 3m + 1
    also than in [1::3], so the turn of index m indexes an offset array past
    its end. *)
Theorem combined_target_needs_triples :
  forall (heatmaps : batch) (N K H W : nat) (center scale : list (Q * Q))
         (post_process unbiased : bool) (kernel : Z) (kpd : Q),
    has_shape N K H W heatmaps ->
    (0 < N)%nat -> (0 < H)%nat -> (0 < W)%nat ->
    (K mod 3 <> 0)%nat ->
    (0 < kernel)%Z -> Z.odd kernel = true ->
    TopDownEval.keypoints_from_heatmaps heatmaps center scale post_process
      unbiased kernel kpd true "CombinedTarget" = Raises IndexError.
Proof.
  intros heatmaps N K H W center scale post_process unbiased kernel kpd
         Hshape HN HH HW HK Hk Hodd.
  unfold TopDownEval.keypoints_from_heatmaps. cbv zeta.
  change (String.eqb "CombinedTarget" "GaussianHeatMap") with false.
  change (String.eqb "CombinedTarget" "CombinedTarget") with true.
  cbv iota.
  destruct Hshape as [Hl Hall].
  destruct heatmaps as [|i0 rest]; [simpl in Hl; lia|].
  inversion Hall as [|? ? [Hk0 Hch0] _]; subst.
  cbn [map combine].
  rewrite (mapM_raises_first _ _ _ IndexError); [reflexivity|].
  rewrite combined_instance_turns.
  set (c := kpd / 64 * inject_Z (Z.of_nat (height (i0 :: rest)))).
  set (hm := every_third 0 i0).
  set (ox := map (map (map (fun v => v * c))) (every_third 1 i0)).
  set (oy := map (map (map (fun v => v * c))) (every_third 2 i0)).
  assert (Lh : length hm = ((length i0 + 2) / 3)%nat)
    by (unfold hm; rewrite (@every_third_length heatmap) by lia; f_equal; lia).
  assert (Lx : length ox = ((length i0 + 1) / 3)%nat)
    by (unfold ox; rewrite length_map, (@every_third_length heatmap) by lia;
        f_equal; lia).
  assert (Ly : length oy = (length i0 / 3)%nat)
    by (unfold oy; rewrite length_map, (@every_third_length heatmap) by lia;
        f_equal; lia).
  assert (Rh : Forall (rect H W) hm) by (apply every_third_rects; exact Hch0).
  assert (Rx : Forall (rect H W) ox)
    by (apply scaled_rects, every_third_rects; exact Hch0).
  assert (Ry : Forall (rect H W) oy)
    by (apply scaled_rects, every_third_rects; exact Hch0).
  set (m := (length i0 / 3)%nat) in *.
  pose proof (Nat.div_mod_eq (length i0) 3) as Hdm. fold m in Hdm.
  pose proof (Nat.mod_upper_bound (length i0) 3 ltac:(lia)) as Hmod.
  assert (Hcases : (length hm = m + 1 /\ (length ox = m \/ length ox = m + 1))%nat).
  { rewrite Lh, Lx.
    destruct (Nat.eq_dec (length i0 mod 3) 1) as [H1 | H1].
    - replace (length i0 + 2)%nat with (0 + (m + 1) * 3)%nat by lia.
      replace (length i0 + 1)%nat with (2 + m * 3)%nat by lia.
      rewrite !Nat.div_add by lia. simpl. lia.
    - replace (length i0 + 2)%nat with (1 + (m + 1) * 3)%nat by lia.
      replace (length i0 + 1)%nat with (0 + (m + 1) * 3)%nat by lia.
      rewrite !Nat.div_add by lia. simpl. lia. }
  destruct Hcases as [Hh Hx].
  rewrite Hh. replace (m + 1)%nat with (m + 1 + 0)%nat by lia.
  rewrite seq_app, map_app. cbn [seq map]. rewrite seq_app, map_app.
  cbn [seq map]. rewrite <- app_assoc. cbn [app].
  apply mapM_raises_at.
  - intros j Hj. apply in_map_iff in Hj. destruct Hj as [jn [<- Hjn]].
    apply in_seq in Hjn.
    destruct (combined_turn_returns kernel hm ox oy H W jn HH HW Hk Hodd
                Rh Rx Ry) as [h' [x' [y' [Ht _]]]];
      try (unfold heatmap in *; lia).
    eexists. exact Ht.
  - apply (combined_turn_raises kernel hm ox oy H W (0 + m) HH HW Hk Hodd Rh Rx);
      unfold heatmap in *; lia.
Qed.


Lemma peaks_in_reach (heatmaps : batch) (N K H W : nat)
    (peaks : points) (maxvals : list (list Q)) :
  Spec.table N K peaks -> Spec.table N K maxvals ->
  (forall n k p v,
     cell peaks n k = Some p -> cell maxvals n k = Some v ->
     (0 < v /\ Spec.in_map H W p) \/ (v <= 0 /\ p = (-1, -1))) ->
  Forall (Forall (fun p => (-1 <= py_int (fst p) < Z.of_nat W)%Z /\
                           (-1 <= py_int (snd p) < Z.of_nat H)%Z)) peaks.
Proof.
  intros Hpt Hmt Hrange.
  apply Forall_forall. intros prow Hprow.
  apply Forall_forall. intros p Hp.
  destruct (in_cell _ _ _ Hprow Hp) as [n [k Hcell]].
  destruct (table_cell_bound _ _ _ _ _ _ Hpt Hcell) as [Hn Hk].
  destruct (table_cell N K maxvals n k Hmt Hn Hk) as [v Hv].
  destruct (Hrange n k p v Hcell Hv) as [[_ [x [y [-> [Hx Hy]]]]] | [_ ->]].
  - cbn [fst snd]. rewrite !py_int_inject. lia.
  - cbn [fst snd]. change (py_int (-1)) with (-1)%Z. lia.
Qed.

Lemma combined_instance_returns (kernel : Z) (hm ox oy : list heatmap)
    (H W m : nat) :
  (0 < H)%nat -> (0 < W)%nat -> (0 < kernel)%Z -> Z.odd kernel = true ->
  Forall (rect H W) hm -> Forall (rect H W) ox -> Forall (rect H W) oy ->
  length hm = m -> length ox = m -> length oy = m ->
  exists ts,
    TopDownEval.combined_instance kernel hm ox oy = Ok ts /\
    length ts = m /\ Forall (Spec.triple_rect H W) ts.
Proof.
  intros HH HW Hk Hodd Rh Rx Ry Lh Lx Ly.
  rewrite combined_instance_turns.
  destruct (mapM_Ok (Spec.combined_turn kernel hm ox oy)
                    (map Z.of_nat (seq 0 (length hm)))) as [ts Hts].
  { intros j Hj. apply in_map_iff in Hj. destruct Hj as [jn [<- Hjn]].
    apply in_seq in Hjn.
    destruct (combined_turn_returns kernel hm ox oy H W jn HH HW Hk Hodd
                Rh Rx Ry) as [h' [x' [y' [Ht _]]]]; try lia.
    eexists. exact Ht. }
  exists ts. split; [exact Hts|].
  destruct (mapM_nth _ _ _ Hts) as [Hl _].
  rewrite length_map, length_seq in Hl. split; [lia|].
  apply (mapM_Forall _ _ _ _ Hts). intros j t Hj Ht.
  apply in_map_iff in Hj. destruct Hj as [jn [<- Hjn]]. apply in_seq in Hjn.
  destruct (combined_turn_returns kernel hm ox oy H W jn HH HW Hk Hodd
              Rh Rx Ry) as [h' [x' [y' [Ht' Hr]]]]; try lia.
  rewrite Ht in Ht'. inversion Ht'; subst t. exact Hr.
Qed.

Lemma combine_map3 {A B C D : Type} (f : A -> B) (g : A -> C) (k : A -> D)
    (l : list A) :
  combine (combine (map f l) (map g l)) (map k l)
  = map (fun a => (f a, g a, k a)) l.
Proof.
  induction l as [|a l IH]; [reflexivity|]. simpl. rewrite IH. reflexivity.
Qed.

Lemma add_offset_returns (t : heatmap * heatmap * heatmap) (c : Q * Q)
    (H W : nat) :
  Spec.triple_rect H W t -> (0 < H)%nat -> (0 < W)%nat ->
  (-1 <= py_int (fst c) < Z.of_nat W)%Z ->
  (-1 <= py_int (snd c) < Z.of_nat H)%Z ->
  exists q, TopDownEval.add_offset t c = Ok q.
Proof.
  intros [_ [Rx Ry]] HH HW Hx Hy. destruct t as [[h ox] oy]. simpl in Rx, Ry.
  unfold TopDownEval.add_offset.
  destruct (py_index2_wrap ox H W (py_int (snd c)) (py_int (fst c)) Rx)
    as [dx Hdx]; try lia.
  destruct (py_index2_wrap oy H W (py_int (snd c)) (py_int (fst c)) Ry)
    as [dy Hdy]; try lia.
  rewrite Hdx. cbv beta iota delta [bind]. rewrite Hdy.
  eexists. reflexivity.
Qed.


(** X19.  On a batch of shape (N, 3m, H, W), none of them 0 and H * W at
    most 2^24 (so that every peak is a pixel of the map or the sentinel),
    for every odd positive kernel size and with a centre and a scale for
    each instance,
    the CombinedTarget branch of [keypoints_from_heatmaps] returns, whatever
    [post_process] and [unbiased] are: N rows of m predictions and N rows of
    m scores, the predictions transformed with UDP, and the array of the
    caller as it was given (the branch works on a copy).  The offsets are
    read at the peak; a peak of (-1, -1) reads them at index -1. *)
Theorem combined_target_returns :
  forall (heatmaps : batch) (N m H W : nat) (center scale : list (Q * Q))
         (post_process unbiased : bool) (kernel : Z) (kpd : Q),
    has_shape N (3 * m) H W heatmaps ->
    (0 < N)%nat -> (0 < m)%nat -> (0 < H)%nat -> (0 < W)%nat ->
    (Z.of_nat H * Z.of_nat W <= 16777216)%Z ->
    (0 < kernel)%Z -> Z.odd kernel = true ->
    length center = N -> length scale = N ->
    exists coords maxvals,
      Spec.table N m coords /\ Spec.table N m maxvals /\
      TopDownEval.keypoints_from_heatmaps heatmaps center scale post_process
        unbiased kernel kpd true "CombinedTarget"
      = Ok {| TopDownEval.preds :=
                map (fun '(p, (c, s)) =>
                       transform_preds p c s (Z.of_nat W, Z.of_nat H) true)
                    (combine coords (combine center scale));
              TopDownEval.maxvals := maxvals;
              TopDownEval.heatmaps_after := heatmaps |}.
Proof.
  intros heatmaps N m H W center scale post_process unbiased kernel kpd
         Hshape HN Hm HH HW Hsize Hk Hodd Hc Hs.
  unfold TopDownEval.keypoints_from_heatmaps. cbv zeta.
  change (String.eqb "CombinedTarget" "GaussianHeatMap") with false.
  change (String.eqb "CombinedTarget" "CombinedTarget") with true.
  cbv iota.
  destruct (has_shape_dims _ _ _ _ _ Hshape HN ltac:(lia) HH) as [Hw [Hh _]].
  rewrite Hw, Hh.
  set (c := kpd / 64 * inject_Z (Z.of_nat H)).
  rewrite (combine_map3 (every_third 0)
             (fun inst => map (map (map (fun v => v * c))) (every_third 1 inst))
             (fun inst => map (map (map (fun v => v * c))) (every_third 2 inst))).
  pose (F := fun '(h, x, y) => TopDownEval.combined_instance kernel h x y).
  pose (G := fun inst : list heatmap =>
              (every_third 0 inst,
               map (map (map (fun v => v * c))) (every_third 1 inst),
               map (map (map (fun v => v * c))) (every_third 2 inst))).
  match goal with
  | |- context [mapM ?f (map ?g heatmaps)] =>
      change (mapM f (map g heatmaps)) with (mapM F (map G heatmaps))
  end.
  assert (Hinst : forall inst, In inst heatmaps ->
            exists ts, F (G inst) = Ok ts /\ length ts = m /\
                       Forall (Spec.triple_rect H W) ts).
  { intros inst Hin. destruct Hshape as [_ Hall].
    rewrite Forall_forall in Hall. destruct (Hall _ Hin) as [Hlen Hrects].
    unfold F, G.
    apply combined_instance_returns; try assumption.
    - apply every_third_rects. exact Hrects.
    - apply scaled_rects, every_third_rects. exact Hrects.
    - apply scaled_rects, every_third_rects. exact Hrects.
    - rewrite (@every_third_length heatmap) by lia.
      unfold heatmap in *. rewrite Hlen.
      replace (3 * m + 2 - 0)%nat with (2 + m * 3)%nat by lia.
      rewrite Nat.div_add by lia. reflexivity.
    - rewrite length_map, (@every_third_length heatmap) by lia.
      unfold heatmap in *. rewrite Hlen.
      replace (3 * m + 2 - 1)%nat with (1 + m * 3)%nat by lia.
      rewrite Nat.div_add by lia. reflexivity.
    - rewrite length_map, (@every_third_length heatmap) by lia.
      unfold heatmap in *. rewrite Hlen.
      replace (3 * m + 2 - 2)%nat with (0 + m * 3)%nat by lia.
      rewrite Nat.div_add by lia. reflexivity. }
  destruct (mapM_Ok F (map G heatmaps)) as [blurred Hblurred].
  { intros x Hx. apply in_map_iff in Hx. destruct Hx as [inst [<- Hin]].
    destruct (Hinst inst Hin) as [ts [Hts _]]. exists ts. exact Hts. }
  rewrite Hblurred. cbv beta iota delta [bind].
  assert (Hbl : length blurred = N).
  { destruct (mapM_nth _ _ _ Hblurred) as [Hl _].
    rewrite length_map in Hl. destruct Hshape as [HlN _]. lia. }
  assert (Hbr : Forall (fun ts => length ts = m /\ Forall (Spec.triple_rect H W) ts)
                       blurred).
  { apply (mapM_Forall _ _ _ _ Hblurred). intros x ts Hx Hts.
    apply in_map_iff in Hx. destruct Hx as [inst [<- Hin]].
    destruct (Hinst inst Hin) as [ts' [Hts' Hprop]].
    rewrite Hts in Hts'. inversion Hts'; subst ts'. exact Hprop. }
  set (heat := map (map (fun t : heatmap * heatmap * heatmap => fst (fst t)))
                   blurred).
  assert (Hheat : has_shape N m H W heat).
  { split; [unfold heat; rewrite length_map; exact Hbl|].
    apply Forall_forall. intros row Hrow. unfold heat in Hrow.
    apply in_map_iff in Hrow. destruct Hrow as [ts [<- Hts]].
    rewrite Forall_forall in Hbr. destruct (Hbr _ Hts) as [Hlen Hrects].
    split; [rewrite length_map; exact Hlen|].
    apply Forall_forall. intros ch Hch. apply in_map_iff in Hch.
    destruct Hch as [t [<- Ht]]. rewrite Forall_forall in Hrects.
    apply (Hrects _ Ht). }
  destruct (get_max_preds_range heat N m H W Hheat HN Hm HH HW Hsize)
    as [peaks [maxvals [Hmax [Hpt [Hmt Hrange]]]]].
  rewrite Hmax. cbv beta iota delta [bind].
  pose proof (peaks_in_reach heat N m H W peaks maxvals Hpt Hmt Hrange) as Hreach.
  destruct (mapM_Ok (fun '(t_row, c_row) =>
                       mapM (fun '(t, c0) => TopDownEval.add_offset t c0)
                            (combine t_row c_row))
                    (combine blurred peaks)) as [coords Hcoords].
  { intros [t_row c_row] Hin. apply mapM_Ok. intros [t c0] Hin'.
    rewrite Forall_forall in Hbr, Hreach.
    destruct (Hbr _ (in_combine_l _ _ _ _ Hin)) as [_ Hrects].
    pose proof (Hreach _ (in_combine_r _ _ _ _ Hin)) as Hr.
    rewrite Forall_forall in Hrects, Hr.
    destruct (Hr _ (in_combine_r _ _ _ _ Hin')) as [Hx Hy].
    apply (add_offset_returns t c0 H W); try assumption.
    apply Hrects. exact (in_combine_l _ _ _ _ Hin'). }
  rewrite Hcoords. cbv beta iota delta [bind].
  assert (Hct : Spec.table N m coords).
  { destruct Hpt as [Hpl Hpr].
    destruct (mapM_nth _ _ _ Hcoords) as [Hl _].
    split; [rewrite Hl, length_combine; lia|].
    apply (mapM_Forall _ _ _ _ Hcoords). intros [t_row c_row] row Hin Hrow.
    destruct (mapM_nth _ _ _ Hrow) as [Hl' _].
    rewrite Hl', length_combine.
    rewrite Forall_forall in Hbr, Hpr.
    destruct (Hbr _ (in_combine_l _ _ _ _ Hin)) as [Ht _].
    rewrite Ht, (Hpr _ (in_combine_r _ _ _ _ Hin)). lia. }
  rewrite transform_back_returns by (destruct Hct; lia).
  exists coords, maxvals. split; [exact Hct|]. split; [exact Hmt|].
  reflexivity.
Qed.

End CombinedTarget.

(* ================================================================== *)
(** * Further properties of the Megvii codec *)
(* ================================================================== *)

Section MegviiEncode.
Context {Ext : External}.

Lemma list_set_length {A : Type} (l : list A) (i : nat) (v : A) :
  (i < length l)%nat -> length (list_set l i v) = length l.
Proof.
  intro Hi. unfold list_set.
  rewrite length_app, length_firstn. cbn [length]. rewrite length_skipn. lia.
Qed.

Lemma list_set_In {A : Type} (l : list A) (i : nat) (v x : A) :
  In x (list_set l i v) -> x = v \/ In x l.
Proof.
  unfold list_set. intro Hin. apply in_app_or in Hin.
  destruct Hin as [Hin | [<- | Hin]].
  - right. rewrite <- (firstn_skipn i l). apply in_or_app. left. exact Hin.
  - left. reflexivity.
  - right. rewrite <- (firstn_skipn (S i) l). apply in_or_app. right. exact Hin.
Qed.

Lemma list_set_nth {A : Type} (l : list A) (i : nat) (v d : A) :
  (i < length l)%nat -> nth i (list_set l i v) d = v.
Proof.
  intro Hi. unfold list_set.
  rewrite app_nth2 by (rewrite length_firstn; lia).
  rewrite length_firstn. replace (i - Nat.min i (length l))%nat with 0%nat by lia.
  reflexivity.
Qed.

Lemma zeros_rect (h w : nat) : rect h w (np_zeros2 h w).
Proof.
  unfold np_zeros2. split; [apply repeat_length|].
  apply Forall_forall. intros row Hrow. apply repeat_spec in Hrow. subst row.
  apply repeat_length.
Qed.

(** The array of zeros with a single 1 in row [ky], column [kx]. *)
Lemma one_hot_facts (h w ky kx : nat) :
  (ky < h)%nat -> (kx < w)%nat ->
  let zeros := np_zeros2 h w in
  let one_hot := list_set zeros ky (list_set (nth ky zeros []) kx 1) in
  rect h w one_hot /\ Spec.nonneg_channel one_hot /\
  Cv2.pixel one_hot (Z.of_nat ky) (Z.of_nat kx) = 1.
Proof.
  intros Hky Hkx zeros one_hot.
  assert (Hrow : nth ky zeros [] = repeat 0 w).
  { unfold zeros, np_zeros2. apply (repeat_spec h). apply nth_In.
    rewrite repeat_length. exact Hky. }
  assert (Hzl : length zeros = h) by apply repeat_length.
  split; [|split].
  - split.
    + unfold one_hot. rewrite list_set_length by lia. exact Hzl.
    + apply Forall_forall. intros row Hin. unfold one_hot in Hin.
      apply list_set_In in Hin. destruct Hin as [-> | Hin].
      * rewrite list_set_length; rewrite Hrow, repeat_length; [reflexivity | lia].
      * apply repeat_spec in Hin. subst row. apply repeat_length.
  - apply Forall_forall. intros row Hin. unfold one_hot in Hin.
    apply list_set_In in Hin.
    assert (Hz : Forall (fun v => 0 <= v) (repeat 0 w)).
    { apply Forall_forall. intros v Hv. apply repeat_spec in Hv. subst v.
      apply Qle_refl. }
    destruct Hin as [-> | Hin].
    + rewrite Hrow. apply Forall_forall. intros v Hv. apply list_set_In in Hv.
      destruct Hv as [-> | Hv]; [unfold Qle; simpl; lia|].
      rewrite Forall_forall in Hz. exact (Hz _ Hv).
    + apply repeat_spec in Hin. subst row. exact Hz.
  - unfold Cv2.pixel. rewrite !Nat2Z.id. unfold one_hot.
    rewrite list_set_nth by lia.
    apply list_set_nth. rewrite Hrow, repeat_length. exact Hkx.
Qed.

Lemma sepFilter2D_at (kx ky : list Q) (img : heatmap) (y x : nat) :
  (y < length img)%nat -> (x < length (hd [] img))%nat ->
  Spec.at_ (Cv2.sepFilter2D kx ky img) (Z.of_nat y) (Z.of_nat x)
  = Cv2.filter_at kx ky img (Z.of_nat y) (Z.of_nat x).
Proof.
  intros Hy Hx. unfold Spec.at_, Cv2.sepFilter2D. rewrite !Nat2Z.id.
  rewrite (nth_indep _ [] (map (fun x0 => Cv2.filter_at kx ky img (Z.of_nat 0)
                                            (Z.of_nat x0))
                               (seq 0 (length (hd [] img)))))
    by (rewrite length_map, length_seq; exact Hy).
  rewrite (map_nth (fun y0 => map (fun x0 =>
             Cv2.filter_at kx ky img (Z.of_nat y0) (Z.of_nat x0))
             (seq 0 (length (hd [] img))))).
  rewrite seq_nth by exact Hy. simpl plus.
  rewrite (nth_indep _ 0 (Cv2.filter_at kx ky img (Z.of_nat y) (Z.of_nat 0)))
    by (rewrite length_map, length_seq; exact Hx).
  rewrite (map_nth (fun x0 => Cv2.filter_at kx ky img (Z.of_nat y) (Z.of_nat x0))).
  rewrite seq_nth by exact Hx. reflexivity.
Qed.

Lemma sepFilter2D_nonneg (kx ky : list Q) (img : heatmap) :
  Forall (fun c => 0 <= c) kx -> Forall (fun c => 0 <= c) ky ->
  Spec.nonneg_channel img ->
  Spec.nonneg_channel (Cv2.sepFilter2D kx ky img).
Proof.
  intros Hkx Hky Himg. apply Forall_forall. intros row Hrow.
  apply in_map_iff in Hrow. destruct Hrow as [y [<- _]].
  apply Forall_forall. intros v Hv. apply in_map_iff in Hv.
  destruct Hv as [x [<- _]]. apply filter_at_nonneg; assumption.
Qed.

Lemma at_map (g : Q -> Q) (hm : heatmap) (H W : nat) (y x : nat) :
  rect H W hm -> (y < H)%nat -> (x < W)%nat ->
  Spec.at_ (map (map g) hm) (Z.of_nat y) (Z.of_nat x)
  = g (Spec.at_ hm (Z.of_nat y) (Z.of_nat x)).
Proof.
  intros [Hl Hrows] Hy Hx. unfold Spec.at_. rewrite !Nat2Z.id.
  rewrite (nth_indep _ [] (map g [])) by (rewrite length_map; lia).
  rewrite map_nth.
  assert (Hrow : length (nth y hm []) = W).
  { rewrite Forall_forall in Hrows. apply Hrows. apply nth_In. lia. }
  rewrite (nth_indep _ 0 (g 0)) by (rewrite length_map; lia).
  apply map_nth.
Qed.


Lemma encode_channel_skips (self : Megvii.MegviiHeatmap) (visible : Q)
    (keypoint : Q * Q) :
  fst (Megvii.input_size self) <> 0%Z ->
  snd (Megvii.input_size self) <> 0%Z ->
  fst (Megvii.heatmap_size self) <> 0%Z ->
  snd (Megvii.heatmap_size self) <> 0%Z ->
  visible < 1#2 \/ ~ Spec.in_grid self keypoint ->
  Megvii.encode_channel self (Spec.feat_stride self) visible keypoint
  = Ok (np_zeros2 (Z.to_nat (snd (Megvii.heatmap_size self)))
                  (Z.to_nat (fst (Megvii.heatmap_size self))), 0).
Proof.
  intros Hw Hh HW HH Hskip.
  unfold Megvii.encode_channel, Spec.feat_stride, Spec.in_grid in *.
  destruct (Megvii.heatmap_size self) as [W Hgt].
  destruct (Megvii.input_size self) as [w h].
  cbn [fst snd] in *.
  destruct (Qltb visible (1#2)) eqn:Ev; [reflexivity|].
  apply Qltb_false in Ev.
  destruct Hskip as [Hv | Hout]; [exfalso; lra|].
  unfold Megvii.div_or_nonfinite.
  rewrite !Qeq_bool_div_nonzero by lia.
  cbv beta iota delta [bind].
  match goal with
  | |- (if ?g then _ else _) = _ => destruct g eqn:Eg; [reflexivity|]
  end.
  exfalso. apply Hout.
  repeat rewrite orb_false_iff in Eg. destruct Eg as [[[E1 E2] E3] E4].
  apply Z.ltb_ge in E1, E3. apply Z.leb_gt in E2, E4. lia.
Qed.

Lemma encode_channel_hits (self : Megvii.MegviiHeatmap) (visible : Q)
    (keypoint : Q * Q) (kw kh : Z) :
  Megvii.kernel_size self = Megvii.KPair kw kh ->
  (0 < kw)%Z -> Z.odd kw = true -> (0 < kh)%Z -> Z.odd kh = true ->
  Spec.gaussian_like (Cv2.getGaussianKernel kw) ->
  Spec.gaussian_like (Cv2.getGaussianKernel kh) ->
  fst (Megvii.input_size self) <> 0%Z ->
  snd (Megvii.input_size self) <> 0%Z ->
  ~ visible < 1#2 -> Spec.in_grid self keypoint ->
  exists hm,
    Megvii.encode_channel self (Spec.feat_stride self) visible keypoint
    = Ok (hm, 1) /\
    rect (Z.to_nat (snd (Megvii.heatmap_size self)))
         (Z.to_nat (fst (Megvii.heatmap_size self))) hm /\
    Spec.nonneg_channel hm /\
    Spec.at_ hm (Spec.grid_y self keypoint) (Spec.grid_x self keypoint) == 255.
Proof.
  intros Hks Hkw Hokw Hkh Hokh Gx Gy Hw Hh Hvis Hgrid.
  unfold Megvii.encode_channel, Spec.grid_x, Spec.grid_y, Spec.feat_stride,
    Spec.in_grid in *.
  destruct (Megvii.heatmap_size self) as [W Hgt].
  destruct (Megvii.input_size self) as [w h].
  cbn [fst snd] in *.
  destruct Hgrid as [[Hx0 Hx1] [Hy0 Hy1]].
  set (kx := py_int (fst keypoint / (inject_Z w / inject_Z W))) in *.
  set (ky := py_int (snd keypoint / (inject_Z h / inject_Z Hgt))) in *.
  replace (Qltb visible (1#2)) with false
    by (symmetry; apply Qltb_false; apply Qnot_lt_le; exact Hvis).
  unfold Megvii.div_or_nonfinite.
  rewrite !Qeq_bool_div_nonzero by lia.
  cbv beta iota delta [bind]. fold kx. fold ky.
  replace ((kx <? 0) || (W <=? kx) || (ky <? 0) || (Hgt <=? ky))%Z with false.
  2:{ symmetry. repeat rewrite orb_false_iff.
      repeat split; first [apply Z.ltb_ge | apply Z.leb_gt]; lia. }
  rewrite Hks. cbn [Megvii.cv2_GaussianBlur].
  set (zeros := np_zeros2 (Z.to_nat Hgt) (Z.to_nat W)).
  set (one_hot := list_set zeros (Z.to_nat ky)
                    (list_set (nth (Z.to_nat ky) zeros []) (Z.to_nat kx) 1)).
  destruct (one_hot_facts (Z.to_nat Hgt) (Z.to_nat W) (Z.to_nat ky) (Z.to_nat kx))
    as [Hrect [Hnn Hpix]]; try lia.
  fold zeros in Hrect, Hnn, Hpix. fold one_hot in Hrect, Hnn, Hpix.
  rewrite !Z2Nat.id in Hpix by lia.
  assert (HH : (0 < Z.to_nat Hgt)%nat) by lia.
  assert (HW : (0 < Z.to_nat W)%nat) by lia.
  unfold Cv2.GaussianBlur.
  rewrite (rect_hd_width _ _ _ Hrect HH).
  replace (Nat.eqb (length one_hot) 0) with false
    by (symmetry; apply Nat.eqb_neq; destruct Hrect; lia).
  replace (Nat.eqb (Z.to_nat W) 0) with false
    by (symmetry; apply Nat.eqb_neq; lia).
  replace (0 <? kw)%Z with true by (symmetry; apply Z.ltb_lt; lia).
  replace (0 <? kh)%Z with true by (symmetry; apply Z.ltb_lt; lia).
  rewrite Hokw, Hokh. cbn [orb andb]. cbv beta iota delta [bind].
  set (blurred := Cv2.sepFilter2D (Cv2.getGaussianKernel kw)
                                  (Cv2.getGaussianKernel kh) one_hot).
  assert (Hbrect : rect (Z.to_nat Hgt) (Z.to_nat W) blurred)
    by (apply sepFilter2D_rect; assumption).
  rewrite (py_index2_rect _ _ _ _ _ Hbrect) by lia.
  cbv beta iota delta [bind].
  assert (Hat : Spec.at_ blurred ky kx
                = Cv2.filter_at (Cv2.getGaussianKernel kw)
                    (Cv2.getGaussianKernel kh) one_hot ky kx).
  { rewrite <- (Z2Nat.id ky), <- (Z2Nat.id kx) by lia.
    apply sepFilter2D_at.
    - destruct Hrect as [Hl _]. rewrite Hl. lia.
    - rewrite (rect_hd_width _ _ _ Hrect HH). lia. }
  assert (Hpeak : 0 < Spec.at_ blurred ky kx).
  { rewrite Hat. apply filter_at_pos; try assumption.
    - destruct Hrect as [Hl _]. rewrite Hl. lia.
    - rewrite (rect_hd_width _ _ _ Hrect HH). lia.
    - rewrite Hpix. reflexivity. }
  destruct (Qeq_bool (Spec.at_ blurred ky kx) 0) eqn:Ez.
  { apply Qeq_bool_iff in Ez. exfalso. lra. }
  eexists. split; [reflexivity|]. split; [apply rect_map; exact Hbrect|].
  split.
  - assert (Hbnn : Spec.nonneg_channel blurred).
    { apply sepFilter2D_nonneg; [apply Gx | apply Gy | exact Hnn]. }
    apply Forall_forall. intros row Hrow. apply in_map_iff in Hrow.
    destruct Hrow as [r [<- Hr]]. apply Forall_forall. intros v Hv.
    apply in_map_iff in Hv. destruct Hv as [u [<- Hu]].
    unfold Spec.nonneg_channel in Hbnn. rewrite Forall_forall in Hbnn.
    pose proof (Hbnn _ Hr) as Hrnn. rewrite Forall_forall in Hrnn.
    pose proof (Hrnn _ Hu) as Hu0.
    apply Qmult_le_0_compat; [|unfold Qle; simpl; lia].
    apply Qle_shift_div_l; [exact Hpeak|]. rewrite Qmult_0_l. exact Hu0.
  - rewrite <- (Z2Nat.id ky), <- (Z2Nat.id kx) by lia.
    rewrite (at_map _ _ _ _ _ _ Hbrect) by lia.
    rewrite !Z2Nat.id by lia. field. intro Hz. lra.
Qed.


Lemma bind_ret {A B : Type} (a : A) (f : A -> outcome B) : bind (Ok a) f = f a.
Proof. reflexivity. Qed.

(** The loop over k reads [keypoints_visible[0, k]] and [keypoints[0, k]]:
    it runs through the two rows side by side. *)
Lemma encode_loop_from {B : Type} (f : Q -> Q * Q -> outcome B)
    (vis : list Q) (kps : list (Q * Q)) (s n : nat) :
  (s + n = length vis)%nat -> (s + n = length kps)%nat ->
  mapM (fun k =>
          visible <- (row <- py_index [vis] 0 ;; py_index row k) ;;
          keypoint <- (row <- py_index [kps] 0 ;; py_index row k) ;;
          f visible keypoint)
       (map Z.of_nat (seq s n))
  = mapM (fun '(v, kp) => f v kp) (combine (skipn s vis) (skipn s kps)).
Proof.
  revert s. induction n as [|n IH]; intros s Hv Hk.
  - rewrite !skipn_all2 by lia. reflexivity.
  - cbn [seq map mapM]. rewrite (IH (S s)) by lia.
    rewrite !py_index_head. cbv beta iota delta [bind].
    rewrite (py_index_in_range vis (Z.of_nat s) 0) by lia.
    rewrite (py_index_in_range kps (Z.of_nat s) (0, 0)) by lia.
    cbv beta iota delta [bind]. rewrite Nat2Z.id.
    rewrite (skipn_nth_cons vis s 0) by lia.
    rewrite (skipn_nth_cons kps s (0, 0)) by lia.
    reflexivity.
Qed.

Lemma encode_unfolds (self : Megvii.MegviiHeatmap) (kps : list (Q * Q))
    (vis : list Q) :
  (0 < fst (Megvii.heatmap_size self))%Z ->
  (0 < snd (Megvii.heatmap_size self))%Z ->
  length vis = length kps ->
  Megvii.encode self [kps] [vis]
  = (r <- mapM (fun '(v, kp) =>
                  Megvii.encode_channel self (Spec.feat_stride self) v kp)
               (combine vis kps) ;;
     Ok (map fst r, map snd r)).
Proof.
  intros HW HH Hlen. unfold Megvii.encode, Spec.feat_stride.
  destruct (Megvii.heatmap_size self) as [W Hgt].
  destruct (Megvii.input_size self) as [w h].
  cbn [fst snd] in *.
  change (py_assert (Nat.eqb (length [kps]) 1)) with (@Ok unit tt).
  rewrite bind_ret. cbv beta.
  unfold Megvii.div_or_nonfinite.
  rewrite !Qeq_bool_inject_nonzero by lia.
  rewrite !bind_ret. cbv beta.
  replace ((Hgt <? 0) || (W <? 0))%Z with false
    by (symmetry; apply orb_false_iff; split; apply Z.ltb_ge; lia).
  rewrite bind_ret. cbv beta. cbn [hd].
  rewrite (encode_loop_from
             (Megvii.encode_channel self (inject_Z w / inject_Z W,
                                          inject_Z h / inject_Z Hgt))
             vis kps 0 (length kps)) by lia.
  reflexivity.
Qed.

Lemma mapM_all {A B : Type} (f : A -> outcome B) (g : A -> B) (l : list A) :
  (forall a, In a l -> f a = Ok (g a)) -> mapM f l = Ok (map g l).
Proof.
  induction l as [|a t IH]; intro Hall; [reflexivity|].
  simpl. rewrite (Hall a (or_introl eq_refl)). cbv beta iota delta [bind].
  rewrite IH by (intros x Hx; apply Hall; right; exact Hx). reflexivity.
Qed.

Lemma map_const_repeat {A B : Type} (b : B) (l : list A) :
  map (fun _ => b) l = repeat b (length l).
Proof. induction l as [|a t IH]; [reflexivity|]. simpl. rewrite IH. reflexivity. Qed.


(** X20.  [MegviiHeatmap.encode] on one instance of K keypoints, with a
    heatmap size of positive sides and an input size of nonzero sides: when
    every keypoint is either marked invisible (visibility below 0.5) or
    falls outside the W x H grid after the division by the stride, the
    result is K channels of zeros and K weights of 0, whatever
    [kernel_size] is: [cv2.GaussianBlur] is not called. *)
Theorem encode_skipped_keypoints :
  forall (self : Megvii.MegviiHeatmap) (kps : list (Q * Q)) (vis : list Q),
    (0 < fst (Megvii.heatmap_size self))%Z ->
    (0 < snd (Megvii.heatmap_size self))%Z ->
    fst (Megvii.input_size self) <> 0%Z ->
    snd (Megvii.input_size self) <> 0%Z ->
    length vis = length kps ->
    (forall k v kp, nth_error vis k = Some v -> nth_error kps k = Some kp ->
       v < 1#2 \/ ~ Spec.in_grid self kp) ->
    Megvii.encode self [kps] [vis]
    = Ok (repeat (np_zeros2 (Z.to_nat (snd (Megvii.heatmap_size self)))
                            (Z.to_nat (fst (Megvii.heatmap_size self))))
                 (length kps),
          repeat 0 (length kps)).
Proof.
  intros self kps vis HW HH Hw Hh Hlen Hskip.
  rewrite encode_unfolds by assumption.
  rewrite (mapM_all _ (fun _ =>
             (np_zeros2 (Z.to_nat (snd (Megvii.heatmap_size self)))
                        (Z.to_nat (fst (Megvii.heatmap_size self))), 0))).
  - cbv beta iota delta [bind]. rewrite !map_map. cbn [fst snd].
    rewrite !map_const_repeat, length_combine, Hlen, Nat.min_id. reflexivity.
  - intros [v kp] Hin. destruct (in_combine_nth _ _ _ _ Hin) as [k [Hv Hk]].
    apply encode_channel_skips; try assumption; try lia.
    exact (Hskip k v kp Hv Hk).
Qed.


(** X21.  [MegviiHeatmap.encode] with [kernel_size] a pair of odd positive
    numbers (their coefficients none negative, the middle one positive), a
    heatmap size of positive sides and an input size of nonzero sides
    returns, on one instance of K keypoints, K channels of H rows and W
    columns and K weights.  Keypoint k has weight 0 and a channel of zeros
    when it is invisible or outside the grid; otherwise it has weight 1 and
    a channel with no negative value that holds 255 at its grid cell
    (ky, kx) = int(keypoint / stride). *)
Theorem encode_contract :
  forall (self : Megvii.MegviiHeatmap) (kps : list (Q * Q)) (vis : list Q)
         (kw kh : Z),
    Megvii.kernel_size self = Megvii.KPair kw kh ->
    (0 < kw)%Z -> Z.odd kw = true -> (0 < kh)%Z -> Z.odd kh = true ->
    Spec.gaussian_like (Cv2.getGaussianKernel kw) ->
    Spec.gaussian_like (Cv2.getGaussianKernel kh) ->
    (0 < fst (Megvii.heatmap_size self))%Z ->
    (0 < snd (Megvii.heatmap_size self))%Z ->
    fst (Megvii.input_size self) <> 0%Z ->
    snd (Megvii.input_size self) <> 0%Z ->
    length vis = length kps ->
    exists heatmaps weights,
      Megvii.encode self [kps] [vis] = Ok (heatmaps, weights) /\
      length heatmaps = length kps /\ length weights = length kps /\
      forall k v kp,
        nth_error vis k = Some v -> nth_error kps k = Some kp ->
        exists hm wt,
          nth_error heatmaps k = Some hm /\ nth_error weights k = Some wt /\
          rect (Z.to_nat (snd (Megvii.heatmap_size self)))
               (Z.to_nat (fst (Megvii.heatmap_size self))) hm /\
          (v < 1#2 \/ ~ Spec.in_grid self kp ->
             wt = 0 /\
             hm = np_zeros2 (Z.to_nat (snd (Megvii.heatmap_size self)))
                            (Z.to_nat (fst (Megvii.heatmap_size self)))) /\
          (~ v < 1#2 /\ Spec.in_grid self kp ->
             wt = 1 /\ Spec.nonneg_channel hm /\
             Spec.at_ hm (Spec.grid_y self kp) (Spec.grid_x self kp) == 255).
Proof.
  intros self kps vis kw kh Hks Hkw Hokw Hkh Hokh Gx Gy HW HH Hw Hh Hlen.
  rewrite encode_unfolds by assumption.
  assert (Hdec : forall v kp,
            (v < 1#2 \/ ~ Spec.in_grid self kp) \/
            (~ v < 1#2 /\ Spec.in_grid self kp)).
  { intros v kp. destruct (Qlt_le_dec v (1#2)) as [Hv | Hv];
      [left; left; exact Hv|].
    assert (Hnv : ~ v < 1#2) by (intro Hc; lra).
    unfold Spec.in_grid. cbv zeta.
    set (gx := py_int (fst kp / _)). set (gy := py_int (snd kp / _)).
    assert (Hg : ((0 <= gx < fst (Megvii.heatmap_size self))%Z /\
                  (0 <= gy < snd (Megvii.heatmap_size self))%Z) \/
                 ~ ((0 <= gx < fst (Megvii.heatmap_size self))%Z /\
                    (0 <= gy < snd (Megvii.heatmap_size self))%Z)) by lia.
    destruct Hg as [Hg | Hg];
      [right; split; assumption | left; right; exact Hg]. }
  destruct (mapM_Ok (fun '(v, kp) =>
                       Megvii.encode_channel self (Spec.feat_stride self) v kp)
                    (combine vis kps)) as [r Hr].
  { intros [v kp] _. destruct (Hdec v kp) as [Hskip | [Hv Hg]].
    - eexists. apply encode_channel_skips; try assumption; lia.
    - destruct (encode_channel_hits self v kp kw kh) as [hm [Hhm _]];
        try assumption.
      eexists. exact Hhm. }
  rewrite Hr. cbv beta iota delta [bind].
  destruct (mapM_nth _ _ _ Hr) as [Hl Hcells].
  rewrite length_combine, Hlen, Nat.min_id in Hl.
  eexists. eexists. split; [reflexivity|].
  split; [rewrite length_map; exact Hl|].
  split; [rewrite length_map; exact Hl|].
  intros k v kp Hv Hk.
  destruct (Hcells k (v, kp) (nth_error_combine _ _ _ _ _ Hv Hk))
    as [[hm wt] [Hnth Hch]].
  exists hm, wt. rewrite !nth_error_map, Hnth. cbn [option_map fst snd].
  split; [reflexivity|]. split; [reflexivity|].
  destruct (Hdec v kp) as [Hskip | [Hnv Hg]].
  - rewrite encode_channel_skips in Hch by (try assumption; lia).
    inversion Hch; subst hm wt.
    split; [apply zeros_rect|]. split.
    + intros _. split; reflexivity.
    + intros [Hnv Hg]. exfalso. destruct Hskip as [Hs | Hs]; contradiction.
  - destruct (encode_channel_hits self v kp kw kh) as [hm' [Hhm [Hrect [Hnn Hat]]]];
      try assumption.
    rewrite Hch in Hhm. inversion Hhm; subst hm' wt.
    split; [exact Hrect|]. split.
    + intros [Hs | Hs]; contradiction.
    + intros _. split; [reflexivity|]. split; assumption.
Qed.

End MegviiEncode.
(* ================================================================== *)
(** * The theorems at concrete inputs *)
(* ================================================================== *)

Lemma get_max_preds_contract_witness :
  has_shape 1 1 5 5 [[Samples.one_hot]] /\
  (Z.of_nat 5 * Z.of_nat 5 <= 16777216)%Z /\
  exists preds maxvals,
    TopDownEval._get_max_preds [[Samples.one_hot]] = Ok (preds, maxvals) /\
    forall n k hm, cell [[Samples.one_hot]] n k = Some hm ->
      exists idx,
        Spec.first_argmax (concat hm) idx /\
        cell maxvals n k = Some (nth idx (concat hm) 0) /\
        (0 < nth idx (concat hm) 0 ->
           cell preds n k =
             Some (inject_Z (Z.of_nat idx mod 5), inject_Z (Z.of_nat idx / 5))) /\
        (nth idx (concat hm) 0 <= 0 -> cell preds n k = Some (-1, -1)).
Proof.
  assert (Hs : has_shape 1 1 5 5 [[Samples.one_hot]]) by (repeat constructor).
  assert (Hsize : (Z.of_nat 5 * Z.of_nat 5 <= 16777216)%Z) by lia.
  split; [exact Hs|]. split; [exact Hsize|].
  apply (get_max_preds_contract [[Samples.one_hot]] 1 1 5 5 Hs); lia.
Defined.

Lemma pck_threshold_monotone_witness :
  (1#4) <= (1#2) /\
  let r1 := @TopDownEval.keypoint_pck_accuracy Samples.sample_external
              Samples.pck_pred Samples.pck_gt Samples.pck_mask (1#4)
              Samples.pck_normalize in
  let r2 := @TopDownEval.keypoint_pck_accuracy Samples.sample_external
              Samples.pck_pred Samples.pck_gt Samples.pck_mask (1#2)
              Samples.pck_normalize in
  Forall2 Qle (fst (fst r1)) (fst (fst r2)) /\
  snd (fst r1) <= snd (fst r2) /\
  snd r1 = snd r2 /\
  Forall2 (fun a b => Qle_bool 0 a = Qle_bool 0 b) (fst (fst r1)) (fst (fst r2)).
Proof.
  assert (Hle : (1#4) <= (1#2)) by (unfold Qle; simpl; lia).
  split; [exact Hle|].
  exact (@pck_threshold_monotone Samples.sample_external Samples.pck_pred
           Samples.pck_gt Samples.pck_mask Samples.pck_normalize _ _ Hle).
Defined.

Lemma all_invalid_mask_sentinels_witness :
  Forall (Forall (fun m => m = false)) Samples.no_mask /\
  @TopDownEval._calc_distances Samples.sample_external Samples.pck_pred
     Samples.pck_gt Samples.no_mask Samples.pck_normalize
    = [[Fin (-1); Fin (-1)]; [Fin (-1); Fin (-1)]] /\
  @TopDownEval.keypoint_pck_accuracy Samples.sample_external Samples.pck_pred
     Samples.pck_gt Samples.no_mask (1#2) Samples.pck_normalize
    = ([-1; -1], 0, 0%nat) /\
  @TopDownEval.keypoint_epe Samples.sample_external Samples.pck_pred
     Samples.pck_gt Samples.no_mask = NaN.
Proof.
  assert (Hm : Forall (Forall (fun m => m = false)) Samples.no_mask)
    by (repeat constructor).
  split; [exact Hm|].
  exact (@all_invalid_mask_sentinels Samples.sample_external Samples.pck_pred
           Samples.pck_gt Samples.no_mask (1#2) Samples.pck_normalize Hm).
Defined.

(** [_taylor] on a binary64 machine.  On [ill_conditioned] the determinant
    is not 0, the machine finds -2^-53 for it, the elimination meets the
    pivot 0 and LinAlgError leaves [_taylor].  On [cancelling] the
    determinant is not 0, the machine finds 0 for it and the coordinate comes
    back as it was. *)
Lemma taylor_guard_outcomes_witness :
  rect 5 5 Samples.ill_conditioned /\
  ~ Spec.taylor_dxx Samples.ill_conditioned 2 2
    * Spec.taylor_dyy Samples.ill_conditioned 2 2
    - Spec.taylor_dxy Samples.ill_conditioned 2 2 ^ 2 == 0 /\
  @TopDownEval._taylor Samples.binary64_external Samples.ill_conditioned (2, 2)
    = Raises LinAlgError /\
  rect 5 5 Samples.cancelling /\
  ~ Spec.taylor_dxx Samples.cancelling 2 2
    * Spec.taylor_dyy Samples.cancelling 2 2
    - Spec.taylor_dxy Samples.cancelling 2 2 ^ 2 == 0 /\
  @TopDownEval._taylor Samples.binary64_external Samples.cancelling (2, 2)
    = Ok (2, 2).
Proof.
  assert (Hr1 : rect 5 5 Samples.ill_conditioned) by (repeat constructor).
  assert (Hr2 : rect 5 5 Samples.cancelling) by (repeat constructor).
  split; [exact Hr1|].
  split; [intro Hc; vm_compute in Hc; discriminate Hc|].
  split.
  { apply (proj2 (@taylor_guard_outcomes Samples.binary64_external
                    Samples.ill_conditioned 5 5 (2, 2) Hr1)).
    - split.
      + unfold Spec.left_gap, Spec.right_gap, Spec.top_gap, Spec.bottom_gap.
        vm_compute. repeat split; discriminate.
      + intro Hc. vm_compute in Hc. discriminate Hc.
    - vm_compute. reflexivity. }
  split; [exact Hr2|].
  split; [intro Hc; vm_compute in Hc; discriminate Hc|].
  apply (proj1 (@taylor_guard_outcomes Samples.binary64_external
                  Samples.cancelling 5 5 (2, 2) Hr2)).
  right. vm_compute. reflexivity.
Defined.


Lemma decode_scores_are_keypoints_witness :
  Spec.gaussian_like (@Cv2.getGaussianKernel Samples.sample_external 3) /\
  Forall (fun hm => rect 5 5 hm /\ Spec.nonneg_channel hm /\
                    Spec.has_positive hm) [Samples.one_hot] /\
  exists keypoints scores,
    @Megvii.decode Samples.sample_external Samples.codec_int [Samples.one_hot]
      = Ok (keypoints, scores) /\
    scores = add_axis keypoints /\
    shape keypoints = [1; 1; 2]%nat /\
    shape scores = [1; 1; 1; 2]%nat /\
    shape scores <> [1%nat] /\
    (forall confidences : list Q,
        scores <> of_values confidences /\
        scores <> add_axis (of_values confidences)).
Proof.
  assert (Hk : Spec.gaussian_like
                 (@Cv2.getGaussianKernel Samples.sample_external 3)).
  { split; [|reflexivity].
    repeat constructor; unfold Qle; simpl; lia. }
  assert (Hall : Forall (fun hm => rect 5 5 hm /\ Spec.nonneg_channel hm /\
                                   Spec.has_positive hm) [Samples.one_hot]).
  { constructor; [|constructor]. split; [repeat constructor|]. split.
    - repeat constructor; unfold Qle; simpl; lia.
    - unfold Spec.has_positive, Samples.one_hot.
      do 2 apply Exists_cons_tl. apply Exists_cons_hd.
      do 2 apply Exists_cons_tl. apply Exists_cons_hd.
      reflexivity. }
  split; [exact Hk|]. split; [exact Hall|].
  destruct (@decode_scores_are_keypoints Samples.sample_external
              Samples.codec_int [Samples.one_hot]) as [Hscores Hreturns].
  destruct (Hreturns 3%Z 5%nat 5%nat eq_refl ltac:(lia) eq_refl Hk
              ltac:(lia) ltac:(lia) Hall) as [keypoints [scores Hdec]].
  exists keypoints, scores. split; [exact Hdec|].
  exact (Hscores keypoints scores Hdec).
Defined.

Lemma gaussian_blur_keeps_peak_witness :
  has_shape 1 1 5 5 [[Samples.one_hot]] /\
  Spec.gaussian_like (@Cv2.getGaussianKernel Samples.sample_external 3) /\
  exists out,
    @TopDownEval._gaussian_blur Samples.sample_external [[Samples.one_hot]] 3
      = Ok out /\
    forall n k hm, cell [[Samples.one_hot]] n k = Some hm ->
      exists hm' m m',
        cell out n k = Some hm' /\ rect 5 5 hm' /\
        np_amax (concat hm) = Ok m /\
        np_amax (concat hm') = Ok m' /\
        m' == m.
Proof.
  assert (Hs : has_shape 1 1 5 5 [[Samples.one_hot]]) by (repeat constructor).
  assert (Hk : Spec.gaussian_like
                 (@Cv2.getGaussianKernel Samples.sample_external 3)).
  { split; [|reflexivity].
    repeat constructor; unfold Qle; simpl; lia. }
  split; [exact Hs|]. split; [exact Hk|].
  apply (@gaussian_blur_keeps_peak Samples.sample_external
           [[Samples.one_hot]] 1 1 5 5 3 Hs); try lia; try reflexivity;
    try exact Hk.
  intros n k hm Hcell.
  destruct n as [|n]; [|destruct n; discriminate].
  destruct k as [|k]; [|destruct k; discriminate].
  inversion Hcell; subst hm. split.
  - repeat constructor; unfold Qle; simpl; lia.
  - unfold Spec.has_positive, Samples.one_hot.
    do 2 apply Exists_cons_tl. apply Exists_cons_hd.
    do 2 apply Exists_cons_tl. apply Exists_cons_hd.
    reflexivity.
Defined.

Lemma dark_reads_other_instance_witness :
  ~ @np_log Samples.sample_external 50 == @np_log Samples.sample_external (1#1000) /\
  (exists rA hA pA,
     @TopDownEval.post_dark Samples.sample_external [[(0, 0)]; [(1, 1)]]
       Samples.dark_A = Ok (rA, hA) /\
     cell rA 1 0 = Some pA /\ fst pA == 1 /\ snd pA == 1) /\
  (@TopDownEval.post_dark Samples.sample_external [[(3, 0)]; [(1, 1)]]
     Samples.dark_B = Raises LinAlgError \/
   exists rB hB pB,
     @TopDownEval.post_dark Samples.sample_external [[(3, 0)]; [(1, 1)]]
       Samples.dark_B = Ok (rB, hB) /\
     cell rB 1 0 = Some pB /\ ~ fst pB == 1).
Proof.
  assert (Hlog : ~ @np_log Samples.sample_external 50
                   == @np_log Samples.sample_external (1#1000))
    by (intro Hc; vm_compute in Hc; discriminate).
  split; [exact Hlog|].
  exact (proj2 (proj2 (proj2
           (@dark_reads_other_instance Samples.sample_external Hlog)))).
Defined.

Lemma roundtrip_never_returns_witness :
  ~ 1 < 1#2 /\
  Spec.in_grid Samples.codec_int (10, 10) /\
  @Megvii.encode Samples.sample_external Samples.codec_int [[(10, 10)]] [[1]]
    = Raises Cv2Error /\
  (forall r,
     @Megvii.encode_then_decode Samples.sample_external Samples.codec_int
       [[(10, 10)]] [[1]] <> Ok r) /\
  (exists heatmaps weights,
     @Megvii.encode Samples.sample_external Samples.codec_pair [[(10, 10)]]
       [[1]] = Ok (heatmaps, weights) /\
     @Megvii.decode Samples.sample_external Samples.codec_pair heatmaps
       = Raises TypeError).
Proof.
  assert (Hv : ~ 1 < 1#2) by (intro Hc; vm_compute in Hc; discriminate).
  assert (Hg : Spec.in_grid Samples.codec_int (10, 10))
    by (vm_compute; repeat split; discriminate).
  assert (Hg' : Spec.in_grid Samples.codec_pair (10, 10)) by exact Hg.
  split; [exact Hv|]. split; [exact Hg|].
  assert (Hw : fst (Megvii.input_size Samples.codec_int) <> 0%Z)
    by (simpl; lia).
  assert (Hh : snd (Megvii.input_size Samples.codec_int) <> 0%Z)
    by (simpl; lia).
  destruct (@roundtrip_never_returns Samples.sample_external Samples.codec_int
              (10, 10) 1 Hv Hw Hh Hg) as [Hint [_ Hnever]].
  destruct (@roundtrip_never_returns Samples.sample_external Samples.codec_pair
              (10, 10) 1 Hv Hw Hh Hg') as [_ [Hpair _]].
  split; [exact (Hint 3%Z eq_refl)|]. split; [exact Hnever|].
  eexists. eexists. split; [vm_compute; reflexivity|].
  exact (Hpair 3%Z 3%Z _ eq_refl).
Defined.

(* ================================================================== *)
(** ** The further properties at concrete inputs *)
(* ================================================================== *)

Lemma calc_distances_layout_witness :
  Spec.table 2 2 Samples.pck_pred /\ Spec.table 2 2 Samples.pck_gt /\
  Spec.table 2 2 Samples.pck_mask /\
  let distances :=
    @TopDownEval._calc_distances Samples.sample_external Samples.pck_pred
      Samples.pck_gt Samples.pck_mask Samples.pck_normalize in
  Spec.table 2 2 distances /\
  (forall n k, cell Samples.pck_mask n k = Some false ->
               cell distances k n = Some (Fin (-1))) /\
  Spec.select (concat (TopDownEval.transpose_mask 2 Samples.pck_mask))
              (concat distances)
  = @TopDownEval.masked_distances Samples.sample_external Samples.pck_pred
      Samples.pck_gt Samples.pck_mask Samples.pck_normalize.
Proof.
  assert (Hp : Spec.table 2 2 Samples.pck_pred)
    by (split; [reflexivity | repeat constructor]).
  assert (Hg : Spec.table 2 2 Samples.pck_gt)
    by (split; [reflexivity | repeat constructor]).
  assert (Hm : Spec.table 2 2 Samples.pck_mask)
    by (split; [reflexivity | repeat constructor]).
  split; [exact Hp|]. split; [exact Hg|]. split; [exact Hm|].
  apply (@calc_distances_layout Samples.sample_external Samples.pck_pred
           Samples.pck_gt Samples.pck_mask Samples.pck_normalize 2 2 Hp Hg Hm);
    [reflexivity | lia].
Defined.

Lemma calc_distances_single_instance_witness :
  length Samples.one_gt = length Samples.one_pred /\
  length Samples.one_mask = length Samples.one_pred /\
  @TopDownEval._calc_distances Samples.sample_external [Samples.one_pred]
    [Samples.one_gt] [Samples.one_mask] [(1, 1)]
  = map (fun '(p, t, m) =>
           [if (m : bool)
            then @TopDownEval.normalized_distance Samples.sample_external
                   p t (1, 1)
            else Fin (-1)])
        (combine (combine Samples.one_pred Samples.one_gt) Samples.one_mask).
Proof.
  split; [reflexivity|]. split; [reflexivity|].
  apply (@calc_distances_single_instance Samples.sample_external
           Samples.one_pred Samples.one_gt Samples.one_mask (1, 1));
    reflexivity.
Defined.

(** Row 0, column 1 of the result (keypoint 0, instance 1) holds the distance
    of instance 0, keypoint 1. *)
Lemma calc_distances_full_mask_witness :
  Forall (Forall (fun m => m = true)) Samples.full_mask /\
  exists p t nrm,
    cell Samples.pck_pred 0 1 = Some p /\
    cell Samples.pck_gt 0 1 = Some t /\
    nth_error Samples.pck_normalize 0 = Some nrm /\
    cell (@TopDownEval._calc_distances Samples.sample_external
            Samples.pck_pred Samples.pck_gt Samples.full_mask
            Samples.pck_normalize) 0 1
    = Some (@TopDownEval.normalized_distance Samples.sample_external p t nrm).
Proof.
  assert (Hall : Forall (Forall (fun m => m = true)) Samples.full_mask)
    by (repeat constructor).
  split; [exact Hall|].
  assert (Hp : Spec.table 2 2 Samples.pck_pred)
    by (split; [reflexivity | repeat constructor]).
  assert (Hg : Spec.table 2 2 Samples.pck_gt)
    by (split; [reflexivity | repeat constructor]).
  assert (Hm : Spec.table 2 2 Samples.full_mask)
    by (split; [reflexivity | repeat constructor]).
  exact (@calc_distances_full_mask Samples.sample_external Samples.pck_pred
           Samples.pck_gt Samples.full_mask Samples.pck_normalize 2 2
           Hp Hg Hm eq_refl Hall 1%nat 0%nat ltac:(lia) ltac:(lia)).
Defined.

Lemma keypoint_epe_mean_witness :
  (forall q, 0 <= q -> 0 <= @np_sqrt Samples.sample_external q) /\
  exists qs,
    @TopDownEval.masked_distances Samples.sample_external Samples.pck_pred
      Samples.pck_gt Samples.pck_mask (repeat (1, 1) 2) = map Fin qs /\
    length qs = Spec.count_true (concat Samples.pck_mask) /\
    Forall (fun q => 0 <= q) qs /\
    @TopDownEval.keypoint_epe Samples.sample_external Samples.pck_pred
      Samples.pck_gt Samples.pck_mask
    = np_true_divide (fold_left Qplus qs 0)
                     (inject_Z (Z.of_nat (length qs))) /\
    ((0 < length qs)%nat ->
     @TopDownEval.keypoint_epe Samples.sample_external Samples.pck_pred
       Samples.pck_gt Samples.pck_mask
     = Fin (fold_left Qplus qs 0 / inject_Z (Z.of_nat (length qs))) /\
     0 <= fold_left Qplus qs 0 / inject_Z (Z.of_nat (length qs))).
Proof.
  assert (Hsqrt : forall q, 0 <= q -> 0 <= @np_sqrt Samples.sample_external q)
    by (intros q Hq; exact Hq).
  split; [exact Hsqrt|].
  apply (@keypoint_epe_mean Samples.sample_external Samples.pck_pred
           Samples.pck_gt Samples.pck_mask 2 2 Hsqrt);
    try (split; [reflexivity | repeat constructor]); lia.
Defined.

Lemma pose_pck_self_witness :
  has_shape 1 1 5 5 [[Samples.one_hot]] /\ Spec.table 1 1 [[true]] /\
  exists acc avg_acc cnt,
    @TopDownEval.pose_pck_accuracy Samples.sample_external
      [[Samples.one_hot]] [[Samples.one_hot]] [[true]] (1#2) None
    = Ok (Some acc, avg_acc, cnt) /\
    length acc = 1%nat /\
    Forall (fun a => a = -1 \/ a == 1) acc /\
    ((0 < cnt)%nat -> avg_acc == 1) /\
    (cnt = 0%nat -> avg_acc = 0).
Proof.
  assert (Hs : has_shape 1 1 5 5 [[Samples.one_hot]]) by (repeat constructor).
  assert (Hm : Spec.table 1 1 [[true]])
    by (split; [reflexivity | repeat constructor]).
  split; [exact Hs|]. split; [exact Hm|].
  apply (@pose_pck_self Samples.sample_external [[Samples.one_hot]] [[true]]
           (1#2) 1 1 5 5); try exact Hs; try exact Hm; try lia.
  - intros q Hq. exact Hq.
  - reflexivity.
Defined.


Lemma empty_heatmaps_raise_witness :
  has_shape 1 1 1 0 Samples.no_columns /\
  TopDownEval._get_max_preds Samples.no_columns = Raises ValueError /\
  @TopDownEval.keypoints_from_heatmaps Samples.sample_external
    Samples.no_columns [(0, 0)] [(1, 1)] true false 11 (7#2) false
    "GaussianHeatMap" = Raises ValueError /\
  @TopDownEval.keypoints_from_heatmaps Samples.sample_external
    Samples.no_columns [(0, 0)] [(1, 1)] true false 11 (7#2) true
    "GaussianHeatMap" = Raises ValueError.
Proof.
  assert (Hs : has_shape 1 1 1 0 Samples.no_columns) by (repeat constructor).
  split; [exact Hs|].
  apply (@empty_heatmaps_raise Samples.sample_external Samples.no_columns
           1 1 1 0 [(0, 0)] [(1, 1)] true false 11 (7#2) "GaussianHeatMap" Hs).
  right. right. right. reflexivity.
Defined.

Lemma get_max_preds_in_grid_witness :
  has_shape 1 1 5 5 [[Samples.one_hot]] /\
  (Z.of_nat 5 * Z.of_nat 5 <= 16777216)%Z /\
  exists preds maxvals,
    TopDownEval._get_max_preds [[Samples.one_hot]] = Ok (preds, maxvals) /\
    Spec.table 1 1 preds /\ Spec.table 1 1 maxvals /\
    forall n k p v,
      cell preds n k = Some p -> cell maxvals n k = Some v ->
      (0 < v /\ Spec.in_map 5 5 p) \/ (v <= 0 /\ p = (-1, -1)).
Proof.
  assert (Hs : has_shape 1 1 5 5 [[Samples.one_hot]]) by (repeat constructor).
  assert (Hsize : (Z.of_nat 5 * Z.of_nat 5 <= 16777216)%Z) by lia.
  split; [exact Hs|]. split; [exact Hsize|].
  apply (get_max_preds_in_grid [[Samples.one_hot]] 1 1 5 5 Hs); lia.
Defined.

Lemma single_peak_located_witness :
  has_shape 1 1 5 5 [[Samples.one_hot]] /\
  0 < Spec.at_ Samples.one_hot 2 2 /\
  exists preds maxvals,
    TopDownEval._get_max_preds [[Samples.one_hot]] = Ok (preds, maxvals) /\
    cell preds 0 0 = Some (2, 2) /\
    cell maxvals 0 0 = Some (Spec.at_ Samples.one_hot 2 2).
Proof.
  assert (Hs : has_shape 1 1 5 5 [[Samples.one_hot]]) by (repeat constructor).
  assert (Hpos : 0 < Spec.at_ Samples.one_hot 2 2) by (vm_compute; reflexivity).
  split; [exact Hs|]. split; [exact Hpos|].
  apply (single_peak_located [[Samples.one_hot]] 1 1 5 5 0 0 Samples.one_hot
           2 2 Hs ltac:(lia) eq_refl ltac:(lia) ltac:(lia) Hpos).
  intros x' y' Hx Hy Hne.
  do 5 (destruct x' as [|x'];
        [do 5 (destruct y' as [|y'];
               [first [ vm_compute; reflexivity
                      | exfalso; apply Hne; reflexivity ] |]); lia |]).
  lia.
Defined.

Lemma shift_mode_returns_witness :
  has_shape 2 1 5 5 [[Samples.near_left]; [Samples.near_right]] /\
  exists peaks maxvals shifted,
    TopDownEval._get_max_preds [[Samples.near_left]; [Samples.near_right]]
      = Ok (peaks, maxvals) /\
    @TopDownEval.keypoints_from_heatmaps Samples.sample_external
      [[Samples.near_left]; [Samples.near_right]] [(0, 0); (0, 0)]
      [(1, 1); (1, 1)] true false 11 (7#2) false "GaussianHeatMap"
    = Ok {| TopDownEval.preds :=
              map (fun '(p, (c, s)) =>
                     @transform_preds Samples.sample_external p c s
                       (5%Z, 5%Z) false)
                  (combine shifted (combine [(0, 0); (0, 0)]
                                            [(1, 1); (1, 1)]));
            TopDownEval.maxvals := maxvals;
            TopDownEval.heatmaps_after :=
              [[Samples.near_left]; [Samples.near_right]] |} /\
    Spec.table 2 1 shifted /\
    forall n k peak q,
      cell peaks n k = Some peak -> cell shifted n k = Some q ->
      - (1#4) <= fst q - fst peak /\ fst q - fst peak <= 1#4 /\
      - (1#4) <= snd q - snd peak /\ snd q - snd peak <= 1#4.
Proof.
  assert (Hs : has_shape 2 1 5 5 [[Samples.near_left]; [Samples.near_right]])
    by (repeat constructor).
  split; [exact Hs|].
  apply (@shift_mode_returns Samples.sample_external
           [[Samples.near_left]; [Samples.near_right]] 2 1 5 5
           [(0, 0); (0, 0)] [(1, 1); (1, 1)] 11 (7#2) "GaussianHeatMap" Hs);
    first [lia | reflexivity].
Defined.

Lemma unbiased_kernel_asserted_witness :
  has_shape 1 1 5 5 [[Samples.one_hot]] /\
  @TopDownEval.keypoints_from_heatmaps Samples.sample_external
    [[Samples.one_hot]] [(0, 0)] [(1, 1)] true true 2 (7#2) false
    "GaussianHeatMap" = Raises AssertionError.
Proof.
  assert (Hs : has_shape 1 1 5 5 [[Samples.one_hot]]) by (repeat constructor).
  split; [exact Hs|].
  apply (@unbiased_kernel_asserted Samples.sample_external
           [[Samples.one_hot]] 1 1 5 5 [(0, 0)] [(1, 1)] 2 (7#2)
           "GaussianHeatMap" Hs); try lia.
  right. reflexivity.
Defined.

Lemma kernel_one_raises_witness :
  has_shape 1 1 5 5 [[Samples.one_hot]] /\
  @TopDownEval._gaussian_blur Samples.sample_external [[Samples.one_hot]] 1
    = Raises ValueError /\
  @TopDownEval.keypoints_from_heatmaps Samples.sample_external
    [[Samples.one_hot]] [(0, 0)] [(1, 1)] true true 1 (7#2) false
    "GaussianHeatMap" = Raises ValueError.
Proof.
  assert (Hs : has_shape 1 1 5 5 [[Samples.one_hot]]) by (repeat constructor).
  split; [exact Hs|].
  apply (@kernel_one_raises Samples.sample_external [[Samples.one_hot]]
           1 1 5 5 [(0, 0)] [(1, 1)] (7#2) "GaussianHeatMap" Hs); lia.
Defined.

Lemma unbiased_mode_outcomes_witness :
  has_shape 1 1 5 5 [[Samples.one_hot]] /\
  Spec.gaussian_like (@Cv2.getGaussianKernel Samples.sample_external 3) /\
  exists peaks maxvals modulated,
    TopDownEval._get_max_preds [[Samples.one_hot]] = Ok (peaks, maxvals) /\
    @TopDownEval._gaussian_blur Samples.sample_external [[Samples.one_hot]] 3
      = Ok modulated /\
    has_shape 1 1 5 5 modulated /\
    (@TopDownEval.keypoints_from_heatmaps Samples.sample_external
       [[Samples.one_hot]] [(0, 0)] [(1, 1)] true true 3 (7#2) false
       "GaussianHeatMap" = Raises LinAlgError \/
     exists refined,
       Spec.table 1 1 refined /\
       @TopDownEval.keypoints_from_heatmaps Samples.sample_external
         [[Samples.one_hot]] [(0, 0)] [(1, 1)] true true 3 (7#2) false
         "GaussianHeatMap"
       = Ok {| TopDownEval.preds :=
                 map (fun '(p, (c, s)) =>
                        @transform_preds Samples.sample_external p c s
                          (5%Z, 5%Z) false)
                     (combine refined (combine [(0, 0)] [(1, 1)]));
               TopDownEval.maxvals := maxvals;
               TopDownEval.heatmaps_after := modulated |}).
Proof.
  assert (Hs : has_shape 1 1 5 5 [[Samples.one_hot]]) by (repeat constructor).
  assert (Hk : Spec.gaussian_like
                 (@Cv2.getGaussianKernel Samples.sample_external 3)).
  { split; [|reflexivity].
    repeat constructor; unfold Qle; simpl; lia. }
  split; [exact Hs|]. split; [exact Hk|].
  apply (@unbiased_mode_outcomes Samples.sample_external [[Samples.one_hot]]
           1 1 5 5 [(0, 0)] [(1, 1)] 3 (7#2) "GaussianHeatMap" Hs);
    try lia; try reflexivity; try exact Hk.
  - intros n k hm Hcell.
    destruct n as [|n]; [|destruct n; discriminate].
    destruct k as [|k]; [|destruct k; discriminate].
    inversion Hcell; subst hm. split.
    + repeat constructor; unfold Qle; simpl; lia.
    + unfold Spec.has_positive, Samples.one_hot.
      do 2 apply Exists_cons_tl. apply Exists_cons_hd.
      do 2 apply Exists_cons_tl. apply Exists_cons_hd.
      reflexivity.
  - intros a b c d. cbn [np_linalg_inv Samples.sample_external].
    unfold np_linalg_inv2.
    destruct (Qeq_bool (a * d - b * c) 0);
      [left; reflexivity | right; eexists; reflexivity].
Defined.

Lemma dark_blurs_first_instance_witness :
  exists d,
    @TopDownEval.keypoints_from_heatmaps Samples.sample_external
      Samples.dark_A [(0, 0); (0, 0)] [(1, 1); (1, 1)] true false 11 (7#2)
      true "GaussianHeatMap" = Ok d /\
    exists i0',
      @Spec.blur_times Samples.sample_external 2 [Samples.flat_1600]
        = Ok i0' /\
      TopDownEval.heatmaps_after d = i0' :: [[Samples.peak_1_1]].
Proof.
  eexists. split; [vm_compute; reflexivity|].
  apply (@dark_blurs_first_instance Samples.sample_external
           [Samples.flat_1600] [[Samples.peak_1_1]] [(0, 0); (0, 0)]
           [(1, 1); (1, 1)] false 11 (7#2) _).
  vm_compute; reflexivity.
Defined.

Lemma dark_mode_outcomes_witness :
  has_shape 1 1 5 5 [[Samples.one_hot]] /\
  (@TopDownEval.keypoints_from_heatmaps Samples.sample_external
     [[Samples.one_hot]] [(0, 0)] [(1, 1)] true false 11 (7#2) true
     "GaussianHeatMap" = Raises LinAlgError \/
   exists d,
     @TopDownEval.keypoints_from_heatmaps Samples.sample_external
       [[Samples.one_hot]] [(0, 0)] [(1, 1)] true false 11 (7#2) true
       "GaussianHeatMap" = Ok d).
Proof.
  assert (Hs : has_shape 1 1 5 5 [[Samples.one_hot]]) by (repeat constructor).
  split; [exact Hs|].
  apply (@dark_mode_outcomes Samples.sample_external [[Samples.one_hot]]
           1 1 5 5 [(0, 0)] [(1, 1)] false 11 (7#2) Hs);
    first [lia | reflexivity].
Defined.

Lemma combined_target_needs_triples_witness :
  has_shape 1 1 5 5 [[Samples.one_hot]] /\ (1 mod 3 <> 0)%nat /\
  @TopDownEval.keypoints_from_heatmaps Samples.sample_external
    [[Samples.one_hot]] [(0, 0)] [(1, 1)] true false 3 (7#2) true
    "CombinedTarget" = Raises IndexError.
Proof.
  assert (Hs : has_shape 1 1 5 5 [[Samples.one_hot]]) by (repeat constructor).
  assert (Hk : (1 mod 3 <> 0)%nat) by (intro Hc; discriminate Hc).
  split; [exact Hs|]. split; [exact Hk|].
  apply (@combined_target_needs_triples Samples.sample_external
           [[Samples.one_hot]] 1 1 5 5 [(0, 0)] [(1, 1)] true false 3 (7#2)
           Hs); first [lia | exact Hk | reflexivity].
Defined.

Lemma combined_target_returns_witness :
  has_shape 1 (3 * 1) 5 5 Samples.three_channels /\
  exists coords maxvals,
    Spec.table 1 1 coords /\ Spec.table 1 1 maxvals /\
    @TopDownEval.keypoints_from_heatmaps Samples.sample_external
      Samples.three_channels [(0, 0)] [(1, 1)] true false 3 (7#2) true
      "CombinedTarget"
    = Ok {| TopDownEval.preds :=
              map (fun '(p, (c, s)) =>
                     @transform_preds Samples.sample_external p c s
                       (5%Z, 5%Z) true)
                  (combine coords (combine [(0, 0)] [(1, 1)]));
            TopDownEval.maxvals := maxvals;
            TopDownEval.heatmaps_after := Samples.three_channels |}.
Proof.
  assert (Hs : has_shape 1 (3 * 1) 5 5 Samples.three_channels)
    by (repeat constructor).
  split; [exact Hs|].
  apply (@combined_target_returns Samples.sample_external
           Samples.three_channels 1 1 5 5 [(0, 0)] [(1, 1)] true false 3 (7#2)
           Hs); first [lia | reflexivity].
Defined.

Lemma encode_skipped_keypoints_witness :
  (0 < 1#2) /\
  @Megvii.encode Samples.sample_external Samples.codec_int [[(10, 10)]] [[0]]
  = Ok ([np_zeros2 5 5], [0]).
Proof.
  assert (Hv : 0 < 1#2) by reflexivity.
  split; [exact Hv|].
  apply (@encode_skipped_keypoints Samples.sample_external Samples.codec_int
           [(10, 10)] [0]); try (simpl; lia); try reflexivity.
  intros k v kp Hvis _. left.
  destruct k as [|k]; [|destruct k; discriminate].
  inversion Hvis; subst v. exact Hv.
Defined.

Lemma encode_contract_witness :
  Spec.gaussian_like (@Cv2.getGaussianKernel Samples.sample_external 3) /\
  exists heatmaps weights,
    @Megvii.encode Samples.sample_external Samples.codec_pair
      [[(10, 10); (100, 100)]] [[1; 1]] = Ok (heatmaps, weights) /\
    length heatmaps = 2%nat /\ length weights = 2%nat /\
    forall k v kp,
      nth_error [1; 1] k = Some v ->
      nth_error [(10, 10); (100, 100)] k = Some kp ->
      exists hm wt,
        nth_error heatmaps k = Some hm /\ nth_error weights k = Some wt /\
        rect 5 5 hm /\
        (v < 1#2 \/ ~ Spec.in_grid Samples.codec_pair kp ->
           wt = 0 /\ hm = np_zeros2 5 5) /\
        (~ v < 1#2 /\ Spec.in_grid Samples.codec_pair kp ->
           wt = 1 /\ Spec.nonneg_channel hm /\
           Spec.at_ hm (Spec.grid_y Samples.codec_pair kp)
                       (Spec.grid_x Samples.codec_pair kp) == 255).
Proof.
  assert (Hk : Spec.gaussian_like
                 (@Cv2.getGaussianKernel Samples.sample_external 3)).
  { split; [|reflexivity].
    repeat constructor; unfold Qle; simpl; lia. }
  split; [exact Hk|].
  apply (@encode_contract Samples.sample_external Samples.codec_pair
           [(10, 10); (100, 100)] [1; 1] 3 3 eq_refl);
    try (simpl; lia); try reflexivity; exact Hk.
Defined.
